(** * SEG-Y descriptors, standards registry and trace indexers

    A shallow embedding of [segy/standards/rev0.py],
    [segy/standards/registry.py] and [segy/indexing.py], with the
    properties of the reader's specification stated over it. *)

From Stdlib Require Import ZArith List String Ascii Lia Bool.
From Stdlib Require Import Strings.Byte.
From Stdlib Require Import DecimalString QArith.
From stdpp Require Import base option list gmap strings.

Local Open Scope string_scope.
Local Open Scope list_scope.
Local Open Scope Z_scope.

(** ** Descriptor data model *)

Module Schema.

(** Modelled from the spec: the [ScalarType] enumeration of
    [segy/schema/data_type.py], which is not part of the sources at hand;
    members and widths follow section 3 of the specification. *)
Inductive ScalarType :=
  | INT8 | UINT8 | INT16 | UINT16 | INT32 | UINT32 | INT64 | UINT64
  | FLOAT32 | FLOAT64 | IBM32.

Inductive Endianness := BIG | LITTLE | NATIVE.

#[global] Instance ScalarType_eq_dec : EqDecision ScalarType.
Proof. solve_decision. Defined.

#[global] Instance Endianness_eq_dec : EqDecision Endianness.
Proof. solve_decision. Defined.

(** Width in bytes of a scalar; [IBM32] is stored in a four byte word. *)
Definition width (t : ScalarType) : Z :=
  match t with
  | INT8 | UINT8 => 1
  | INT16 | UINT16 => 2
  | INT32 | UINT32 | FLOAT32 | IBM32 => 4
  | INT64 | UINT64 | FLOAT64 => 8
  end.

(** The keyword arguments of [StructuredFieldDescriptor(...)] as they are
    written in [rev0.py]. *)
Record StructuredFieldDescriptor := mkField {
  name : string;
  offset : Z;
  format : ScalarType;
  endianness : Endianness;
  description : string
}.

(** [StructuredDataTypeDescriptor(fields=..., item_size=..., offset=...)];
    [offset] is optional in the source. *)
Record StructuredDataTypeDescriptor := mkStruct {
  fields : list StructuredFieldDescriptor;
  item_size : Z;
  struct_offset : option Z
}.

(** All fields of a descriptor that carry a given name, in declaration
    order. *)
Definition fields_named (n : string) (d : StructuredDataTypeDescriptor)
  : list StructuredFieldDescriptor :=
  List.filter (fun f => String.eqb (name f) n) (fields d).

(** The [(offset, width)] pairs of a field list, in declaration order. *)
Definition layout (fs : list StructuredFieldDescriptor) : list (Z * Z) :=
  List.map (fun f => (offset f, width (format f))) fs.

End Schema.

(** ** The Rev0 standard, [segy/standards/rev0.py] *)

Module Rev0.
Import Schema.

Definition BINARY_FILE_HEADER_FIELDS_REV0 : list StructuredFieldDescriptor := [
  mkField "job_id" 0 INT32 BIG
    "Job Identification Number";
  mkField "line_no" 4 INT32 BIG
    "Line Number";
  mkField "reel_no" 8 INT32 BIG
    "Reel Number";
  mkField "data_traces_ensemble" 12 INT16 BIG
    "Number of Data Traces per Ensemble";
  mkField "aux_traces_ensemble" 14 INT16 BIG
    "Number of Auxiliary Traces per Ensemble";
  mkField "sample_interval" 16 INT16 BIG
    "Sample Interval";
  mkField "sample_interval_orig" 18 INT16 BIG
    "Sample Interval of Original Field Recording";
  mkField "samples_per_trace" 20 INT16 BIG
    "Number of Samples per Data Trace";
  mkField "samples_per_trace_orig" 22 INT16 BIG
    "Number of Samples per Data Trace for Original Field Recording";
  mkField "data_sample_format" 24 INT16 BIG
    "Data Sample Format Code";
  mkField "ensemble_fold" 26 INT16 BIG
    "Ensemble Fold";
  mkField "trace_sorting" 28 INT16 BIG
    "Trace Sorting Code";
  mkField "vertical_sum" 30 INT16 BIG
    "Vertical Sum Code";
  mkField "sweep_freq_start" 32 INT16 BIG
    "Sweep Frequency at Start";
  mkField "sweep_freq_end" 34 INT16 BIG
    "Sweep Frequency at End";
  mkField "sweep_length" 36 INT16 BIG
    "Sweep Length";
  mkField "sweep_type" 38 INT16 BIG
    "Sweep Type Code";
  mkField "sweep_trace_no" 40 INT16 BIG
    "Trace Number of Sweep Channel";
  mkField "sweep_taper_start" 42 INT16 BIG
    "Sweep Trace Taper Length at Start";
  mkField "sweep_taper_end" 44 INT16 BIG
    "Sweep Trace Taper Length at End";
  mkField "taper_type" 46 INT16 BIG
    "Taper Type";
  mkField "correlated_traces" 48 INT16 BIG
    "Correlated Data Traces";
  mkField "binary_gain" 50 INT16 BIG
    "Binary Gain Recovered";
  mkField "amp_recovery_method" 52 INT16 BIG
    "Amplitude Recovery Method";
  mkField "measurement_system" 54 INT16 BIG
    "Measurement System";
  mkField "impulse_signal_polarity" 56 INT16 BIG
    "Impulse Signal Polarity";
  mkField "vibratory_polarity" 58 INT16 BIG
    "Vibratory Polarity Code"
].

Definition TRACE_HEADER_FIELDS_REV0 : list StructuredFieldDescriptor := [
  mkField "trace_seq_line" 0 INT32 BIG
    "Trace Sequence Number within Line";
  mkField "trace_seq_file" 4 INT32 BIG
    "Trace Sequence Number within File";
  mkField "field_rec_no" 8 INT32 BIG
    "Original Field Record Number";
  mkField "trace_no_field_rec" 12 INT32 BIG
    "Trace Number within the Field Record";
  mkField "energy_src_pt" 16 INT32 BIG
    "Energy Source Point Number";
  mkField "cdp_ens_no" 20 INT32 BIG
    "Ensemble Number (CDP, CMP, etc.)";
  mkField "trace_no_ens" 24 INT32 BIG
    "Trace Number within the Ensemble";
  mkField "trace_id" 28 INT16 BIG
    "Trace Identification Code";
  mkField "vert_sum" 30 INT16 BIG
    "Number of Vertically Stacked Traces";
  mkField "horiz_stack" 32 INT16 BIG
    "Number of Horizontally Stacked Traces";
  mkField "data_use" 34 INT16 BIG
    "Data Use";
  mkField "dist_src_to_rec" 36 INT32 BIG
    "Distance from Source Point to Receiver Group";
  mkField "rec_elev" 40 INT32 BIG
    "Receiver Group Elevation";
  mkField "src_elev" 44 INT32 BIG
    "Source Elevation";
  mkField "src_depth" 48 INT32 BIG
    "Source Depth";
  mkField "datum_elev_rec" 52 INT32 BIG
    "Datum Elevation at Receiver Group";
  mkField "datum_elev_src" 56 INT32 BIG
    "Datum Elevation at Source";
  mkField "water_depth_src" 60 INT32 BIG
    "Water Depth at Source";
  mkField "water_depth_rec" 64 INT32 BIG
    "Water Depth at Receiver Group";
  mkField "scalar_apply_elev" 68 INT16 BIG
    "Scalar to be applied to all elevations and depths";
  mkField "scalar_apply_coords" 70 INT16 BIG
    "Scalar to be applied to all coordinates";
  mkField "src_x" 72 INT32 BIG
    "Source X coordinate";
  mkField "src_y" 76 INT32 BIG
    "Source Y coordinate";
  mkField "rec_x" 80 INT32 BIG
    "Receiver X coordinate";
  mkField "rec_y" 84 INT32 BIG
    "Receiver Y coordinate";
  mkField "coord_units" 88 INT16 BIG
    "Coordinate units";
  mkField "weathering_vel" 90 INT16 BIG
    "Weathering Velocity";
  mkField "subweathering_vel" 92 INT16 BIG
    "Subweathering Velocity";
  mkField "uphole_time_src" 94 INT16 BIG
    "Uphole Time at Source";
  mkField "uphole_time_rec" 96 INT16 BIG
    "Uphole Time at Receiver";
  mkField "src_static_corr" 98 INT16 BIG
    "Source Static Correction";
  mkField "rec_static_corr" 100 INT16 BIG
    "Receiver Static Correction";
  mkField "total_static" 102 INT16 BIG
    "Total Static Applied";
  mkField "lag_time_a" 104 INT16 BIG
    "Lag Time A";
  mkField "lag_time_b" 106 INT16 BIG
    "Lag Time B";
  mkField "delay_rec_time" 108 INT16 BIG
    "Delay Recording Time";
  mkField "mute_start" 110 INT16 BIG
    "Start Time of Mute";
  mkField "mute_end" 112 INT16 BIG
    "End Time of Mute";
  mkField "samples_per_trace" 114 INT16 BIG
    "Number of Samples in this Trace";
  mkField "sample_interval" 116 INT16 BIG
    "Sample Interval for this Trace";
  mkField "gain_type" 118 INT16 BIG
    "Gain Type of Field Instruments";
  mkField "instrument_gain" 120 INT16 BIG
    "Instrument Gain Constant";
  mkField "instrument_early_gain" 122 INT16 BIG
    "Instrument Early Gain";
  mkField "correlated" 124 INT16 BIG
    "Correlated";
  mkField "sweep_freq_start" 126 INT16 BIG
    "Sweep Frequency at Start";
  mkField "sweep_freq_end" 128 INT16 BIG
    "Sweep Frequency at End";
  mkField "sweep_length" 130 INT16 BIG
    "Sweep Length";
  mkField "sweep_type" 132 INT16 BIG
    "Sweep Type";
  mkField "sweep_trace_taper_start" 134 INT16 BIG
    "Sweep Trace Taper Length at Start";
  mkField "sweep_trace_taper_end" 136 INT16 BIG
    "Sweep Trace Taper Length at End";
  mkField "taper_type" 138 INT16 BIG
    "Taper Type";
  mkField "alias_filter_freq" 140 INT16 BIG
    "Alias Filter Frequency";
  mkField "alias_filter_slope" 142 INT16 BIG
    "Alias Filter Slope";
  mkField "notch_filter_freq" 144 INT16 BIG
    "Notch Filter Frequency";
  mkField "notch_filter_slope" 146 INT16 BIG
    "Notch Filter Slope";
  mkField "low_cut_freq" 148 INT16 BIG
    "Low Cut Frequency";
  mkField "high_cut_freq" 150 INT16 BIG
    "High Cut Frequency";
  mkField "low_cut_slope" 152 INT16 BIG
    "Low Cut Slope";
  mkField "high_cut_slope" 154 INT16 BIG
    "High Cut Slope";
  mkField "year" 156 INT16 BIG
    "Year Data Recorded";
  mkField "day" 158 INT16 BIG
    "Day of Year";
  mkField "hour" 160 INT16 BIG
    "Hour of Day";
  mkField "minute" 162 INT16 BIG
    "Minute of Hour";
  mkField "second" 164 INT16 BIG
    "Second of Minute";
  mkField "time_basis_code" 166 INT16 BIG
    "Time Basis Code";
  mkField "trace_weighting_factor" 168 INT16 BIG
    "Trace Weighting Factor";
  mkField "geophone_group_no_roll1" 170 INT16 BIG
    "Geophone Group Number of Roll Switch Position One";
  mkField "geophone_group_no_first_trace" 172 INT16 BIG
    "Geophone Group Number of Trace Number One within Original Field Record";
  mkField "geophone_group_no_last_trace" 174 INT16 BIG
    "Geophone Group Number of Last Trace within Original Field Record";
  mkField "gap_size" 176 INT16 BIG
    "Gap Size (total number of groups dropped)";
  mkField "over_travel" 178 INT16 BIG
    "Over Travel Associated with Taper"
].

Definition rev0_binary_file_header : StructuredDataTypeDescriptor :=
  {| fields := BINARY_FILE_HEADER_FIELDS_REV0;
     item_size := 400;
     struct_offset := Some 3200 |}.

Definition rev0_trace_header : StructuredDataTypeDescriptor :=
  {| fields := TRACE_HEADER_FIELDS_REV0;
     item_size := 240;
     struct_offset := None |}.

(** Consecutive placement of fields of the given widths from byte
    [start]: the layout of a header whose fields follow one another
    without gaps. *)
Fixpoint pack (start : Z) (widths : list Z) : list (Z * Z) :=
  match widths with
  | [] => []
  | w :: ws => (start, w) :: pack (start + w) ws
  end.

(** Field widths of the binary file header in the SEG-Y Rev0 standard
    (file bytes 3201-3260): three four byte integers, then twenty-four two
    byte integers. *)
Definition segy_rev0_binary_widths : list Z :=
  repeat 4 3 ++ repeat 2 24.

(** Field widths of the trace header in the SEG-Y Rev0 standard (trace
    bytes 1-180). *)
Definition segy_rev0_trace_widths : list Z :=
  repeat 4 7 ++ repeat 2 4 ++ repeat 4 8 ++ repeat 2 2 ++ repeat 4 4
  ++ repeat 2 46.

End Rev0.

(** ** IBM hexadecimal floating point, [segy/ibm.py] *)

Module Ibm.

(** Modelled from the spec: [ibm2ieee] of [segy/ibm.py], which is not part
    of the sources at hand.  Section 4.1 of the specification gives the
    decoding of a 32-bit IBM word [W] into the bit pattern of an IEEE-754
    binary32 number: sign, excess-64 base-16 exponent and 24-bit fraction
    are extracted, a zero fraction gives a signed zero, and otherwise the
    IEEE pattern is assembled from the highest set bit of the fraction.
    Results whose IEEE exponent field would reach 255 saturate to a signed
    infinity; results whose field would fall to 0 or below give a signed
    zero. *)
Definition ibm2ieee (W : Z) : Z :=
  let sign := Z.land (Z.shiftr W 31) 1 in
  let exponent := Z.land (Z.shiftr W 24) 0x7F in
  let fraction := Z.land W 0x00FFFFFF in
  if fraction =? 0 then Z.shiftl sign 31
  else
    let hi_bit := Z.log2 fraction in
    let ieee_exp := (exponent - 64) * 4 - (24 - (hi_bit + 1)) + 127 - 1 in
    if 255 <=? ieee_exp then Z.lor (Z.shiftl sign 31) 0x7F800000
    else if ieee_exp <=? 0 then Z.shiftl sign 31
    else
      Z.lor (Z.lor (Z.shiftl sign 31) (Z.shiftl ieee_exp 23))
            (Z.land (Z.shiftl fraction (23 - hi_bit)) 0x7FFFFF).

(** The rational number denoted by an IBM word:
    [(-1)^sign * fraction * 16^(exponent - 64) * 2^-24]. *)
Definition ibm_value (W : Z) : Q :=
  let sign := Z.land (Z.shiftr W 31) 1 in
  let exponent := Z.land (Z.shiftr W 24) 0x7F in
  let fraction := Z.land W 0x00FFFFFF in
  let m := if sign =? 0 then fraction else - fraction in
  let e := 4 * (exponent - 64) - 24 in
  Qred (if 0 <=? e then inject_Z (m * 2 ^ e)
        else Qmake m (Z.to_pos (2 ^ (- e)))).

(** The rational number denoted by the bit pattern of a finite binary32
    number (zero, subnormal or normal); [None] for infinities and NaNs. *)
Definition float32_value (bits : Z) : option Q :=
  let sign := Z.land (Z.shiftr bits 31) 1 in
  let e := Z.land (Z.shiftr bits 23) 0xFF in
  let frac := Z.land bits 0x7FFFFF in
  if e =? 255 then None
  else
    let m := if e =? 0 then frac else 0x800000 + frac in
    let m := if sign =? 0 then m else - m in
    let p := (if e =? 0 then 1 else e) - 150 in
    Some (Qred (if 0 <=? p then inject_Z (m * 2 ^ p)
                else Qmake m (Z.to_pos (2 ^ (- p))))).

(** Bit patterns of the binary32 numbers named in the specification. *)
Definition f32_pos_zero : Z := 0x00000000.
Definition f32_neg_zero : Z := 0x80000000.
Definition f32_half : Z := 0x3F000000.
Definition f32_neg_half : Z := 0xBF000000.
Definition f32_one : Z := 0x3F800000.
Definition f32_eight : Z := 0x41000000.
Definition f32_neg_eight : Z := 0xC1000000.

End Ibm.

(** ** Python and numpy values used by the indexers *)

Module Py.

(** The exceptions the modelled code raises, with their message. *)
Inductive exn :=
  | IndexError (msg : string)
  | ValueError (msg : string)
  | TypeError (msg : string)
  | AttributeError (msg : string)
  | KeyError (msg : string)
  | FileNotFoundError (path : string)
  | NotImplementedError (msg : string)
  | RecursionError.

Inductive result (A : Type) :=
  | Ok (a : A)
  | Raise (e : exn).
Arguments Ok {A} a.
Arguments Raise {A} e.

(** [str(i)] for an integer and [str(l)] for a list of integers, as an
    f-string interpolates them. *)
Definition str_int (z : Z) : string := NilZero.string_of_int (Z.to_int z).

Definition str_list (l : list Z) : string :=
  "[" +:+ String.concat ", " (List.map str_int l) +:+ "]".

(** [x or d] on an optional integer: [None] and [0] are both falsy. *)
Definition or_default (x : option Z) (d : Z) : Z :=
  match x with
  | Some v => if v =? 0 then d else v
  | None => d
  end.

(** A [slice(start, stop, step)] object with integer or [None] members. *)
Record slice := mkSlice {
  start : option Z;
  stop : option Z;
  step : option Z
}.

(** [slice.indices(length)] as CPython computes it: the step defaults to
    1, the bounds are clipped to the length, negative members count from
    the end. A zero step or a negative length raises [ValueError]. *)
Definition slice_indices (s : slice) (length : Z) : result (Z * Z * Z) :=
  let stp := match step s with Some v => v | None => 1 end in
  if stp =? 0 then Raise (ValueError "slice step cannot be zero")
  else if length <? 0 then Raise (ValueError "length should not be negative")
  else
    let lower := if stp <? 0 then -1 else 0 in
    let upper := if stp <? 0 then length - 1 else length in
    let clip (v : Z) :=
      if v <? 0 then Z.max (v + length) lower else Z.min v upper in
    let sta := match start s with
               | None => if stp <? 0 then upper else lower
               | Some v => clip v
               end in
    let sto := match stop s with
               | None => if stp <? 0 then lower else upper
               | Some v => clip v
               end in
    Ok (sta, sto, stp).

(** [list(range(start, stop, step))] for a non-zero step. *)
Definition range (sta sto stp : Z) : list Z :=
  let n := if 0 <? stp then (sto - sta + stp - 1) / stp
           else (sta - sto - stp - 1) / (- stp) in
  List.map (fun k => sta + Z.of_nat k * stp) (seq 0 (Z.to_nat n)).

(** [sorted(zip(paths, starts, ends))]: tuples are compared
    lexicographically.  Equal tuples are identical, so any stable sort
    gives the same list; insertion sort is used here. *)
Definition tuple_leb (a b : string * Z * Z) : bool :=
  let '(p1, s1, e1) := a in
  let '(p2, s2, e2) := b in
  match String.compare p1 p2 with
  | Lt => true
  | Gt => false
  | Eq => (s1 <? s2) || ((s1 =? s2) && (e1 <=? e2))
  end.

Fixpoint insert_sorted (x : string * Z * Z) (l : list (string * Z * Z))
  : list (string * Z * Z) :=
  match l with
  | [] => [x]
  | y :: l' => if tuple_leb x y then x :: y :: l' else y :: insert_sorted x l'
  end.

Definition sorted (l : list (string * Z * Z)) : list (string * Z * Z) :=
  List.fold_right insert_sorted [] l.

End Py.

(** ** The byte-range transport, [fsspec] *)

Module Fsspec.
Import Py.

(** A file system: the content of each file by path. *)
Definition AbstractFileSystem := gmap string (list byte).

(** The merging loop of [merge_offset_ranges]: [out] holds the finished
    blocks, [cur] the last block of [new_paths], [new_starts] and
    [new_ends], [prev] the path of the previous input range. *)
Fixpoint merge_loop (max_gap : Z) (max_block : option Z) (prev : string)
    (rest : list (string * Z * Z)) (out : list (string * Z * Z))
    (cur : string * Z * Z) : list (string * Z * Z) :=
  match rest with
  | [] => out ++ [cur]
  | (p, s, e) :: rest' =>
      let '(cp, cs, ce) := cur in
      if negb (String.eqb p prev)
         || (s - ce >? max_gap)
         || match max_block with Some b => e - cs >? b | None => false end
      then merge_loop max_gap max_block p rest' (out ++ [cur]) (p, s, e)
      else merge_loop max_gap max_block p rest' out (cp, cs, e)
  end.

(** [fsspec.utils.merge_offset_ranges(paths, starts, ends, max_gap,
    max_block, sort)]: ranges are sorted, then a range is merged into the
    previous block when it starts at most [max_gap] bytes after the block's
    end and the merged block does not exceed [max_block]. *)
Definition merge_offset_ranges (paths : list string) (starts ends : list Z)
    (max_gap : Z) (max_block : option Z) (sort : bool)
  : result (list string * list Z * list Z) :=
  if negb (length starts =? length paths)%nat
     || negb (length ends =? length paths)%nat
  then Raise (ValueError "")
  else if (length starts <=? 1)%nat then Ok (paths, starts, ends)
  else
    let zipped := combine (combine paths starts) ends in
    let zipped := if sort then sorted zipped else zipped in
    match zipped with
    | [] => Ok (paths, starts, ends)
    | first :: rest =>
        let merged := merge_loop max_gap max_block (fst (fst first)) rest [] first in
        Ok (List.map (fun t => fst (fst t)) merged,
            List.map (fun t => snd (fst t)) merged,
            List.map snd merged)
    end.

(** [cat_file(path, start, end)]: the bytes [start, end) of a file, for
    [0 <= start]; a read past the end of the file is short. *)
Definition cat_file (content : list byte) (s e : Z) : list byte :=
  take (Z.to_nat (e - s)) (drop (Z.to_nat s) content).

(** [fs.cat_ranges(paths, starts, ends)] with its default
    [on_error="return"]: one result per range, in request order, the
    bytes of the range or, for a file that is missing, the exception in
    their place. *)
Fixpoint cat_ranges (fs : AbstractFileSystem)
    (ranges : list (string * Z * Z)) : list (result (list byte)) :=
  match ranges with
  | [] => []
  | (p, s, e) :: rest =>
      match fs !! p with
      | None => Raise (FileNotFoundError p)
      | Some content => Ok (cat_file content s e)
      end :: cat_ranges fs rest
  end.

(** [b"".join(parts)], from item [i] on: an item that is not bytes
    raises [TypeError]. *)
Fixpoint join_from (i : nat) (parts : list (result (list byte)))
  : result (list byte) :=
  match parts with
  | [] => Ok []
  | Ok part :: rest =>
      match join_from (S i) rest with
      | Ok joined => Ok (part ++ joined)
      | Raise err => Raise err
      end
  | Raise _ :: _ =>
      Raise (TypeError ("sequence item " +:+ str_int (Z.of_nat i)
                        +:+ ": expected a bytes-like object, FileNotFoundError found"))
  end.

Definition join (parts : list (result (list byte))) : result (list byte) :=
  join_from 0 parts.

(** Ranges of one file, each starting where the one before ends or
    later, the first at [ce] or later. *)
Fixpoint chain (url : string) (ce : Z) (ranges : list (string * Z * Z)) : Prop :=
  match ranges with
  | [] => True
  | (p, s, e) :: rest => p = url /\ ce <= s /\ s < e /\ chain url e rest
  end.

(** The bytes of ranges read one by one. *)
Definition bytes_of (content : list byte) (ranges : list (string * Z * Z))
  : list byte :=
  concat (List.map (fun t => cat_file content (snd (fst t)) (snd t)) ranges).

End Fsspec.

(** ** The indexers, [segy/indexing.py] *)

Module Indexing.
Import Schema Ibm Py Fsspec.

(** *** Descriptors of a trace *)

(** Modelled from the spec: [TraceDataDescriptor] and [TraceDescriptor] of
    [segy/schema/trace.py], which is not part of the sources at hand, with
    the members section 3 of the specification lists. *)
Record TraceDataDescriptor := mkTraceData {
  data_format : ScalarType;
  data_endianness : Endianness;
  samples : Z
}.

Record TraceDescriptor := mkTrace {
  header_descriptor : StructuredDataTypeDescriptor;
  data_descriptor : TraceDataDescriptor;
  trace_offset : Z
}.

(** The numpy scalar that stores a format: an IBM float is kept in an
    opaque four byte word. *)
Definition storage (t : ScalarType) : ScalarType :=
  match t with IBM32 => UINT32 | _ => t end.

(** A numpy sub-array type [(base, (shape,))]. *)
Record data_dtype := mkDataDtype {
  base : ScalarType;
  shape : Z
}.

(** The numpy record types the indexers decode with: a header alone, a
    sample vector alone, or [[("header", h), ("data", d)]]. *)
Inductive dtype :=
  | DHeader (h : StructuredDataTypeDescriptor)
  | DData (d : data_dtype)
  | DTrace (h : StructuredDataTypeDescriptor) (d : data_dtype).

Definition data_itemsize (d : data_dtype) : Z := width (base d) * shape d.

Definition itemsize (dt : dtype) : Z :=
  match dt with
  | DHeader h => item_size h
  | DData d => data_itemsize d
  | DTrace h d => item_size h + data_itemsize d
  end.

(** Modelled from the spec: the [dtype] properties of the descriptors;
    the record of a trace is its header followed by its samples. *)
Definition data_descriptor_dtype (d : TraceDataDescriptor) : data_dtype :=
  {| base := storage (data_format d); shape := samples d |}.

Definition trace_dtype (spec : TraceDescriptor) : dtype :=
  DTrace (header_descriptor spec) (data_descriptor_dtype (data_descriptor spec)).

(** *** Memory, effects and arrays *)

(** What an indexer does that a caller can observe from outside: the byte
    ranges it plans and the ranges it asks the file system for. *)
Inductive event :=
  | EvByteRanges (starts ends : list Z)
  | EvCatRanges (paths : list string) (starts ends : list Z).

(** The buffers ([bytearray]s and array memory) by identity, and the
    events so far. *)
Record state := mkState {
  bufs : gmap nat (list byte);
  log : list event
}.

(** Computations that read and write buffers, log events and may raise. *)
Definition M (A : Type) : Type := state -> result A * state.

#[global] Instance M_ret : MRet M := fun A a st => (Ok a, st).

#[global] Instance M_bind : MBind M := fun A B f m st =>
  match m st with
  | (Ok a, st') => f a st'
  | (Raise e, st') => (Raise e, st')
  end.

Definition raise {A} (e : exn) : M A := fun st => (Raise e, st).

Definition lift {A} (r : result A) : M A := fun st => (r, st).

Definition emit (ev : event) : M unit :=
  fun st => (Ok tt, {| bufs := bufs st; log := log st ++ [ev] |}).

(** A new buffer with the given content; its identity is fresh. *)
Definition alloc (content : list byte) : M nat :=
  fun st =>
    let b := fresh (dom (bufs st)) in
    (Ok b, {| bufs := <[b := content]> (bufs st); log := log st |}).

Definition read_buf (b : nat) : M (list byte) :=
  fun st => (Ok (default [] (bufs st !! b)), st).

Definition write_buf (b : nat) (content : list byte) : M unit :=
  fun st => (Ok tt, {| bufs := <[b := content]> (bufs st); log := log st |}).

(** A numpy array: a typed view of a buffer. [arr_shape] is the shape in
    records, [[n]] for a vector of [n] records and [[]] for a single
    record (a 0-d array). *)
Record ndarray := mkArray {
  arr_buf : nat;
  arr_dtype : dtype;
  arr_shape : list Z
}.

(** A byte list cut into [k] consecutive pieces of [n] bytes. *)
Fixpoint chunks_n (k n : nat) (l : list byte) : list (list byte) :=
  match k with
  | O => []
  | S k' => take n l :: chunks_n k' n (drop n l)
  end.

Definition chunks (n : nat) (l : list byte) : list (list byte) :=
  chunks_n (length l / n) n l.

(** The records of an array, each as the bytes it occupies. *)
Definition records (st : state) (a : ndarray) : list (list byte) :=
  chunks (Z.to_nat (itemsize (arr_dtype a))) (default [] (bufs st !! arr_buf a)).

(** [np.frombuffer(buffer, dtype)]: a view of the buffer itself. *)
Definition frombuffer (buffer : nat) (dt : dtype) : M ndarray :=
  content ← read_buf buffer;
  if itemsize dt <=? 0 then raise (ValueError "itemsize cannot be zero in type")
  else if negb (Z.of_nat (length content) mod itemsize dt =? 0)
  then raise (ValueError "buffer size must be a multiple of element size")
  else mret {| arr_buf := buffer; arr_dtype := dt;
               arr_shape := [Z.of_nat (length content) / itemsize dt] |}.

(** Every record of the array rewritten in place. *)
Definition map_records (f : list byte -> list byte) (a : ndarray) : M unit :=
  content ← read_buf (arr_buf a);
  write_buf (arr_buf a)
    (concat (List.map f (chunks (Z.to_nat (itemsize (arr_dtype a))) content))).

(** The [w] bytes at [off] reversed. *)
Definition swap_at (off w : nat) (bs : list byte) : list byte :=
  take off bs ++ rev (take w (drop off bs)) ++ drop (off + w) bs.

Definition swap_fields (h : StructuredDataTypeDescriptor) (bs : list byte)
  : list byte :=
  List.fold_left
    (fun acc f => swap_at (Z.to_nat (offset f)) (Z.to_nat (width (format f))) acc)
    (fields h) bs.

Definition swap_elements (d : data_dtype) (bs : list byte) : list byte :=
  concat (List.map (@rev byte) (chunks (Z.to_nat (width (base d))) bs)).

(** The byte swap of one record: every scalar field is reversed by its
    own width, bytes between fields are left alone. *)
Definition byteswap_record (dt : dtype) (bs : list byte) : list byte :=
  match dt with
  | DHeader h => swap_fields h bs
  | DData d => swap_elements d bs
  | DTrace h d =>
      let hsz := Z.to_nat (item_size h) in
      swap_fields h (take hsz bs) ++ swap_elements d (drop hsz bs)
  end.

(** [a.byteswap(inplace=True).newbyteorder()]: the bytes are swapped in
    the array's own memory; the byte-order flag of the type is not
    tracked, every field keeps the value it had in the file. *)
Definition byteswap_inplace (a : ndarray) : M ndarray :=
  _ ← map_records (byteswap_record (arr_dtype a)) a;
  mret a.

(** [a.view(dt)] between record types of one size. *)
Definition view (a : ndarray) (dt : dtype) : M ndarray :=
  if itemsize dt =? itemsize (arr_dtype a)
  then mret {| arr_buf := arr_buf a; arr_dtype := dt; arr_shape := arr_shape a |}
  else raise (ValueError "cannot view array with a type of another size").

(** [a.squeeze()]: axes of length one are dropped. *)
Definition squeeze (a : ndarray) : ndarray :=
  {| arr_buf := arr_buf a; arr_dtype := arr_dtype a;
     arr_shape := List.filter (fun n => negb (n =? 1)) (arr_shape a) |}.

(** Unsigned integers in memory, least significant byte first. *)
Definition byte_val (b : byte) : Z := Z.of_N (Byte.to_N b).

Definition byte_of (z : Z) : byte :=
  match Byte.of_N (Z.to_N (z mod 256)) with
  | Some b => b
  | None => x00
  end.

Fixpoint le_decode (bs : list byte) : Z :=
  match bs with
  | [] => 0
  | b :: bs' => byte_val b + 256 * le_decode bs'
  end.

Fixpoint le_encode (n : nat) (z : Z) : list byte :=
  match n with
  | O => []
  | S n' => byte_of z :: le_encode n' (z / 256)
  end.

(** The sample words of a data block, and the block that holds given
    words. *)
Definition words (w : nat) (block : list byte) : list Z :=
  List.map le_decode (chunks w block).

Definition of_words (w : nat) (ws : list Z) : list byte :=
  concat (List.map (le_encode w) ws).

(** *** Module level functions *)

(** [trace["data"]] of one record of type [[("header", h), ("data", d)]],
    as unsigned words, and the record after [trace["data"] = ws]. *)
Definition get_data (h : StructuredDataTypeDescriptor) (d : data_dtype)
    (r : list byte) : list Z :=
  let w := Z.to_nat (width (base d)) in
  words w (take (w * Z.to_nat (shape d)) (drop (Z.to_nat (item_size h)) r)).

Definition set_data (h : StructuredDataTypeDescriptor) (d : data_dtype)
    (r : list byte) (ws : list Z) : list byte :=
  let w := Z.to_nat (width (base d)) in
  let hsz := Z.to_nat (item_size h) in
  take hsz r ++ of_words w ws ++ drop (hsz + w * Z.to_nat (shape d)) r.

(** [trace_ibm2ieee_inplace(trace)]: the samples of every record are
    converted in the array's own memory and the array is returned under
    the record type whose data are [float32]. A [trace] whose type has no
    ["header"] and ["data"] members raises. *)
Definition trace_ibm2ieee_inplace (trace : ndarray) : M ndarray :=
  match arr_dtype trace with
  | DTrace header_dtype data_dtype =>
      let num_samp := shape data_dtype in
      let data_dtype_f32 := {| base := FLOAT32; shape := num_samp |} in
      let trace_dtype_fp32 := DTrace header_dtype data_dtype_f32 in
      _ ← map_records
            (fun r => set_data header_dtype data_dtype r
                        (List.map ibm2ieee (get_data header_dtype data_dtype r)))
            trace;
      view trace trace_dtype_fp32
  | _ => raise (KeyError "header")
  end.

(** [merge_cat_file(fs, url, starts, ends, block_size)]: the ranges are
    merged, fetched, and joined into a new [bytearray]. *)
Definition merge_cat_file (fs : AbstractFileSystem) (url : string)
    (starts ends : list Z) (block_size : Z) : M nat :=
  let paths := repeat url (length starts) in
  '(paths, starts, ends) ←
    lift (merge_offset_ranges paths starts ends 0 (Some block_size) true);
  _ ← emit (EvCatRanges paths starts ends);
  let buffer_bytes := cat_ranges fs (combine (combine paths starts) ends) in
  joined ← lift (join buffer_bytes);
  alloc joined.

Definition default_block_size : Z := 8388608.

(** [bounds_check(indices, max_, type_)]. *)
Definition bounds_check (indices : list Z) (max_ : Z) (type_ : string)
  : result unit :=
  let negative_indices := List.filter (fun index => index <? 0) indices in
  let out_of_range_indices := List.filter (fun index => index >=? max_) indices in
  let outliers := negative_indices ++ out_of_range_indices in
  match outliers with
  | [] => Ok tt
  | _ =>
      let msg :=
        "Requested " +:+ type_ +:+ " indices " +:+ str_list outliers
        +:+ " are out of bounds. SEG-Y "
        +:+ "file has " +:+ str_int max_ +:+ " traces. Valid indices are "
        +:+ "[0, " +:+ str_int (max_ - 1) +:+ ")." in
      Raise (IndexError msg)
  end.

(** *** The indexer classes *)

Inductive IndexerClass := TraceIndexer | HeaderIndexer | DataIndexer.

(** An indexer object: its class and the attributes [__init__] sets. *)
Record AbstractIndexer := mkIndexer {
  cls : IndexerClass;
  fs : AbstractFileSystem;
  url : string;
  spec : TraceDescriptor;
  max_value : Z;
  kind : string;
  postprocess_kwargs : option (gmap string bool)
}.

Definition TraceIndexer_indices_to_byte_ranges (self : AbstractIndexer)
    (indices : list Z) : list Z * list Z :=
  let start_offset := trace_offset (spec self) in
  let trace_itemsize := itemsize (trace_dtype (spec self)) in
  let starts := List.map (fun i => start_offset + i * trace_itemsize) indices in
  let ends := List.map (fun start => start + trace_itemsize) starts in
  (starts, ends).

Definition HeaderIndexer_indices_to_byte_ranges (self : AbstractIndexer)
    (indices : list Z) : list Z * list Z :=
  let trace_itemsize := itemsize (trace_dtype (spec self)) in
  let header_itemsize := itemsize (DHeader (header_descriptor (spec self))) in
  let start_offset := trace_offset (spec self) in
  let starts := List.map (fun i => start_offset + i * trace_itemsize) indices in
  let ends := List.map (fun start => start + header_itemsize) starts in
  (starts, ends).

Definition DataIndexer_indices_to_byte_ranges (self : AbstractIndexer)
    (indices : list Z) : list Z * list Z :=
  let trace_itemsize := itemsize (trace_dtype (spec self)) in
  let data_itemsize :=
    itemsize (DData (data_descriptor_dtype (data_descriptor (spec self)))) in
  let header_itemsize := itemsize (DHeader (header_descriptor (spec self))) in
  let start_offset := trace_offset (spec self) + header_itemsize in
  let starts := List.map (fun i => start_offset + i * trace_itemsize) indices in
  let ends := List.map (fun start => start + data_itemsize) starts in
  (starts, ends).

Definition indices_to_byte_ranges (self : AbstractIndexer) (indices : list Z)
  : list Z * list Z :=
  match cls self with
  | TraceIndexer => TraceIndexer_indices_to_byte_ranges self indices
  | HeaderIndexer => HeaderIndexer_indices_to_byte_ranges self indices
  | DataIndexer => DataIndexer_indices_to_byte_ranges self indices
  end.

Definition TraceIndexer_decode (self : AbstractIndexer) (buffer : nat)
  : M ndarray :=
  data ← frombuffer buffer (trace_dtype (spec self));
  data ← byteswap_inplace data;
  if decide (data_format (data_descriptor (spec self)) = IBM32)
  then trace_ibm2ieee_inplace data
  else mret data.

Definition HeaderIndexer_decode (self : AbstractIndexer) (buffer : nat)
  : M ndarray :=
  data ← frombuffer buffer (DHeader (header_descriptor (spec self)));
  byteswap_inplace data.

(** [ibm2ieee(data).view("float32")]: the converted samples are a new
    array. *)
Definition ibm2ieee_array (data : ndarray) : M ndarray :=
  match arr_dtype data with
  | DData d =>
      content ← read_buf (arr_buf data);
      let w := Z.to_nat (width (base d)) in
      b ← alloc (of_words 4 (List.map ibm2ieee (words w content)));
      mret {| arr_buf := b;
              arr_dtype := DData {| base := FLOAT32; shape := shape d |};
              arr_shape := arr_shape data |}
  | _ => raise (TypeError "ibm2ieee")
  end.

Definition DataIndexer_decode (self : AbstractIndexer) (buffer : nat)
  : M ndarray :=
  data ← frombuffer buffer
           (DData (data_descriptor_dtype (data_descriptor (spec self))));
  data ← byteswap_inplace data;
  if decide (data_format (data_descriptor (spec self)) = IBM32)
  then ibm2ieee_array data
  else mret data.

Definition decode (self : AbstractIndexer) (buffer : nat) : M ndarray :=
  match cls self with
  | TraceIndexer => TraceIndexer_decode self buffer
  | HeaderIndexer => HeaderIndexer_decode self buffer
  | DataIndexer => DataIndexer_decode self buffer
  end.

(** [fetch(indices)]. *)
Definition fetch (self : AbstractIndexer) (indices : list Z) : M ndarray :=
  let '(starts, ends) := indices_to_byte_ranges self indices in
  _ ← emit (EvByteRanges starts ends);
  buffer ← merge_cat_file (fs self) (url self) starts ends default_block_size;
  data ← decode self buffer;
  mret (squeeze data).

(** What [__getitem__] hands back: the array itself, a [DataFrame] of it,
    or the dictionary of a header [DataFrame] and the data of it. *)
Inductive output :=
  | OutArray (data : ndarray)
  | OutDataFrame (data : ndarray)
  | OutHeaderFrameAndData (data : ndarray).

Definition using_pandas (self : AbstractIndexer) : M bool :=
  match postprocess_kwargs self with
  | None => raise (AttributeError "'NoneType' object has no attribute 'get'")
  | Some kwargs => mret (default false (kwargs !! "pandas_headers"))
  end.

Definition post_process (self : AbstractIndexer) (data : ndarray) : M output :=
  match cls self with
  | TraceIndexer =>
      p ← using_pandas self;
      if p : bool then mret (OutHeaderFrameAndData data) else mret (OutArray data)
  | HeaderIndexer =>
      p ← using_pandas self;
      if p : bool then mret (OutDataFrame data) else mret (OutArray data)
  | DataIndexer => mret (OutArray data)
  end.

(** The argument of [indexer[item]]: an [int], a [list] of them, a
    [slice], or a value of any other type, given by [str(type(item))]. *)
Inductive index :=
  | IInt (i : Z)
  | IList (l : list Z)
  | ISlice (s : slice)
  | IOther (type_repr : string).

(** [__getitem__(item)]. *)
Definition __getitem__ (self : AbstractIndexer) (item : index) : M output :=
  indices ←
    match item with
    | IInt i =>
        let indices := [i] in
        _ ← lift (bounds_check indices (max_value self) (kind self));
        mret indices
    | IList l =>
        let indices := l in
        _ ← lift (bounds_check indices (max_value self) (kind self));
        mret indices
    | ISlice item =>
        if decide (step item = Some 0)
        then raise (ValueError "Step of 0 is invalid for slicing.")
        else
          let start := or_default (start item) 0 in
          let stop := or_default (stop item) (max_value self) in
          _ ← lift (bounds_check [start; stop - 1] (max_value self) (kind self));
          '(a, b, c) ← lift (slice_indices item (max_value self));
          mret (range a b c)
    | IOther type_repr =>
        raise (TypeError ("Invalid index type " +:+ type_repr))
    end;
  data ← fetch self indices;
  post_process self data.

(** *** One trace by itself *)

(** The byte distance between consecutive traces of the file. *)
Definition stride (self : AbstractIndexer) : Z :=
  itemsize (trace_dtype (spec self)).

(** The record type an indexer decodes its buffer with. *)
Definition record_dtype (self : AbstractIndexer) : dtype :=
  match cls self with
  | TraceIndexer => trace_dtype (spec self)
  | HeaderIndexer => DHeader (header_descriptor (spec self))
  | DataIndexer => DData (data_descriptor_dtype (data_descriptor (spec self)))
  end.

(** Where in a trace the region of an indexer begins. *)
Definition region_start (self : AbstractIndexer) : Z :=
  match cls self with
  | TraceIndexer | HeaderIndexer => 0
  | DataIndexer => itemsize (DHeader (header_descriptor (spec self)))
  end.

(** The bytes of the file that make up the region of trace [i]. *)
Definition trace_bytes (self : AbstractIndexer) (content : list byte) (i : Z)
  : list byte :=
  let first := trace_offset (spec self) + region_start self + i * stride self in
  cat_file content first (first + itemsize (record_dtype self)).

(** The range of the region of trace [i], as [fetch] asks for it. *)
Definition range_of (self : AbstractIndexer) (i : Z) : string * Z * Z :=
  let first := trace_offset (spec self) + region_start self + i * stride self in
  (url self, first, first + itemsize (record_dtype self)).

(** The decoded record of one trace, from the bytes of its region: the
    bytes are swapped and, for IBM data, the samples converted. *)
Definition decode_record (self : AbstractIndexer) (raw : list byte)
  : list byte :=
  let swapped := byteswap_record (record_dtype self) raw in
  if decide (data_format (data_descriptor (spec self)) = IBM32)
  then
    match record_dtype self with
    | DTrace h d => set_data h d swapped (List.map ibm2ieee (get_data h d swapped))
    | DData d =>
        of_words 4 (List.map ibm2ieee (words (Z.to_nat (width (base d))) swapped))
    | DHeader _ => swapped
    end
  else swapped.

(** The trace indices a caller may use. *)
Definition in_bounds (self : AbstractIndexer) (i : Z) : Prop :=
  0 <= i < max_value self.

(** Indices in strictly increasing order. *)
Fixpoint increasing (indices : list Z) : Prop :=
  match indices with
  | [] => True
  | i :: rest =>
      match rest with
      | [] => True
      | j :: _ => i < j /\ increasing rest
      end
  end.

(** A file that holds [max_value] whole traces after the offset of the
    first, read with a descriptor of positive record sizes. *)
Definition holds_traces (self : AbstractIndexer) (content : list byte) : Prop :=
  fs self !! url self = Some content
  /\ 0 <= trace_offset (spec self)
  /\ 0 < item_size (header_descriptor (spec self))
  /\ 0 < samples (data_descriptor (spec self))
  /\ trace_offset (spec self) + max_value self * stride self
     <= Z.of_nat (length content).

(** The part of [__getitem__] that follows the choice of the indices. *)
Definition fetch_then_post_process (self : AbstractIndexer) (indices : list Z)
  : M output :=
  data ← fetch self indices;
  post_process self data.

(** Running a computation: the binds of [M] and its primitives are
    unfolded and the steps on known results taken. *)
Ltac run_M :=
  repeat (progress (unfold mbind, M_bind, mret, M_ret,
                      raise, lift, emit,
                      alloc, read_buf, write_buf;
                    cbn beta iota zeta)).

End Indexing.

(** ** The registry of standards, [segy/standards/registry.py] *)

Module Registry.
Import Schema Py.

(** [SegyStandard] of [segy/schema/segy.py]. *)
Inductive SegyStandard := REV0 | REV1 | REV2 | REV21 | CUSTOM.

#[global] Instance SegyStandard_eq_dec : EqDecision SegyStandard.
Proof. solve_decision. Defined.

#[global] Instance SegyStandard_countable : Countable SegyStandard.
Proof.
  refine (inj_countable'
    (fun s => match s with
              | REV0 => 0%nat | REV1 => 1%nat | REV2 => 2%nat
              | REV21 => 3%nat | CUSTOM => 4%nat end)
    (fun n => match n with
              | 0%nat => REV0 | 1%nat => REV1 | 2%nat => REV2
              | 3%nat => REV21 | _ => CUSTOM end) _).
  intros []; reflexivity.
Defined.

(** [str(spec_type)] of an enumeration member. *)
Definition str_standard (s : SegyStandard) : string :=
  match s with
  | REV0 => "SegyStandard.REV0"
  | REV1 => "SegyStandard.REV1"
  | REV2 => "SegyStandard.REV2"
  | REV21 => "SegyStandard.REV21"
  | CUSTOM => "SegyStandard.CUSTOM"
  end.

(** *** Python objects *)

(** Immutable values, which a deep copy hands back as they are: [None],
    integers, strings and enumeration members. *)
Inductive atom :=
  | ANone
  | AInt (z : Z)
  | AStr (s : string)
  | AEnum (member : string).

(** A value is an atom or a reference to an object, by identity. *)
Inductive val :=
  | VAtom (a : atom)
  | VRef (l : nat).

(** A mutable object (a model instance or a list): its class and its
    members, each a named value; the members of a list are named by
    position. *)
Record obj := mkObj {
  obj_cls : string;
  obj_attrs : list (string * val)
}.

#[local] Set Warnings "-register-all".

(** The value of an object graph with identities forgotten; model
    instances compare by it under [==]. *)
Inductive tree :=
  | TAtom (a : atom)
  | TObj (cls : string) (attrs : list (string * tree)).

(** The interpreter state: the objects by identity and the module level
    dictionary [registry]. *)
Record state := mkState {
  heap : gmap nat obj;
  registry : gmap SegyStandard nat
}.

(** How deep the traversals below may nest before [RecursionError]. *)
Definition depth_limit : nat := 1000.

(** The value found under [v], following references at most [n] deep;
    [None] past that depth or at a reference to no object. *)
Fixpoint read (n : nat) (h : gmap nat obj) (v : val) : option tree :=
  match v with
  | VAtom a => Some (TAtom a)
  | VRef l =>
      match n with
      | O => None
      | S n' =>
          match h !! l with
          | None => None
          | Some o =>
              match mapM (fun kv => option_map (pair (fst kv)) (read n' h (snd kv)))
                         (obj_attrs o) with
              | None => None
              | Some attrs => Some (TObj (obj_cls o) attrs)
              end
          end
      end
  end.

(** The members of an object copied one after the other by [f], each in
    the heap the previous copy left. *)
Fixpoint copy_attrs (f : gmap nat obj -> val -> option (gmap nat obj * val))
    (h : gmap nat obj) (attrs : list (string * val))
  : option (gmap nat obj * list (string * val)) :=
  match attrs with
  | [] => Some (h, [])
  | (k, v) :: rest =>
      match f h v with
      | None => None
      | Some (h1, v') =>
          match copy_attrs f h1 rest with
          | None => None
          | Some (h2, rest') => Some (h2, (k, v') :: rest')
          end
      end
  end.

(** [copy.deepcopy], which [model_copy(deep=True)] applies: atoms are
    returned as they are, and an object is rebuilt, member by member, as
    a new object with a fresh identity.  Descriptors own their members
    exclusively, so no object is met twice. *)
Fixpoint deepcopy (n : nat) (h : gmap nat obj) (v : val)
  : option (gmap nat obj * val) :=
  match v with
  | VAtom a => Some (h, v)
  | VRef l =>
      match n with
      | O => None
      | S n' =>
          match h !! l with
          | None => None
          | Some o =>
              match copy_attrs (deepcopy n') h (obj_attrs o) with
              | None => None
              | Some (h1, attrs') =>
                  let l' := fresh (dom h1) in
                  Some (<[l' := mkObj (obj_cls o) attrs']> h1, VRef l')
              end
          end
      end
  end.

(** [register_spec(spec_type, spec)]: the dictionary keeps the object
    itself. *)
Definition register_spec (spec_type : SegyStandard) (spec : nat) (st : state)
  : state :=
  {| heap := heap st; registry := <[spec_type := spec]> (registry st) |}.

(** [get_spec(spec_type)]. *)
Definition get_spec (spec_type : SegyStandard) (st : state)
  : result nat * state :=
  match registry st !! spec_type with
  | None =>
      let msg :=
        "Unknown or unsupported SEG-Y spec: " +:+ str_standard spec_type
        +:+ ". If you "
        +:+ "would like to use " +:+ str_standard spec_type
        +:+ ", please register it with "
        +:+ "the `SegySpecFactory` using its `register_spec` method." in
      (Raise (NotImplementedError msg), st)
  | Some spec =>
      match deepcopy depth_limit (heap st) (VRef spec) with
      | Some (h', VRef l') => (Ok l', {| heap := h'; registry := registry st |})
      | _ => (Raise RecursionError, st)
      end
  end.

(** A variant of [get_spec] that hands out the stored object itself, to
    compare with. *)
Definition get_spec_shared (spec_type : SegyStandard) (st : state)
  : result nat * state :=
  match registry st !! spec_type with
  | None => (Raise (NotImplementedError ""), st)
  | Some spec => (Ok spec, st)
  end.

(** *** What a caller can do with a descriptor *)

(** [l] is the identity of an object met when following references from
    [v]. *)
Inductive reach (h : gmap nat obj) : val -> nat -> Prop :=
  | reach_here l : reach h (VRef l) l
  | reach_member l o k v l' :
      h !! l = Some o -> In (k, v) (obj_attrs o) -> reach h v l' ->
      reach h (VRef l) l'.

(** The references among the members of an object. *)
Definition refs (o : obj) : list nat :=
  omap (fun kv => match snd kv with VRef l => Some l | VAtom _ => None end)
       (obj_attrs o).

(** [obj.name = v] on the object [l]; no such member, no change. *)
Definition setattr (l : nat) (name : string) (v : val) (h : gmap nat obj)
  : gmap nat obj :=
  match h !! l with
  | None => h
  | Some o =>
      <[l := mkObj (obj_cls o)
               (List.map (fun kv => if String.eqb (fst kv) name
                                    then (fst kv, v) else kv)
                         (obj_attrs o))]> h
  end.

(** One mutation of a descriptor [root] by a caller that was handed it
    when the objects [old] existed: an attribute of an object of the
    descriptor is assigned, or an object of the descriptor gets new
    members altogether (as by an insertion into or a removal from a
    list); what is stored is an atom or an object that is not among
    [old]. *)
Inductive mutation (old : gset nat) (root : nat)
  : gmap nat obj -> gmap nat obj -> Prop :=
  | mutation_setattr h l name v :
      reach h (VRef root) l ->
      (forall l2, v = VRef l2 -> l2 ∉ old) ->
      mutation old root h (setattr l name v h)
  | mutation_store h l o' :
      reach h (VRef root) l ->
      Forall (fun l2 => l2 ∉ old) (refs o') ->
      mutation old root h (<[l := o']> h).

(** Any number of mutations, one after the other. *)
Inductive mutations (old : gset nat) (root : nat)
  : gmap nat obj -> gmap nat obj -> Prop :=
  | mutations_nil h : mutations old root h h
  | mutations_cons h1 h2 h3 :
      mutation old root h1 h2 -> mutations old root h2 h3 ->
      mutations old root h1 h3.

(** The value read for one member. *)
Definition read_attr (n : nat) (h : gmap nat obj) (kv : string * val)
  : option (string * tree) :=
  option_map (pair (fst kv)) (read n h (snd kv)).

(** What a copy leaves behind, seen from the heap [h] it started in: the
    objects of [h] are kept, and every object that is new refers to new
    objects only. *)
Definition extends (h h' : gmap nat obj) : Prop :=
  h ⊆ h'
  /\ forall x o, h' !! x = Some o -> x ∉ dom h ->
       Forall (fun l => l ∉ dom h) (refs o).

(** A value that is not an object of [h]. *)
Definition new_in (h : gmap nat obj) (v : val) : Prop :=
  match v with
  | VAtom _ => True
  | VRef l => l ∉ dom h
  end.

(** *** The descriptors of [rev0.py] as objects *)

(** An object graph with the given value, built in new objects. *)
Fixpoint build (t : tree) (h : gmap nat obj) : gmap nat obj * val :=
  match t with
  | TAtom a => (h, VAtom a)
  | TObj c attrs =>
      let '(h1, attrs') :=
        (fix build_attrs (attrs : list (string * tree)) (h : gmap nat obj)
           : gmap nat obj * list (string * val) :=
           match attrs with
           | [] => (h, [])
           | (k, t') :: rest =>
               let '(h1, v) := build t' h in
               let '(h2, rest') := build_attrs rest h1 in
               (h2, (k, v) :: rest')
           end) attrs h in
      let l := fresh (dom h1) in
      (<[l := mkObj c attrs']> h1, VRef l)
  end.

Definition str_ScalarType (t : ScalarType) : string :=
  match t with
  | INT8 => "ScalarType.INT8" | UINT8 => "ScalarType.UINT8"
  | INT16 => "ScalarType.INT16" | UINT16 => "ScalarType.UINT16"
  | INT32 => "ScalarType.INT32" | UINT32 => "ScalarType.UINT32"
  | INT64 => "ScalarType.INT64" | UINT64 => "ScalarType.UINT64"
  | FLOAT32 => "ScalarType.FLOAT32" | FLOAT64 => "ScalarType.FLOAT64"
  | IBM32 => "ScalarType.IBM32"
  end.

Definition str_Endianness (e : Endianness) : string :=
  match e with
  | BIG => "Endianness.BIG"
  | LITTLE => "Endianness.LITTLE"
  | NATIVE => "Endianness.NATIVE"
  end.

Definition tree_of_list (ts : list tree) : tree :=
  TObj "list" (imap (fun i t => (str_int (Z.of_nat i), t)) ts).

Definition tree_of_field (f : StructuredFieldDescriptor) : tree :=
  TObj "StructuredFieldDescriptor"
    [("name", TAtom (AStr (name f)));
     ("offset", TAtom (AInt (offset f)));
     ("format", TAtom (AEnum (str_ScalarType (format f))));
     ("endianness", TAtom (AEnum (str_Endianness (endianness f))));
     ("description", TAtom (AStr (description f)))].

Definition tree_of_struct (d : StructuredDataTypeDescriptor) : tree :=
  TObj "StructuredDataTypeDescriptor"
    [("fields", tree_of_list (List.map tree_of_field (fields d)));
     ("item_size", TAtom (AInt (item_size d)));
     ("offset", TAtom (match struct_offset d with
                       | Some z => AInt z
                       | None => ANone
                       end))].

Definition rev0_textual_file_header : tree :=
  TObj "TextHeaderDescriptor"
    [("rows", TAtom (AInt 40));
     ("cols", TAtom (AInt 80));
     ("offset", TAtom (AInt 0));
     ("encoding", TAtom (AEnum "TextHeaderEncoding.EBCDIC"));
     ("format", TAtom (AEnum "ScalarType.UINT8"))].

Definition rev0_trace_data : tree :=
  TObj "TraceDataDescriptor"
    [("format", TAtom (AEnum "ScalarType.IBM32"));
     ("endianness", TAtom (AEnum "Endianness.BIG"))].

Definition rev0_trace : tree :=
  TObj "TraceDescriptor"
    [("header_descriptor", tree_of_struct Rev0.rev0_trace_header);
     ("data_descriptor", rev0_trace_data)].

Definition rev0_segy : tree :=
  TObj "SegyDescriptor"
    [("segy_standard", TAtom (AEnum "SegyStandard.REV0"));
     ("text_file_header", rev0_textual_file_header);
     ("binary_file_header", tree_of_struct Rev0.rev0_binary_file_header);
     ("trace", rev0_trace)].

(** Modelled from the spec: the registry as it is once the package is
    imported, with the Rev0 descriptor registered; the module that
    registers it is not part of the sources at hand. *)
Definition rev0_registered : state :=
  let '(h, v) := build rev0_segy ∅ in
  match v with
  | VRef l => register_spec REV0 l {| heap := h; registry := ∅ |}
  | VAtom _ => {| heap := h; registry := ∅ |}
  end.

End Registry.

(** ** A small file to run the indexers on *)

Module Examples.
Import Schema Py Fsspec Indexing.

(** A header of one big-endian int16 and one IBM sample per trace: records
    of six bytes, after one byte that belongs to no trace. *)
Definition small_header : StructuredDataTypeDescriptor :=
  mkStruct [mkField "a" 0 INT16 BIG ""] 2 None.

Definition small_spec : TraceDescriptor :=
  mkTrace small_header (mkTraceData IBM32 BIG 1) 1.

(** Three traces: headers 1, 2, 3 and samples 1.0, 8.0, -8.0. *)
Definition small_file : list byte :=
  [xff;
   x00; x01; x41; x10; x00; x00;
   x00; x02; x42; x08; x00; x00;
   x00; x03; xc2; x08; x00; x00].

Definition small_indexer (c : IndexerClass) : AbstractIndexer :=
  mkIndexer c {["file.segy" := small_file]} "file.segy" small_spec 3 "trace"
    (Some ∅).

Definition empty_state : state := mkState ∅ [].

(** Two records of the small file as they are in memory once their
    bytes are swapped, and an array over them. *)
Definition small_buffer : list byte :=
  [x01; x00; x00; x00; x10; x41;
   x02; x00; x00; x00; x08; x42].

Definition small_state : state := mkState {[0%nat := small_buffer]} [].

Definition small_array : ndarray :=
  mkArray 0 (trace_dtype small_spec) [2].

End Examples.

(** ** What a list of indices selects *)

Module Selection.
Import Schema Py Fsspec Indexing.

(** An index put in its place in an ascending list. *)
Fixpoint insert_index (i : Z) (l : list Z) : list Z :=
  match l with
  | [] => [i]
  | j :: l' => if i <=? j then i :: j :: l' else j :: insert_index i l'
  end.

(** The indices in ascending order. *)
Definition ascending (l : list Z) : list Z :=
  List.fold_right insert_index [] l.

(** An ascending list without the indices that repeat the one before
    them, [prev] being before the first. *)
Fixpoint distinct_from (prev : Z) (l : list Z) : list Z :=
  match l with
  | [] => []
  | i :: l' => if i =? prev then distinct_from prev l' else i :: distinct_from i l'
  end.

Definition distinct (l : list Z) : list Z :=
  match l with
  | [] => []
  | i :: l' => i :: distinct_from i l'
  end.

(** The traces a list of indices selects: each index once, in the order
    of the file. *)
Definition selected (indices : list Z) : list Z :=
  distinct (ascending indices).

(** Indices in ascending order, repeats allowed, none below [prev]. *)
Fixpoint ascending_from (prev : Z) (l : list Z) : Prop :=
  match l with
  | [] => True
  | i :: l' => prev <= i /\ ascending_from i l'
  end.

(** The first byte of the region of trace [i] and the byte after its
    last. *)
Definition first_byte (self : AbstractIndexer) (i : Z) : Z :=
  trace_offset (spec self) + region_start self + i * stride self.

Definition end_byte (self : AbstractIndexer) (i : Z) : Z :=
  first_byte self i + itemsize (record_dtype self).

(** The decoded record of trace [i] of a file. *)
Definition record_of (self : AbstractIndexer) (content : list byte) (i : Z)
  : list byte :=
  decode_record self (trace_bytes self content i).

(** The shape of an array of [n] records once squeezed. *)
Definition squeezed_shape (n : nat) : list Z :=
  if (n =? 1)%nat then [] else [Z.of_nat n].

End Selection.

(** ** Records, their fields and samples, and the requests made *)

Module Records.
Import Schema Py Fsspec Indexing Examples Selection.

(** The indexer of another class over the same file, built with the
    same arguments. *)
Definition with_cls (c : IndexerClass) (self : AbstractIndexer)
  : AbstractIndexer :=
  mkIndexer c (fs self) (url self) (spec self) (max_value self) (kind self)
    (postprocess_kwargs self).

(** The bytes of a field within a record. *)
Definition field_bytes (f : StructuredFieldDescriptor) (r : list byte)
  : list byte :=
  take (Z.to_nat (width (format f))) (drop (Z.to_nat (offset f)) r).

(** Two fields that share no byte. *)
Definition apart (f g : StructuredFieldDescriptor) : bool :=
  (offset f + width (format f) <=? offset g)
  || (offset g + width (format g) <=? offset f).

Fixpoint pairwise_apart (fs : list StructuredFieldDescriptor) : bool :=
  match fs with
  | [] => true
  | f :: fs' => forallb (apart f) fs' && pairwise_apart fs'
  end.

(** A field that lies within the record of a header. *)
Definition within (h : StructuredDataTypeDescriptor)
    (f : StructuredFieldDescriptor) : bool :=
  (0 <=? offset f) && (offset f + width (format f) <=? item_size h).

(** A header whose fields lie within its record and share no byte. *)
Definition well_formed (h : StructuredDataTypeDescriptor) : bool :=
  forallb (within h) (fields h) && pairwise_apart (fields h).

(** Where in the file the record of trace [i] of a file begins. *)
Definition trace_start (self : AbstractIndexer) (i : Z) : Z :=
  trace_offset (spec self) + i * stride self.

(** Where in a record of the indexer the samples begin. *)
Definition data_start (self : AbstractIndexer) : Z :=
  match cls self with
  | TraceIndexer => item_size (header_descriptor (spec self))
  | HeaderIndexer | DataIndexer => 0
  end.

(** The width of a sample as it is stored. *)
Definition sample_width (self : AbstractIndexer) : Z :=
  width (storage (data_format (data_descriptor (spec self)))).

(** The bytes of sample [k] within a record of the indexer. *)
Definition sample_bytes (self : AbstractIndexer) (k : Z) (r : list byte)
  : list byte :=
  take (Z.to_nat (sample_width self))
       (drop (Z.to_nat (data_start self + k * sample_width self)) r).

(** The bytes of the file that hold field [f] of the header of trace
    [i], and those that hold its sample [k]. *)
Definition file_field (self : AbstractIndexer) (content : list byte) (i : Z)
    (f : StructuredFieldDescriptor) : list byte :=
  cat_file content (trace_start self i + offset f)
    (trace_start self i + offset f + width (format f)).

Definition file_sample (self : AbstractIndexer) (content : list byte) (i k : Z)
  : list byte :=
  let first := trace_start self i + item_size (header_descriptor (spec self))
               + k * sample_width self in
  cat_file content first (first + sample_width self).

(** A file of one trace in the Rev0 layout: the textual and binary file
    headers zeroed, the trace header zeroed but for [src_x], which is
    258, and one sample, 1.0. *)
Definition rev0_file : list byte :=
  repeat x00 3672 ++ [x00; x00; x01; x02] ++ repeat x00 164
  ++ [x41; x10; x00; x00].

Definition rev0_spec : TraceDescriptor :=
  mkTrace Rev0.rev0_trace_header (mkTraceData IBM32 BIG 1) 3600.

Definition rev0_indexer (c : IndexerClass) : AbstractIndexer :=
  mkIndexer c {["file.segy" := rev0_file]} "file.segy" rev0_spec 1 "trace"
    (Some ∅).

(** The blocks [merge_offset_ranges] makes of the ranges of a list of
    indices, with the block size [merge_cat_file] has by default. *)
Definition requests (self : AbstractIndexer) (indices : list Z)
  : list (string * Z * Z) :=
  match ascending indices with
  | [] => []
  | j :: J =>
      merge_loop 0 (Some default_block_size) (url self)
        (List.map (range_of self) J) [] (range_of self j)
  end.

(** The event of asking the file system for given blocks. *)
Definition EvRequests (blocks : list (string * Z * Z)) : event :=
  EvCatRanges (List.map (fun t => fst (fst t)) blocks)
              (List.map (fun t => snd (fst t)) blocks)
              (List.map snd blocks).

End Records.

(** ** [SegyDescriptor.customize], [segy/schema/segy.py] *)

Module Customize.
Import Schema Py Registry.

(** Computations on the objects that may raise. *)
Definition HeapM (A : Type) : Type := gmap nat obj -> result A * gmap nat obj.

#[global] Instance HeapM_ret : MRet HeapM := fun A a h => (Ok a, h).

#[global] Instance HeapM_bind : MBind HeapM := fun A B f m h =>
  match m h with
  | (Ok a, h') => f a h'
  | (Raise e, h') => (Raise e, h')
  end.

(** The member of a given name among the members of an object. *)
Fixpoint member {A} (name : string) (attrs : list (string * A)) : option A :=
  match attrs with
  | [] => None
  | (k, v) :: rest => if String.eqb k name then Some v else member name rest
  end.

(** [target.name]. *)
Definition getattr (target : val) (name : string) : HeapM val := fun h =>
  match target with
  | VAtom _ =>
      (Raise (AttributeError ("object has no attribute '" +:+ name +:+ "'")), h)
  | VRef l =>
      match h !! l with
      | None => (Raise (AttributeError name), h)
      | Some o =>
          match member name (obj_attrs o) with
          | Some v => (Ok v, h)
          | None =>
              (Raise (AttributeError ("object has no attribute '" +:+ name +:+ "'")), h)
          end
      end
  end.

(** [target.name = v]: a model takes a value for a field it has, and
    nothing has a field to assign on [None]. *)
Definition assign (target : val) (name : string) (v : val) : HeapM unit := fun h =>
  match target with
  | VAtom _ =>
      (Raise (AttributeError ("object has no attribute '" +:+ name +:+ "'")), h)
  | VRef l =>
      match h !! l with
      | None => (Raise (AttributeError name), h)
      | Some o =>
          match member name (obj_attrs o) with
          | Some _ => (Ok tt, setattr l name v h)
          | None => (Raise (ValueError ("object has no field " +:+ name)), h)
          end
      end
  end.

(** The truth value of [v] in [if v:]: [None], zero, the empty string
    and the empty list are false, every other value is true. *)
Definition truthy (v : val) : HeapM bool := fun h =>
  (Ok match v with
      | VAtom ANone => false
      | VAtom (AInt z) => negb (z =? 0)
      | VAtom (AStr s) => negb (String.eqb s "")
      | VAtom (AEnum _) => true
      | VRef l =>
          match h !! l with
          | Some o =>
              if String.eqb (obj_cls o) "list"
              then match obj_attrs o with [] => false | _ => true end
              else true
          | None => true
          end
      end, h).

(** [self.model_copy(deep=True)]. *)
Definition model_copy_deep (self : nat) : HeapM val := fun h =>
  match deepcopy depth_limit h (VRef self) with
  | Some (h', v) => (Ok v, h')
  | None => (Raise RecursionError, h)
  end.

(** [customize(self, text_header_spec, binary_header_fields,
    extended_text_spec, trace_header_fields, trace_data_spec)]; an
    argument left out is [None]. *)
Definition customize (self : nat)
    (text_header_spec binary_header_fields extended_text_spec
     trace_header_fields trace_data_spec : val) : HeapM val :=
  new_descr ← model_copy_deep self;
  _ ← assign new_descr "segy_standard" (VAtom (AEnum "SegyStandard.CUSTOM"));
  c ← truthy text_header_spec;
  _ ← (if c : bool
       then assign new_descr "text_file_header" text_header_spec
       else mret tt);
  c ← truthy binary_header_fields;
  _ ← (if c : bool
       then binary_file_header ← getattr new_descr "binary_file_header";
            assign binary_file_header "fields" binary_header_fields
       else mret tt);
  c ← truthy extended_text_spec;
  _ ← (if c : bool
       then assign new_descr "extended_text_header" extended_text_spec
       else mret tt);
  c ← truthy trace_header_fields;
  _ ← (if c : bool
       then trace ← getattr new_descr "trace";
            header_descriptor ← getattr trace "header_descriptor";
            assign header_descriptor "fields" trace_header_fields
       else mret tt);
  c ← truthy trace_data_spec;
  _ ← (if c : bool
       then trace ← getattr new_descr "trace";
            assign trace "data_descriptor" trace_data_spec
       else mret tt);
  mret new_descr.

(** A value with no truth in it, as far as [customize] looks. *)
Definition falsy (h : gmap nat obj) (v : val) : Prop :=
  fst (truthy v h) = Ok false.

(** The members of a value with the member of a given name replaced. *)
Definition with_member (name : string) (t : tree) (attrs : list (string * tree))
  : list (string * tree) :=
  List.map (fun kt => if String.eqb (fst kt) name then (fst kt, t) else kt) attrs.

(** The members [customize] goes through to reach what it assigns to. *)
Definition navigated (name : string) : bool :=
  String.eqb name "binary_file_header" || String.eqb name "trace"
  || String.eqb name "header_descriptor".

(** The objects of [h] are all there as they were, and the objects that
    have come since hold, under the names [customize] goes through,
    nothing that was in [h]. *)
Definition kept (h hc : gmap nat obj) : Prop :=
  h ⊆ hc
  /\ forall x o name v,
       hc !! x = Some o -> x ∉ dom h -> navigated name = true ->
       member name (obj_attrs o) = Some v -> new_in h v.

(** A computation that keeps the objects of [h] whatever it returns or
    raises, and returns only values that meet [Q]. *)
Definition preserves {A} (h : gmap nat obj) (m : HeapM A) (Q : A -> Prop) : Prop :=
  forall hc, kept h hc ->
    kept h (snd (m hc)) /\ forall a, fst (m hc) = Ok a -> Q a.

End Customize.

(** * Properties of the Rev0 descriptors *)

Section Rev0Facts.
Import Schema Rev0.

(** C7: in the Rev0 standard the binary file header descriptor has
    [item_size] 400 and its one field named [sample_interval] is at
    offset 16, of type int16, big-endian; the trace header descriptor has
    [item_size] 240 and its one field named [src_x] is at offset 72, of
    type int32, big-endian. *)
Theorem rev0_header_descriptors :
  item_size rev0_binary_file_header = 400
  /\ List.map (fun f => (offset f, format f, endianness f))
       (fields_named "sample_interval" rev0_binary_file_header)
     = [(16, INT16, BIG)]
  /\ item_size rev0_trace_header = 240
  /\ List.map (fun f => (offset f, format f, endianness f))
       (fields_named "src_x" rev0_trace_header)
     = [(72, INT32, BIG)].
Proof. repeat split; reflexivity. Qed.

(** C8, as stated, fails: the Rev0 tables do not hold 28 binary file
    header fields together with 71 trace header fields. *)
Lemma rev0_field_counts_not_28_and_71 :
  ~ (length BINARY_FILE_HEADER_FIELDS_REV0 = 28%nat
     /\ length TRACE_HEADER_FIELDS_REV0 = 71%nat).
Proof. intros [H _]. vm_compute in H. discriminate H. Qed.

(** C8, amended: the Rev0 tables hold exactly 27 binary file header
    fields and 71 trace header fields, and every field sits at the offset
    and has the width that the SEG-Y Rev0 standard gives it: the fields
    follow one another without gaps from byte 0, over bytes 0-59 of the
    binary header and bytes 0-179 of the trace header. *)
Theorem rev0_field_tables :
  length BINARY_FILE_HEADER_FIELDS_REV0 = 27%nat
  /\ length TRACE_HEADER_FIELDS_REV0 = 71%nat
  /\ layout BINARY_FILE_HEADER_FIELDS_REV0 = pack 0 segy_rev0_binary_widths
  /\ layout TRACE_HEADER_FIELDS_REV0 = pack 0 segy_rev0_trace_widths.
Proof. repeat split; vm_compute; reflexivity. Qed.

End Rev0Facts.

(** * Properties of the IBM conversion *)

Section IbmFacts.
Import Ibm.

(** The lowest bit of a number, as a conjunction with 1. *)
Lemma land_1_testbit (a : Z) : Z.land a 1 = Z.b2z (Z.testbit a 0).
Proof.
  change 1 with (Z.ones 1). rewrite Z.land_ones by lia.
  rewrite Z.bit0_mod. reflexivity.
Qed.

(** An IBM word without fraction bits converts to a zero that carries
    the sign bit of the word. *)
Lemma ibm2ieee_zero_fraction (W : Z) :
  Z.land W 0x00FFFFFF = 0 ->
  ibm2ieee W = if Z.testbit W 31 then f32_neg_zero else f32_pos_zero.
Proof.
  intros Hfrac. unfold ibm2ieee. rewrite Hfrac. cbn [Z.eqb].
  rewrite land_1_testbit, Z.shiftr_spec by lia.
  change (0 + 31) with 31.
  destruct (Z.testbit W 31); reflexivity.
Qed.

(** C6, as stated, fails: the word [0x42080000] does not convert to
    0.5; it denotes 8 and converts to 8.0. *)
Lemma ibm2ieee_42080000_is_not_half :
  ibm2ieee 0x42080000 <> f32_half
  /\ ibm2ieee 0xC2080000 <> f32_neg_half
  /\ float32_value (ibm2ieee 0x42080000) = Some (8 # 1)%Q
  /\ ibm_value 0x42080000 = (8 # 1)%Q
  /\ float32_value f32_half = Some (1 # 2)%Q.
Proof. repeat split; try reflexivity; vm_compute; discriminate. Qed.

(** C6, amended: the conversion takes [0x42080000] to 8.0,
    [0xC2080000] to -8.0, [0x00000000] to 0.0 and [0x41100000] to 1.0,
    each the number the IBM word denotes; and every word whose low 24
    fraction bits are all zero converts to a zero whose sign is bit 31 of
    the word. *)
Theorem ibm2ieee_scenarios :
  (ibm2ieee 0x42080000 = f32_eight
   /\ ibm2ieee 0xC2080000 = f32_neg_eight
   /\ ibm2ieee 0x00000000 = f32_pos_zero
   /\ ibm2ieee 0x41100000 = f32_one)
  /\ (float32_value f32_eight = Some (8 # 1)%Q
      /\ float32_value f32_neg_eight = Some (-8 # 1)%Q
      /\ float32_value f32_pos_zero = Some (0 # 1)%Q
      /\ float32_value f32_one = Some (1 # 1)%Q)
  /\ (forall W : Z, Z.land W 0x00FFFFFF = 0 ->
        ibm2ieee W = if Z.testbit W 31 then f32_neg_zero else f32_pos_zero).
Proof.
  split; [repeat split; reflexivity |].
  split; [repeat split; reflexivity |].
  exact ibm2ieee_zero_fraction.
Qed.

(** The amended C6 at the words [0xC5000000] and [0x45000000]. *)
Lemma ibm2ieee_scenarios_witness :
  ibm2ieee 0xC5000000 = f32_neg_zero /\ ibm2ieee 0x45000000 = f32_pos_zero.
Proof.
  destruct ibm2ieee_scenarios as (_ & _ & H).
  split.
  - exact (H 0xC5000000 eq_refl).
  - exact (H 0x45000000 eq_refl).
Defined.

End IbmFacts.

(** * Properties of the indexers *)

Section IndexingFacts.
Import Schema Ibm Py Fsspec Indexing Examples.

(** ** Bounds checking *)

Lemma filter_nil_iff {A} (f : A -> bool) (l : list A) :
  List.filter f l = [] <-> Forall (fun x => f x = false) l.
Proof.
  induction l as [|x l IH]; simpl.
  - split; [constructor | reflexivity].
  - destruct (f x) eqn:E.
    + split; [discriminate | intros H; inversion H; congruence].
    + rewrite IH. split; [intros; constructor; assumption | intros H; inversion H; assumption].
Qed.

(** [bounds_check] accepts a list exactly when every index is in
    [0, max_). *)
Lemma bounds_check_ok_iff (indices : list Z) (max_ : Z) (type_ : string) :
  bounds_check indices max_ type_ = Ok tt
  <-> Forall (fun i => 0 <= i < max_) indices.
Proof.
  unfold bounds_check.
  destruct (List.filter (fun index => index <? 0) indices ++
            List.filter (fun index => index >=? max_) indices) as [|o os] eqn:E.
  - apply app_eq_nil in E as [E1 E2].
    apply filter_nil_iff in E1. apply filter_nil_iff in E2.
    split; [intros _ | reflexivity].
    rewrite Forall_forall in *. intros i Hi.
    specialize (E1 i Hi). specialize (E2 i Hi). simpl in *.
    rewrite Z.geb_leb in E2.
    apply Z.ltb_ge in E1. apply Z.leb_gt in E2. lia.
  - split; [discriminate |]. intros H. exfalso.
    assert (List.filter (fun index => index <? 0) indices = []) as E1.
    { apply filter_nil_iff. eapply Forall_impl; [exact H |].
      intros x Hx. simpl in *. apply Z.ltb_ge. lia. }
    assert (List.filter (fun index => index >=? max_) indices = []) as E2.
    { apply filter_nil_iff. eapply Forall_impl; [exact H |].
      intros x Hx. simpl in *. rewrite Z.geb_leb. apply Z.leb_gt. lia. }
    rewrite E1, E2 in E. discriminate.
Qed.

(** [bounds_check] raises exactly when some index is negative or at least
    [max_], and what it raises is an [IndexError]. *)
Lemma bounds_check_raises_iff (indices : list Z) (max_ : Z) (type_ : string) :
  (exists msg, bounds_check indices max_ type_ = Raise (IndexError msg))
  <-> Exists (fun i => i < 0 \/ max_ <= i) indices.
Proof.
  assert (forall i, {0 <= i < max_} + {i < 0 \/ max_ <= i}) as dec.
  { intros i. destruct (Z_lt_dec i 0); [right; lia |].
    destruct (Z_le_dec max_ i); [right; lia | left; lia]. }
  split.
  - intros [msg H].
    destruct (Forall_Exists_dec _ _ dec indices) as [Hall | Hex]; [| exact Hex].
    apply bounds_check_ok_iff with (type_ := type_) in Hall. congruence.
  - intros Hex.
    destruct (bounds_check indices max_ type_) as [[] | e] eqn:E.
    + apply bounds_check_ok_iff in E. exfalso.
      apply Exists_exists in Hex as (i & Hi & Hout).
      rewrite Forall_forall in E. specialize (E i Hi). lia.
    + unfold bounds_check in E.
      destruct (_ ++ _) in E; [discriminate |]. inversion E. eauto.
Qed.

(** ** Records in a buffer *)

Lemma chunks_n_length (k n : nat) (l : list byte) :
  length (chunks_n k n l) = k.
Proof. revert l; induction k as [|k IH]; intros l; simpl; [|rewrite IH]; reflexivity. Qed.

Lemma chunks_n_concat (n : nat) (rs : list (list byte)) (tl : list byte) :
  Forall (fun r => length r = n) rs ->
  chunks_n (length rs) n (concat rs ++ tl) = rs.
Proof.
  induction 1 as [|r rs Hr _ IH]; simpl; [reflexivity |].
  rewrite <- app_assoc.
  rewrite take_app_length' by (symmetry; exact Hr).
  rewrite drop_app_length' by (symmetry; exact Hr).
  rewrite IH. reflexivity.
Qed.

Lemma length_concat_uniform (n : nat) (rs : list (list byte)) :
  Forall (fun r => length r = n) rs ->
  length (concat rs) = (length rs * n)%nat.
Proof.
  induction 1 as [|r rs Hr _ IH]; simpl; [reflexivity |].
  rewrite length_app, IH, Hr. reflexivity.
Qed.

(** A buffer made of whole records is cut back into them. *)
Lemma chunks_concat (n : nat) (rs : list (list byte)) :
  (0 < n)%nat -> Forall (fun r => length r = n) rs ->
  chunks n (concat rs) = rs.
Proof.
  intros Hn Hrs. unfold chunks.
  rewrite (length_concat_uniform n rs Hrs).
  rewrite Nat.div_mul by lia.
  rewrite <- (app_nil_r (concat rs)).
  apply chunks_n_concat; exact Hrs.
Qed.

Lemma chunks_n_uniform (k n : nat) (l : list byte) :
  (k * n <= length l)%nat ->
  Forall (fun r => length r = n) (chunks_n k n l).
Proof.
  revert l; induction k as [|k IH]; intros l Hl; simpl; constructor.
  - rewrite length_take. lia.
  - apply IH. rewrite length_drop. lia.
Qed.

Lemma concat_chunks_n (k n : nat) (l : list byte) :
  length l = (k * n)%nat -> concat (chunks_n k n l) = l.
Proof.
  revert l; induction k as [|k IH]; intros l Hl; simpl.
  - destruct l; [reflexivity | discriminate].
  - rewrite IH by (rewrite length_drop; lia).
    apply take_drop.
Qed.

(** A buffer of [k] whole records: its records have the record size and
    make up the buffer. *)
Lemma chunks_exact (k n : nat) (l : list byte) :
  (0 < n)%nat -> length l = (k * n)%nat ->
  length (chunks n l) = k
  /\ Forall (fun r => length r = n) (chunks n l)
  /\ concat (chunks n l) = l.
Proof.
  intros Hn Hl. unfold chunks. rewrite Hl, Nat.div_mul by lia.
  split; [apply chunks_n_length |].
  split; [apply chunks_n_uniform; lia | apply concat_chunks_n; exact Hl].
Qed.

Lemma length_le_encode (n : nat) (z : Z) : length (le_encode n z) = n.
Proof. revert z; induction n as [|n IH]; intros z; simpl; [|rewrite IH]; reflexivity. Qed.

Lemma length_of_words (w : nat) (ws : list Z) :
  length (of_words w ws) = (length ws * w)%nat.
Proof.
  unfold of_words. rewrite (length_concat_uniform w).
  - rewrite length_map. reflexivity.
  - apply Forall_forall. intros r Hr.
    apply list_elem_of_In, in_map_iff in Hr as (z & <- & _).
    apply length_le_encode.
Qed.

Lemma length_words (w : nat) (block : list byte) :
  length (words w block) = (length block / w)%nat.
Proof. unfold words, chunks. rewrite length_map. apply chunks_n_length. Qed.

Lemma length_swap_at (off w : nat) (bs : list byte) :
  length (swap_at off w bs) = length bs.
Proof.
  unfold swap_at.
  rewrite !length_app, length_rev, !length_take, !length_drop. lia.
Qed.

Lemma length_swap_fields (h : StructuredDataTypeDescriptor) (bs : list byte) :
  length (swap_fields h bs) = length bs.
Proof.
  unfold swap_fields. generalize (fields h) as fs. intros fs. revert bs.
  induction fs as [|f fs IH]; intros bs; simpl; [reflexivity |].
  rewrite IH. apply length_swap_at.
Qed.

Lemma length_swap_elements (d : data_dtype) (k : nat) (bs : list byte) :
  (0 < Z.to_nat (width (base d)))%nat ->
  length bs = (k * Z.to_nat (width (base d)))%nat ->
  length (swap_elements d bs) = length bs.
Proof.
  intros Hw Hl. unfold swap_elements.
  destruct (chunks_exact k _ bs Hw Hl) as (Hk & Hu & _).
  rewrite (length_concat_uniform (Z.to_nat (width (base d)))).
  - rewrite length_map, Hk, Hl. reflexivity.
  - apply Forall_forall. intros r Hr.
    apply list_elem_of_In, in_map_iff in Hr as (c & <- & Hc).
    rewrite length_rev.
    rewrite Forall_forall in Hu. apply Hu, list_elem_of_In, Hc.
Qed.

(** ** Conversion of the samples in place *)

(** What [trace_ibm2ieee_inplace] does to one record of a header and
    samples: the record keeps its length and its header bytes, and its
    sample block holds the converted words. *)
Lemma ibm_record_frame (h : StructuredDataTypeDescriptor) (d : data_dtype)
    (r : list byte) (hsz w : nat) :
  hsz = Z.to_nat (item_size h) ->
  w = Z.to_nat (width (base d)) ->
  (0 < w)%nat ->
  length r = (hsz + Z.to_nat (shape d) * w)%nat ->
  length (set_data h d r (List.map ibm2ieee (get_data h d r))) = length r
  /\ take hsz (set_data h d r (List.map ibm2ieee (get_data h d r))) = take hsz r
  /\ drop hsz (set_data h d r (List.map ibm2ieee (get_data h d r)))
     = of_words w (List.map ibm2ieee (words w (drop hsz r))).
Proof.
  intros Hhsz Hweq Hw Hlen. unfold set_data, get_data.
  rewrite <- Hhsz, <- Hweq.
  assert (length (drop hsz r) = (Z.to_nat (shape d) * w)%nat) as Hblock
    by (rewrite length_drop; lia).
  rewrite (take_ge (drop hsz r)) by lia.
  rewrite (drop_ge r (hsz + w * Z.to_nat (shape d))) by lia.
  rewrite app_nil_r.
  assert (length (take hsz r) = hsz) as Hhdr by (rewrite length_take; lia).
  split; [| split].
  - rewrite length_app, Hhdr, length_of_words, length_map, length_words, Hblock.
    rewrite Nat.div_mul by lia. lia.
  - rewrite take_app_length' by (symmetry; exact Hhdr). reflexivity.
  - rewrite drop_app_length' by (symmetry; exact Hhdr). reflexivity.
Qed.

(** C5: for a trace array whose data format is ibm32, the conversion in
    place hands back the same memory under the record type whose data are
    float32, of the same byte width; it raises nothing, logs nothing and
    writes to no other buffer; every record keeps its length and all of
    its header bytes, and only its sample block changes, to the converted
    words. *)
Theorem trace_ibm2ieee_inplace_frame (spec : TraceDescriptor)
    (trace : ndarray) (st : state) (content : list byte) (n : nat) :
  let h := header_descriptor spec in
  let hsz := Z.to_nat (item_size h) in
  data_format (data_descriptor spec) = IBM32 ->
  arr_dtype trace = trace_dtype spec ->
  0 <= item_size h -> 0 <= samples (data_descriptor spec) ->
  0 < itemsize (trace_dtype spec) ->
  bufs st !! arr_buf trace = Some content ->
  length content = (n * Z.to_nat (itemsize (trace_dtype spec)))%nat ->
  exists out st',
    trace_ibm2ieee_inplace trace st = (Ok out, st')
    /\ arr_buf out = arr_buf trace
    /\ arr_shape out = arr_shape trace
    /\ arr_dtype out
       = DTrace h {| base := FLOAT32; shape := samples (data_descriptor spec) |}
    /\ itemsize (arr_dtype out) = itemsize (arr_dtype trace)
    /\ log st' = log st
    /\ (forall b, b <> arr_buf trace -> bufs st' !! b = bufs st !! b)
    /\ length (records st' out) = length (records st trace)
    /\ forall k r r',
         records st trace !! k = Some r ->
         records st' out !! k = Some r' ->
         length r' = length r
         /\ take hsz r' = take hsz r
         /\ drop hsz r'
            = of_words 4 (List.map ibm2ieee (words 4 (drop hsz r))).
Proof.
  intros h hsz Hfmt Hdt Hh Hs Hpos Hbuf Hlen.
  remember (data_descriptor_dtype (data_descriptor spec)) as d eqn:Hd.
  assert (width (base d) = 4) as Hw by (subst d; simpl; rewrite Hfmt; reflexivity).
  assert (shape d = samples (data_descriptor spec)) as Hsh by (subst d; reflexivity).
  assert (trace_dtype spec = DTrace h d) as Htd by (subst d; reflexivity).
  rewrite Htd in *. clear Htd Hd.
  assert (itemsize (DTrace h d) = item_size h + 4 * shape d) as Hisz
    by (cbn [itemsize]; unfold data_itemsize; rewrite Hw; reflexivity).
  assert (itemsize (DTrace h {| base := FLOAT32; shape := shape d |})
          = itemsize (DTrace h d)) as Hsame
    by (rewrite Hisz; reflexivity).
  remember (Z.to_nat (itemsize (DTrace h d))) as isz eqn:Hiszn.
  assert (isz = (hsz + Z.to_nat (shape d) * 4)%nat) as Hisz'
    by (subst isz hsz; rewrite Hisz; lia).
  assert (0 < isz)%nat as Hipos by lia.
  set (f := fun r => set_data h d r (List.map ibm2ieee (get_data h d r))).
  destruct (chunks_exact n isz content Hipos Hlen) as (Hk & Hu & Hcat).
  assert (forall r, length r = isz ->
            length (f r) = length r
            /\ take hsz (f r) = take hsz r
            /\ drop hsz (f r) = of_words 4 (List.map ibm2ieee (words 4 (drop hsz r))))
    as Hf.
  { intros r Hr. apply (ibm_record_frame h d r hsz 4%nat);
      [reflexivity | rewrite Hw; reflexivity | lia | lia]. }
  assert (Forall (fun r => length r = isz) (List.map f (chunks isz content))) as Hu'.
  { apply Forall_forall. intros r' Hr'.
    apply list_elem_of_In, in_map_iff in Hr' as (r & <- & Hr).
    rewrite Forall_forall in Hu. specialize (Hu r (proj2 (list_elem_of_In _ _) Hr)).
    destruct (Hf r Hu) as (Hl & _). lia. }
  exists {| arr_buf := arr_buf trace;
            arr_dtype := DTrace h {| base := FLOAT32; shape := shape d |};
            arr_shape := arr_shape trace |}.
  exists {| bufs := <[arr_buf trace := concat (List.map f (chunks isz content))]> (bufs st);
            log := log st |}.
  split.
  { unfold trace_ibm2ieee_inplace. rewrite Hdt.
    unfold map_records, view. run_M.
    rewrite Hbuf, Hdt, Hsame, Z.eqb_refl, <- Hiszn. reflexivity. }
  cbn [arr_buf arr_dtype arr_shape bufs log].
  split; [reflexivity |]. split; [reflexivity |].
  split; [rewrite Hsh; reflexivity |].
  split; [rewrite Hdt; exact Hsame |].
  split; [reflexivity |].
  split; [intros b Hb; rewrite lookup_insert_ne by congruence; reflexivity |].
  assert (records st trace = chunks isz content) as Hrec.
  { unfold records. rewrite Hbuf, Hdt, <- Hiszn. reflexivity. }
  match goal with |- context [records ?s ?a] =>
    assert (records s a = List.map f (chunks isz content)) as Hrec'
  end.
  { unfold records. cbn [arr_buf arr_dtype bufs].
    rewrite lookup_insert_eq, Hsame, <- Hiszn. cbn [default].
    apply chunks_concat; [exact Hipos | exact Hu']. }
  rewrite Hrec, Hrec'.
  split; [apply length_map |].
  intros k r r' Hr Hr'.
  change (List.map f (chunks isz content)) with (f <$> chunks isz content) in Hr'.
  rewrite list_lookup_fmap, Hr in Hr'. simpl in Hr'. injection Hr' as <-.
  apply Hf.
  rewrite Forall_forall in Hu. apply Hu. eapply list_elem_of_lookup_2; exact Hr.
Qed.

(** C5 at an array of two records over the small file's descriptor: the
    conversion runs and keeps the two header bytes of every record. *)
Lemma trace_ibm2ieee_inplace_frame_witness :
  exists out st',
    trace_ibm2ieee_inplace small_array small_state = (Ok out, st')
    /\ arr_buf out = arr_buf small_array
    /\ forall k r r',
         records small_state small_array !! k = Some r ->
         records st' out !! k = Some r' ->
         take 2 r' = take 2 r.
Proof.
  destruct (trace_ibm2ieee_inplace_frame small_spec small_array small_state
              small_buffer 2 eq_refl eq_refl
              ltac:(vm_compute; discriminate) ltac:(vm_compute; discriminate)
              eq_refl eq_refl eq_refl)
    as (out & st' & Hrun & Hbuf & _ & _ & _ & _ & _ & _ & Hrec).
  exists out, st'. split; [exact Hrun |]. split; [exact Hbuf |].
  intros k r r' Hr Hr'. exact (proj1 (proj2 (Hrec k r r' Hr Hr'))).
Defined.

(** C3 at the input [bounds_check([10], 10, "trace")]: the index 10 is
    reported, and the message gives the valid indices as [[0, 9)], which
    leaves out the valid index 9. *)
Theorem bounds_check_message_at_10 :
  bounds_check [10] 10 "trace"
  = Raise (IndexError
      "Requested trace indices [10] are out of bounds. SEG-Y file has 10 traces. Valid indices are [0, 9).")
  /\ bounds_check [9] 10 "trace" = Ok tt.
Proof. split; reflexivity. Qed.

(** ** Byte ranges *)

(** C1: the byte range planned for the trace index [i] is
    [[offset + i*stride, offset + i*stride + stride)] by the full-trace
    indexer, [[offset + i*stride, offset + i*stride + header_size)] by the
    header-only indexer and
    [[offset + i*stride + header_size, offset + i*stride + stride)] by the
    data-only indexer, where [stride = header_size + data_size]; the
    starts and the ends are listed in the order of the indices. *)
Theorem indices_to_byte_ranges_per_index (self : AbstractIndexer)
    (indices : list Z) :
  let offset := trace_offset (spec self) in
  let header_size := item_size (header_descriptor (spec self)) in
  let data_size :=
    data_itemsize (data_descriptor_dtype (data_descriptor (spec self))) in
  let stride := header_size + data_size in
  indices_to_byte_ranges self indices =
    match cls self with
    | TraceIndexer =>
        (List.map (fun i => offset + i * stride) indices,
         List.map (fun i => offset + i * stride + stride) indices)
    | HeaderIndexer =>
        (List.map (fun i => offset + i * stride) indices,
         List.map (fun i => offset + i * stride + header_size) indices)
    | DataIndexer =>
        (List.map (fun i => offset + i * stride + header_size) indices,
         List.map (fun i => offset + i * stride + stride) indices)
    end.
Proof.
  intros offset header_size data_size stride.
  unfold indices_to_byte_ranges.
  destruct (cls self);
    unfold TraceIndexer_indices_to_byte_ranges,
      HeaderIndexer_indices_to_byte_ranges,
      DataIndexer_indices_to_byte_ranges;
    cbn [itemsize trace_dtype];
    fold offset header_size data_size; fold stride;
    rewrite List.map_map; f_equal;
    apply List.map_ext; intros i; lia.
Qed.

(** ** Index arguments *)

(** C10: an index argument that is neither an [int], a [list] nor a
    [slice] raises a [TypeError] that names the type, and leaves the
    state as it was: no byte range is planned, none is fetched and no
    buffer is made. *)
Theorem getitem_invalid_index_type (self : AbstractIndexer)
    (type_repr : string) (st : state) :
  __getitem__ self (IOther type_repr) st
  = (Raise (TypeError ("Invalid index type " +:+ type_repr)), st).
Proof. reflexivity. Qed.

(** C4 at the slice [0:0] over three traces: the bounds check of its
    start and of its stop minus one raises, and the indexer does not; it
    takes the stop of 0 for an omitted one, checks the last trace
    instead, and then selects nothing, as [slice.indices] has the stop at
    0. *)
Theorem getitem_slice_stop_zero :
  let self := small_indexer HeaderIndexer in
  let item := mkSlice (Some 0) (Some 0) None in
  (exists e, bounds_check [0; 0 - 1] (max_value self) (kind self) = Raise e)
  /\ exists data st',
       __getitem__ self (ISlice item) empty_state = (Ok (OutArray data), st')
       /\ log st' = [EvByteRanges [] []; EvCatRanges [] [] []].
Proof.
  split.
  - eexists. reflexivity.
  - eexists. eexists. split; vm_compute; reflexivity.
Qed.

(** Slices: a slice whose step is 0 raises [ValueError]; for every other
    slice whose stop is not 0, an omitted start stands for 0 and an
    omitted stop for [max_value], the bounds check is applied to that
    start and to that stop minus one, what it raises is raised, and when
    it passes the indices of the slice are fetched. *)
Theorem getitem_slice (self : AbstractIndexer) (item : slice) (st : state) :
  (step item = Some 0 ->
   __getitem__ self (ISlice item) st
   = (Raise (ValueError "Step of 0 is invalid for slicing."), st))
  /\ (step item <> Some 0 -> stop item <> Some 0 ->
      let start_ := default 0 (start item) in
      let stop_ := default (max_value self) (stop item) in
      (forall e,
         bounds_check [start_; stop_ - 1] (max_value self) (kind self) = Raise e ->
         __getitem__ self (ISlice item) st = (Raise e, st))
      /\ (bounds_check [start_; stop_ - 1] (max_value self) (kind self) = Ok tt ->
          __getitem__ self (ISlice item) st
          = ('(a, b, c) ← lift (slice_indices item (max_value self));
             data ← fetch self (range a b c);
             post_process self data) st)).
Proof.
  split.
  - intros Hstep. unfold __getitem__. rewrite Hstep. reflexivity.
  - intros Hstep Hstop start_ stop_.
    assert (or_default (start item) 0 = start_) as Hs.
    { unfold or_default, start_. destruct (start item) as [v|]; simpl; [|reflexivity].
      destruct (Z.eqb_spec v 0); congruence. }
    assert (or_default (stop item) (max_value self) = stop_) as Hp.
    { unfold or_default, stop_. destruct (stop item) as [v|]; simpl; [|reflexivity].
      destruct (Z.eqb_spec v 0); congruence. }
    unfold __getitem__. destruct (decide (step item = Some 0)) as [|_]; [contradiction |].
    rewrite Hs, Hp.
    split.
    + intros e He. unfold mbind, M_bind, lift. rewrite He. reflexivity.
    + intros Hok. unfold mbind, M_bind, lift, mret, M_ret. rewrite Hok.
      destruct (slice_indices item (max_value self)) as [[[a b] c]|e]; reflexivity.
Qed.

(** The slices [0:5] and [1:3] of three traces. *)
Lemma getitem_slice_witness :
  __getitem__ (small_indexer HeaderIndexer) (ISlice (mkSlice (Some 0) (Some 5) None))
    empty_state
  = (Raise (IndexError
       "Requested trace indices [4] are out of bounds. SEG-Y file has 3 traces. Valid indices are [0, 2)."),
     empty_state)
  /\ __getitem__ (small_indexer HeaderIndexer) (ISlice (mkSlice (Some 1) (Some 3) None))
       empty_state
     = fetch_then_post_process (small_indexer HeaderIndexer) [1; 2] empty_state.
Proof.
  split.
  - refine (proj1 (proj2 (getitem_slice (small_indexer HeaderIndexer)
                            (mkSlice (Some 0) (Some 5) None) empty_state)
                         _ _) _ eq_refl); discriminate.
  - refine (proj2 (proj2 (getitem_slice (small_indexer HeaderIndexer)
                            (mkSlice (Some 1) (Some 3) None) empty_state)
                         _ _) eq_refl); discriminate.
Defined.

(** ** Merging and fetching byte ranges *)

Lemma string_compare_refl (s : string) : String.compare s s = Eq.
Proof.
  induction s as [|c s IH]; simpl; [reflexivity |].
  unfold Ascii.compare. rewrite N.compare_refl. exact IH.
Qed.

Lemma insert_sorted_chain (url : string) (s e : Z) (l : list (string * Z * Z)) :
  s < e -> chain url e l -> insert_sorted (url, s, e) l = (url, s, e) :: l.
Proof.
  intros Hse Hl. destruct l as [|[[p s'] e'] l]; [reflexivity |].
  destruct Hl as (-> & Hle & _ & _). simpl.
  rewrite string_compare_refl.
  replace (s <? s') with true by (symmetry; apply Z.ltb_lt; lia).
  reflexivity.
Qed.

(** Sorting leaves ranges alone that are in increasing order already. *)
Lemma sorted_chain (url : string) (ce : Z) (l : list (string * Z * Z)) :
  chain url ce l -> sorted l = l.
Proof.
  revert ce. induction l as [|[[p s] e] l IH]; intros ce Hl; [reflexivity |].
  destruct Hl as (-> & _ & Hse & Hl). unfold sorted in *. simpl.
  rewrite (IH e Hl). apply insert_sorted_chain; assumption.
Qed.

Lemma cat_file_split (content : list byte) (a b c : Z) :
  0 <= a <= b -> b <= c ->
  cat_file content a c = cat_file content a b ++ cat_file content b c.
Proof.
  intros Hab Hbc. unfold cat_file.
  replace (Z.to_nat (c - a)) with (Z.to_nat (b - a) + Z.to_nat (c - b))%nat by lia.
  rewrite <- take_take_drop, drop_drop.
  replace (Z.to_nat a + Z.to_nat (b - a))%nat with (Z.to_nat b) by lia.
  reflexivity.
Qed.

Lemma join_cat_ranges_snoc (fs : AbstractFileSystem) (url : string)
    (content : list byte) (out : list (string * Z * Z)) (i : nat)
    (joined : list byte) (s e : Z) :
  fs !! url = Some content ->
  join_from i (cat_ranges fs out) = Ok joined ->
  join_from i (cat_ranges fs (out ++ [(url, s, e)]))
  = Ok (joined ++ cat_file content s e).
Proof.
  intros Hfs. revert i joined.
  induction out as [|[[p s'] e'] out IH]; intros i joined Hout; simpl in *.
  - injection Hout as <-. rewrite Hfs. simpl. rewrite app_nil_r. reflexivity.
  - destruct (fs !! p); [| discriminate].
    destruct (join_from (S i) (cat_ranges fs out)) as [joined' |] eqn:E; [| discriminate].
    injection Hout as <-. rewrite (IH (S i) joined' E).
    rewrite app_assoc. reflexivity.
Qed.

(** Merging changes the requests, not the bytes that come back: the
    blocks fetched for a chain of ranges join to the bytes of the ranges
    in order. *)
Lemma merge_loop_bytes (fs : AbstractFileSystem) (url : string)
    (content : list byte) (max_block : option Z)
    (rest out : list (string * Z * Z)) (joined : list byte) (cs ce : Z) :
  fs !! url = Some content ->
  0 <= cs <= ce -> chain url ce rest ->
  join (cat_ranges fs out) = Ok joined ->
  join (cat_ranges fs (merge_loop 0 max_block url rest out (url, cs, ce)))
  = Ok (joined ++ cat_file content cs ce ++ bytes_of content rest).
Proof.
  intros Hfs. revert out joined cs ce.
  induction rest as [|[[p s] e] rest IH]; intros out joined cs ce Hc Hrest Hout.
  - simpl. unfold join in *.
    rewrite (join_cat_ranges_snoc fs url content out 0 joined cs ce Hfs Hout).
    unfold bytes_of. simpl. rewrite app_nil_r. reflexivity.
  - destruct Hrest as (-> & Hle & Hse & Hrest). simpl.
    rewrite String.eqb_refl. simpl negb. rewrite orb_false_l.
    destruct ((s - ce >? 0) || _) eqn:Hcond.
    + rewrite (IH (out ++ [(url, cs, ce)]) (joined ++ cat_file content cs ce) s e);
        [| lia | assumption | apply join_cat_ranges_snoc; assumption].
      unfold bytes_of. simpl. rewrite <- !app_assoc. reflexivity.
    + apply orb_false_iff in Hcond as [Hgap _].
      assert (s = ce) as -> by (rewrite Z.gtb_ltb in Hgap; apply Z.ltb_ge in Hgap; lia).
      rewrite (IH out joined cs e); [| lia | assumption | assumption].
      unfold bytes_of. simpl.
      rewrite (cat_file_split content cs ce e) by lia.
      rewrite <- !app_assoc. reflexivity.
Qed.

Lemma combine_split3 (l : list (string * Z * Z)) :
  combine (combine (List.map (fun t => fst (fst t)) l)
                   (List.map (fun t => snd (fst t)) l))
          (List.map snd l) = l.
Proof.
  induction l as [|[[p s] e] l IH]; simpl; [reflexivity |]. rewrite IH. reflexivity.
Qed.

Lemma combine_repeat_ranges (url : string) (l : list (string * Z * Z)) :
  Forall (fun t => fst (fst t) = url) l ->
  combine (combine (repeat url (length (List.map (fun t => snd (fst t)) l)))
                   (List.map (fun t => snd (fst t)) l))
          (List.map snd l) = l.
Proof.
  induction 1 as [|[[p s] e] l Hp _ IH]; simpl in *; [reflexivity |].
  rewrite IH, Hp. reflexivity.
Qed.

Lemma chain_paths (url : string) (ce : Z) (l : list (string * Z * Z)) :
  chain url ce l -> Forall (fun t => fst (fst t) = url) l.
Proof.
  revert ce. induction l as [|[[p s] e] l IH]; intros ce Hl; constructor.
  - destruct Hl as (-> & _). reflexivity.
  - destruct Hl as (_ & _ & _ & Hl). exact (IH e Hl).
Qed.

Lemma chain_weaken (url : string) (ce ce' : Z) (l : list (string * Z * Z)) :
  ce' <= ce -> chain url ce l -> chain url ce' l.
Proof.
  destruct l as [|[[p s] e] l]; [trivial |].
  intros Hle (-> & Hs & Hse & Hl). simpl. repeat split; try assumption; lia.
Qed.

(** [merge_cat_file] on a chain of ranges of a file: the new buffer
    holds the bytes of the ranges in order, whatever was merged. *)
Lemma merge_cat_file_chain (fs : AbstractFileSystem) (url : string)
    (content : list byte) (ranges : list (string * Z * Z)) (block_size : Z)
    (st : state) :
  fs !! url = Some content ->
  chain url 0 ranges ->
  exists ev,
    merge_cat_file fs url (List.map (fun t => snd (fst t)) ranges)
      (List.map snd ranges) block_size st
    = (Ok (fresh (dom (bufs st))),
       {| bufs := <[fresh (dom (bufs st)) := bytes_of content ranges]> (bufs st);
          log := log st ++ [ev] |}).
Proof.
  intros Hfs Hchain.
  pose proof (chain_paths _ _ _ Hchain) as Hpaths.
  unfold merge_cat_file, merge_offset_ranges.
  rewrite repeat_length, !length_map, !Nat.eqb_refl. simpl negb. simpl orb. cbv iota.
  destruct ranges as [|[[p1 s1] e1] [|[[p2 s2] e2] rest]].
  - simpl. eexists. run_M. simpl. reflexivity.
  - destruct Hchain as (-> & _). simpl. eexists. run_M. simpl.
    rewrite Hfs. unfold bytes_of. simpl. reflexivity.
  - replace (length ((p1, s1, e1) :: (p2, s2, e2) :: rest) <=? 1)%nat with false
      by reflexivity.
    cbv iota.
    rewrite <- (length_map (fun t : string * Z * Z => snd (fst t))).
    rewrite (combine_repeat_ranges url _ Hpaths).
    rewrite (sorted_chain url 0 _ Hchain).
    destruct Hchain as (-> & Hs1 & Hse1 & Hchain).
    cbn [fst].
    pose proof (merge_loop_bytes fs url content (Some block_size)
                  ((p2, s2, e2) :: rest) [] [] s1 e1 Hfs ltac:(lia) Hchain eq_refl)
      as Hrun.
    eexists. run_M.
    rewrite combine_split3, Hrun. reflexivity.
Qed.

(** ** The ranges of a list of indices *)

Lemma width_pos (t : ScalarType) : 0 < width t.
Proof. destruct t; reflexivity. Qed.

Lemma indices_to_byte_ranges_range_of (self : AbstractIndexer) (indices : list Z) :
  indices_to_byte_ranges self indices
  = (List.map (fun t => snd (fst t)) (List.map (range_of self) indices),
     List.map snd (List.map (range_of self) indices)).
Proof.
  unfold indices_to_byte_ranges, range_of, region_start, record_dtype, stride.
  destruct (cls self);
    unfold TraceIndexer_indices_to_byte_ranges,
      HeaderIndexer_indices_to_byte_ranges,
      DataIndexer_indices_to_byte_ranges;
    rewrite !List.map_map; cbn [fst snd]; f_equal;
    apply List.map_ext; intros i; cbn [itemsize]; lia.
Qed.

(** The sizes of the regions of a file that holds traces: every region
    is not empty and ends within its trace. *)
Lemma region_sizes (self : AbstractIndexer) (content : list byte) :
  holds_traces self content ->
  0 < itemsize (record_dtype self)
  /\ 0 <= region_start self
  /\ region_start self + itemsize (record_dtype self) <= stride self.
Proof.
  intros (_ & _ & Hh & Hs & _).
  pose proof (width_pos (storage (data_format (data_descriptor (spec self))))) as Hw.
  assert (0 < data_itemsize (data_descriptor_dtype (data_descriptor (spec self)))) as Hd
    by (unfold data_itemsize; simpl; nia).
  unfold record_dtype, region_start, stride, trace_dtype.
  destruct (cls self); cbn [itemsize]; lia.
Qed.

Lemma range_of_chain (self : AbstractIndexer) (content : list byte)
    (indices : list Z) (ce : Z) :
  holds_traces self content ->
  increasing indices ->
  match indices with
  | [] => True
  | i :: _ => ce <= trace_offset (spec self) + region_start self + i * stride self
  end ->
  chain (url self) ce (List.map (range_of self) indices).
Proof.
  intros Hfile. destruct (region_sizes self content Hfile) as (Hsz & Hrs & Hfit).
  revert ce. induction indices as [|i rest IH]; intros ce Hinc Hce; [exact I |].
  cbn [List.map range_of chain]. unfold range_of at 1.
  split; [reflexivity |]. split; [exact Hce |]. split; [lia |].
  apply IH.
  - destruct rest; [exact I | apply Hinc].
  - destruct rest as [|j rest]; [exact I |].
    destruct Hinc as [Hij _]. nia.
Qed.

Lemma bytes_of_range_of (self : AbstractIndexer) (content : list byte)
    (indices : list Z) :
  bytes_of content (List.map (range_of self) indices)
  = concat (List.map (trace_bytes self content) indices).
Proof. unfold bytes_of. rewrite List.map_map. reflexivity. Qed.

(** The region of a trace within bounds is whole. *)
Lemma length_trace_bytes (self : AbstractIndexer) (content : list byte) (i : Z) :
  holds_traces self content -> in_bounds self i ->
  length (trace_bytes self content i) = Z.to_nat (itemsize (record_dtype self)).
Proof.
  intros Hfile Hi. destruct (region_sizes self content Hfile) as (Hsz & Hrs & Hfit).
  destruct Hfile as (_ & Hoff & _ & _ & Hlen). unfold in_bounds in Hi.
  unfold trace_bytes, cat_file. rewrite length_take, length_drop.
  assert (0 <= stride self) by lia.
  assert ((i + 1) * stride self <= max_value self * stride self) by nia.
  lia.
Qed.

(** ** Decoding a buffer of whole records *)

Lemma frombuffer_run (b : nat) (dt : dtype) (rs : list (list byte)) (st : state) :
  0 < itemsize dt ->
  bufs st !! b = Some (concat rs) ->
  Forall (fun r => length r = Z.to_nat (itemsize dt)) rs ->
  frombuffer b dt st
  = (Ok {| arr_buf := b; arr_dtype := dt; arr_shape := [Z.of_nat (length rs)] |},
     st).
Proof.
  intros Hpos Hbuf Hrs. unfold frombuffer. run_M. rewrite Hbuf. cbn [from_option id].
  rewrite (length_concat_uniform _ rs Hrs).
  replace (Z.of_nat (length rs * Z.to_nat (itemsize dt)))
    with (Z.of_nat (length rs) * itemsize dt) by lia.
  replace (itemsize dt <=? 0) with false by (symmetry; apply Z.leb_gt; lia).
  rewrite Z_mod_mult, Z_div_mult by lia. reflexivity.
Qed.

Lemma map_records_run (f : list byte -> list byte) (a : ndarray)
    (rs : list (list byte)) (st : state) :
  0 < itemsize (arr_dtype a) ->
  bufs st !! arr_buf a = Some (concat rs) ->
  Forall (fun r => length r = Z.to_nat (itemsize (arr_dtype a))) rs ->
  map_records f a st
  = (Ok tt, {| bufs := <[arr_buf a := concat (List.map f rs)]> (bufs st);
               log := log st |}).
Proof.
  intros Hpos Hbuf Hrs. unfold map_records. run_M. rewrite Hbuf. cbn [from_option id].
  rewrite chunks_concat by (assumption || lia). reflexivity.
Qed.

Lemma Forall_map_length (f : list byte -> list byte) (n : nat)
    (rs : list (list byte)) :
  (forall r, length r = n -> length (f r) = n) ->
  Forall (fun r => length r = n) rs ->
  Forall (fun r => length r = n) (List.map f rs).
Proof.
  intros Hf. induction 1 as [|r rs Hr _ IH]; simpl; constructor; auto.
Qed.

(** Swapping the bytes of a whole record keeps its length. *)
Lemma length_byteswap_record (dt : dtype) (r : list byte) :
  match dt with
  | DHeader _ => True
  | DData d => 0 <= shape d
  | DTrace h d => 0 <= item_size h /\ 0 <= shape d
  end ->
  length r = Z.to_nat (itemsize dt) ->
  length (byteswap_record dt r) = length r.
Proof.
  destruct dt as [h | d | h d]; cbn [byteswap_record itemsize]; intros Hok Hlen.
  - apply length_swap_fields.
  - pose proof (width_pos (base d)).
    apply (length_swap_elements d (Z.to_nat (shape d))); [lia |].
    rewrite Hlen. unfold data_itemsize. lia.
  - pose proof (width_pos (base d)). destruct Hok as [Hh Hs].
    rewrite length_app, length_swap_fields.
    rewrite (length_swap_elements d (Z.to_nat (shape d))); [| lia |].
    + rewrite length_take, length_drop. lia.
    + rewrite length_drop, Hlen. unfold data_itemsize. lia.
Qed.

Lemma words_concat (w k : nat) (rs : list (list byte)) :
  (0 < w)%nat ->
  Forall (fun r => length r = (k * w)%nat) rs ->
  words w (concat rs) = concat (List.map (words w) rs).
Proof.
  intros Hw Hrs. unfold words.
  transitivity (List.map le_decode (concat (List.map (chunks w) rs)));
    [| rewrite List.concat_map, List.map_map; reflexivity].
  f_equal.
  assert (concat rs = concat (concat (List.map (chunks w) rs))) as ->.
  { induction Hrs as [|r rs Hr _ IH]; simpl; [reflexivity |].
    rewrite concat_app, <- IH.
    destruct (chunks_exact k w r Hw Hr) as (_ & _ & ->). reflexivity. }
  apply chunks_concat; [exact Hw |].
  apply Forall_concat, Forall_forall. intros cs Hcs.
  apply list_elem_of_In, in_map_iff in Hcs as (r & <- & Hr).
  rewrite Forall_forall in Hrs.
  destruct (chunks_exact k w r Hw (Hrs r (proj2 (list_elem_of_In _ _) Hr))) as (_ & Hu & _).
  exact Hu.
Qed.

Lemma of_words_concat (w : nat) (wss : list (list Z)) :
  of_words w (concat wss) = concat (List.map (of_words w) wss).
Proof.
  unfold of_words. induction wss as [|ws wss IH]; simpl; [reflexivity |].
  rewrite List.map_app, concat_app, IH. reflexivity.
Qed.

Lemma records_of_buffer (st : state) (a : ndarray) (rs : list (list byte)) :
  0 < itemsize (arr_dtype a) ->
  bufs st !! arr_buf a = Some (concat rs) ->
  Forall (fun r => length r = Z.to_nat (itemsize (arr_dtype a))) rs ->
  records st a = rs.
Proof.
  intros Hpos Hbuf Hrs. unfold records. rewrite Hbuf. cbn [from_option id].
  apply chunks_concat; [lia | exact Hrs].
Qed.

(** [decode] on a buffer of whole regions: every region is decoded by
    itself, in the order of the buffer. *)
Lemma decode_run (self : AbstractIndexer) (raws : list (list byte))
    (b : nat) (st : state) :
  0 < item_size (header_descriptor (spec self)) ->
  0 < samples (data_descriptor (spec self)) ->
  bufs st !! b = Some (concat raws) ->
  Forall (fun r => length r = Z.to_nat (itemsize (record_dtype self))) raws ->
  exists a st',
    decode self b st = (Ok a, st')
    /\ records st' a = List.map (decode_record self) raws
    /\ arr_shape a = [Z.of_nat (length raws)]
    /\ log st' = log st.
Proof.
  intros Hh Hs Hbuf Hraws.
  set (h := header_descriptor (spec self)) in *.
  remember (data_descriptor_dtype (data_descriptor (spec self))) as d eqn:Hd.
  assert (shape d = samples (data_descriptor (spec self))) as Hshape by (subst d; reflexivity).
  assert (base d = storage (data_format (data_descriptor (spec self)))) as Hbase
    by (subst d; reflexivity).
  pose proof (width_pos (base d)) as Hw.
  assert (0 < data_itemsize d) as Hdsz by (unfold data_itemsize; nia).
  unfold decode, decode_record, record_dtype in *.
  destruct (cls self).
  - (* whole traces *)
    unfold TraceIndexer_decode, trace_dtype in *. fold h in Hraws |- *.
    rewrite <- Hd in *.
    assert (0 < itemsize (DTrace h d)) as Hpos by (cbn [itemsize]; lia).
    assert (forall r, length r = Z.to_nat (itemsize (DTrace h d)) ->
              length (byteswap_record (DTrace h d) r) = Z.to_nat (itemsize (DTrace h d)))
      as Hswap.
    { intros r Hr. rewrite length_byteswap_record; [exact Hr | split; lia | exact Hr]. }
    pose proof (Forall_map_length _ _ _ Hswap Hraws) as Hswapped.
    pose (a0 := {| arr_buf := b; arr_dtype := DTrace h d;
                   arr_shape := [Z.of_nat (length raws)] |}).
    run_M. rewrite (frombuffer_run b (DTrace h d) raws st Hpos Hbuf Hraws).
    unfold byteswap_inplace. run_M.
    rewrite (map_records_run _ a0 raws st Hpos Hbuf Hraws).
    cbn [arr_buf arr_dtype].
    destruct (decide (data_format (data_descriptor (spec self)) = IBM32)) as [Hibm | Hibm].
    + assert (width (base d) = 4) as Hw4 by (rewrite Hbase, Hibm; reflexivity).
      set (f := fun r => set_data h d r (List.map ibm2ieee (get_data h d r))).
      assert (forall r, length r = Z.to_nat (itemsize (DTrace h d)) ->
                length (f r) = Z.to_nat (itemsize (DTrace h d))) as Hf.
      { intros r Hr.
        destruct (ibm_record_frame h d r (Z.to_nat (item_size h)) 4%nat) as (Hl & _);
          [reflexivity | rewrite Hw4; reflexivity | lia
          | rewrite Hr; cbn [itemsize]; unfold data_itemsize; rewrite Hw4; lia |].
        unfold f. rewrite Hl. exact Hr. }
      unfold trace_ibm2ieee_inplace. cbn [arr_dtype]. run_M.
      rewrite (map_records_run _ a0 (List.map (byteswap_record (DTrace h d)) raws)
                 _ Hpos (lookup_insert_eq _ _ _) Hswapped).
      unfold view. cbn [arr_dtype arr_buf arr_shape bufs log].
      assert (itemsize (DTrace h {| base := FLOAT32; shape := shape d |})
              = itemsize (DTrace h d)) as Hsame
        by (cbn [itemsize]; unfold data_itemsize; cbn [base shape]; rewrite Hw4; reflexivity).
      rewrite Hsame, Z.eqb_refl. run_M.
      eexists. eexists. split; [reflexivity |].
      split; [| split; reflexivity].
      rewrite List.map_map.
      apply records_of_buffer; cbn [arr_dtype arr_buf bufs]; rewrite ?Hsame.
      * exact Hpos.
      * rewrite lookup_insert_eq. reflexivity.
      * apply Forall_map_length; [| exact Hraws].
        intros r Hr. apply Hf, Hswap, Hr.
    + run_M. eexists. eexists. split; [reflexivity |].
      split; [| split; reflexivity].
      apply records_of_buffer; cbn [arr_dtype arr_buf bufs].
      * exact Hpos.
      * apply lookup_insert_eq.
      * exact Hswapped.
  - (* headers *)
    unfold HeaderIndexer_decode. fold h in Hraws |- *.
    assert (0 < itemsize (DHeader h)) as Hpos by (cbn [itemsize]; lia).
    assert (forall r, length r = Z.to_nat (itemsize (DHeader h)) ->
              length (byteswap_record (DHeader h) r) = Z.to_nat (itemsize (DHeader h)))
      as Hswap.
    { intros r Hr. rewrite length_byteswap_record; [exact Hr | exact I | exact Hr]. }
    pose proof (Forall_map_length _ _ _ Hswap Hraws) as Hswapped.
    pose (a0 := {| arr_buf := b; arr_dtype := DHeader h;
                   arr_shape := [Z.of_nat (length raws)] |}).
    run_M. rewrite (frombuffer_run b (DHeader h) raws st Hpos Hbuf Hraws).
    unfold byteswap_inplace. run_M.
    rewrite (map_records_run _ a0 raws st Hpos Hbuf Hraws).
    cbn [arr_buf arr_dtype].
    eexists. eexists. split; [reflexivity |].
    split; [| split; reflexivity].
    assert (List.map (fun raw => if decide (data_format (data_descriptor (spec self)) = IBM32)
                                 then byteswap_record (DHeader h) raw
                                 else byteswap_record (DHeader h) raw) raws
            = List.map (byteswap_record (DHeader h)) raws) as ->
      by (apply List.map_ext; intros r; destruct (decide _); reflexivity).
    apply records_of_buffer; cbn [arr_dtype arr_buf bufs].
    + exact Hpos.
    + apply lookup_insert_eq.
    + exact Hswapped.
  - (* samples *)
    unfold DataIndexer_decode. rewrite <- Hd in *.
    assert (0 < itemsize (DData d)) as Hpos by (cbn [itemsize]; lia).
    assert (forall r, length r = Z.to_nat (itemsize (DData d)) ->
              length (byteswap_record (DData d) r) = Z.to_nat (itemsize (DData d)))
      as Hswap.
    { intros r Hr. rewrite length_byteswap_record; [exact Hr | lia | exact Hr]. }
    pose proof (Forall_map_length _ _ _ Hswap Hraws) as Hswapped.
    pose (a0 := {| arr_buf := b; arr_dtype := DData d;
                   arr_shape := [Z.of_nat (length raws)] |}).
    run_M. rewrite (frombuffer_run b (DData d) raws st Hpos Hbuf Hraws).
    unfold byteswap_inplace. run_M.
    rewrite (map_records_run _ a0 raws st Hpos Hbuf Hraws).
    cbn [arr_buf arr_dtype].
    destruct (decide (data_format (data_descriptor (spec self)) = IBM32)) as [Hibm | Hibm].
    + assert (width (base d) = 4) as Hw4 by (rewrite Hbase, Hibm; reflexivity).
      unfold ibm2ieee_array. cbn [arr_dtype arr_buf arr_shape]. run_M.
      cbn [bufs log]. rewrite lookup_insert_eq. cbn [from_option id].
      eexists. eexists. split; [reflexivity |].
      split; [| split; reflexivity].
      set (g := fun r => of_words 4 (List.map ibm2ieee (words (Z.to_nat (width (base d))) r))).
      assert (Z.to_nat (itemsize (DData d)) = (Z.to_nat (shape d) * Z.to_nat (width (base d)))%nat)
        as Hisz by (cbn [itemsize]; unfold data_itemsize; lia).
      rewrite Hisz in Hswapped.
      rewrite (words_concat _ (Z.to_nat (shape d))) by (lia || exact Hswapped).
      rewrite List.concat_map, of_words_concat, !List.map_map.
      apply records_of_buffer; cbn [arr_dtype arr_buf bufs].
      * cbn [itemsize]. unfold data_itemsize. cbn [base shape width]. lia.
      * rewrite lookup_insert_eq. reflexivity.
      * apply Forall_forall. intros r' Hr'.
        apply list_elem_of_In, in_map_iff in Hr' as (r & <- & Hr).
        rewrite length_of_words, length_map, length_words.
        rewrite length_byteswap_record;
          [| cbn; lia | rewrite Forall_forall in Hraws; apply Hraws, list_elem_of_In, Hr].
        rewrite Forall_forall in Hraws.
        rewrite (Hraws r (proj2 (list_elem_of_In _ _) Hr)), Hisz.
        rewrite Nat.div_mul by lia.
        cbn [itemsize]. unfold data_itemsize. cbn [base shape width]. lia.
    + run_M. eexists. eexists. split; [reflexivity |].
      split; [| split; reflexivity].
      apply records_of_buffer; cbn [arr_dtype arr_buf bufs].
      * exact Hpos.
      * apply lookup_insert_eq.
      * exact Hswapped.
Qed.

(** ** Fetching a list of indices *)

(** C2, as stated, fails: over the small file of three traces, the list
    [[1, 0]] is answered with the records of trace 0 and then trace 1, the
    order of the file and not of the list; the list [[0, 0]] is answered
    with one record, not two; and the list [[1]] is answered with the
    record itself, an array of no axis and so of no length. *)
Lemma fetch_order_and_duplicates :
  let self := small_indexer TraceIndexer in
  let record i := decode_record self (trace_bytes self small_file i) in
  (exists a st',
     fetch self [1; 0] empty_state = (Ok a, st')
     /\ records st' a = [record 0; record 1]
     /\ records st' a <> [record 1; record 0])
  /\ (exists a st',
        fetch self [0; 0] empty_state = (Ok a, st')
        /\ records st' a = [record 0]
        /\ arr_shape a = [])
  /\ (exists a st',
        fetch self [1] empty_state = (Ok a, st')
        /\ records st' a = [record 1]
        /\ arr_shape a = []).
Proof.
  split; [| split].
  - eexists. eexists. split; [vm_compute; reflexivity |].
    split; [vm_compute; reflexivity | vm_compute; discriminate].
  - eexists. eexists. split; [vm_compute; reflexivity |].
    split; vm_compute; reflexivity.
  - eexists. eexists. split; [vm_compute; reflexivity |].
    split; vm_compute; reflexivity.
Qed.

(** C2, amended: for every non-empty list of in-bounds trace indices in
    strictly increasing order, over a file that holds the traces,
    indexing returns the decoded record of trace [I[k]] at every position
    [k]: an array of [len(I)] records when the list has two indices or
    more, and the one record itself, squeezed to no axis, when it has
    one. *)
Theorem fetch_increasing (self : AbstractIndexer) (content : list byte)
    (indices : list Z) (st : state) :
  holds_traces self content ->
  indices <> [] ->
  Forall (in_bounds self) indices ->
  increasing indices ->
  exists a st',
    fetch self indices st = (Ok a, st')
    /\ __getitem__ self (IList indices) st = post_process self a st'
    /\ records st' a
       = List.map (fun i => decode_record self (trace_bytes self content i)) indices
    /\ arr_shape a = match indices with
                     | [_] => []
                     | _ => [Z.of_nat (length indices)]
                     end.
Proof.
  intros Hfile Hne Hin Hinc.
  destruct (region_sizes self content Hfile) as (Hsz & Hrs & Hfit).
  pose proof Hfile as (Hfs & Hoff & Hh & Hs & Hlen).
  assert (chain (url self) 0 (List.map (range_of self) indices)) as Hchain.
  { apply (range_of_chain self content); [exact Hfile | exact Hinc |].
    destruct indices as [|i rest]; [exact I |].
    apply Forall_cons in Hin as [Hi _]. unfold in_bounds in Hi.
    assert (0 <= stride self) by lia. nia. }
  set (st1 := {| bufs := bufs st;
                 log := log st ++ [EvByteRanges
                   (List.map (fun t => snd (fst t)) (List.map (range_of self) indices))
                   (List.map snd (List.map (range_of self) indices))] |}).
  destruct (merge_cat_file_chain (fs self) (url self) content
              (List.map (range_of self) indices) default_block_size st1 Hfs Hchain)
    as (ev & Hmerge).
  rewrite bytes_of_range_of in Hmerge.
  set (b := fresh (dom (bufs st1))) in *.
  set (st2 := {| bufs := <[b := concat (List.map (trace_bytes self content) indices)]> (bufs st1);
                 log := log st1 ++ [ev] |}) in *.
  destruct (decode_run self (List.map (trace_bytes self content) indices) b st2 Hh Hs)
    as (a & st3 & Hdec & Hrec & Hshape & _).
  { apply lookup_insert_eq. }
  { apply Forall_forall. intros r Hr.
    apply list_elem_of_In, in_map_iff in Hr as (i & <- & Hi).
    apply (length_trace_bytes self content i Hfile).
    rewrite Forall_forall in Hin. apply Hin, list_elem_of_In, Hi. }
  assert (fetch self indices st = (Ok (squeeze a), st3)) as Hfetch.
  { unfold fetch. rewrite indices_to_byte_ranges_range_of. run_M.
    fold st1. rewrite Hmerge. cbn beta iota. rewrite Hdec. reflexivity. }
  exists (squeeze a), st3.
  split; [exact Hfetch |].
  split.
  { unfold __getitem__. run_M.
    replace (bounds_check indices (max_value self) (kind self)) with (Ok tt).
    - cbn beta iota. rewrite Hfetch. reflexivity.
    - symmetry. apply bounds_check_ok_iff. exact Hin. }
  split.
  { rewrite List.map_map in Hrec. exact Hrec. }
  unfold squeeze. cbn [arr_shape]. rewrite Hshape, length_map.
  destruct indices as [|i [|j rest]]; [contradiction | reflexivity |].
  cbn [List.filter length].
  replace (Z.of_nat (S (S (length rest))) =? 1) with false
    by (symmetry; apply Z.eqb_neq; lia).
  reflexivity.
Qed.

(** The amended C2 at the indices [[0, 2]] of the small file, for the
    indexer of whole traces. *)
Lemma fetch_increasing_witness :
  exists a st',
    fetch (small_indexer TraceIndexer) [0; 2] empty_state = (Ok a, st')
    /\ records st' a
       = [[x01; x00; x00; x00; x80; x3f]; [x03; x00; x00; x00; x00; xc1]]
    /\ arr_shape a = [2].
Proof.
  destruct (fetch_increasing (small_indexer TraceIndexer) small_file [0; 2]
              empty_state)
    as (a & st' & Hfetch & _ & Hrec & Hshape).
  - repeat split; (reflexivity || (vm_compute; discriminate)).
  - discriminate.
  - repeat constructor; vm_compute; discriminate.
  - repeat split.
  - exists a, st'. split; [exact Hfetch |]. split; [exact Hrec | exact Hshape].
Defined.

End IndexingFacts.

(** * Properties of the registry *)

Section RegistryFacts.
Import Schema Py Registry.

(** ** Reading and copying object graphs *)

Lemma read_ref (n : nat) (h : gmap nat obj) (l : nat) (t : tree) :
  read (S n) h (VRef l) = Some t
  <-> exists o ts,
        h !! l = Some o
        /\ Forall2 (fun kv kt => read_attr n h kv = Some kt) (obj_attrs o) ts
        /\ t = TObj (obj_cls o) ts.
Proof.
  cbn [read]. split.
  - destruct (h !! l) as [o|]; [| discriminate].
    destruct (mapM _ (obj_attrs o)) as [ts|] eqn:E; [| discriminate].
    intros [= <-]. exists o, ts. split; [reflexivity |].
    split; [apply mapM_Some; exact E | reflexivity].
  - intros (o & ts & -> & Hts & ->).
    apply mapM_Some in Hts. unfold read_attr in Hts. rewrite Hts. reflexivity.
Qed.

(** A value read in a heap is read in every heap that keeps its
    objects. *)
Lemma read_weaken (n : nat) (h h' : gmap nat obj) (v : val) (t : tree) :
  h ⊆ h' -> read n h v = Some t -> read n h' v = Some t.
Proof.
  intros Hsub. revert v t. induction n as [|n IH]; intros [a | l] t Hread;
    try exact Hread; try discriminate.
  apply read_ref in Hread as (o & ts & Hl & Hts & ->).
  apply read_ref. exists o, ts.
  split; [eapply lookup_weaken; eassumption |].
  split; [| reflexivity].
  eapply Forall2_impl; [exact Hts |].
  intros [k v] kt. unfold read_attr. cbn [fst snd].
  destruct (read n h v) as [t' |] eqn:E; [| discriminate].
  rewrite (IH v t' E). trivial.
Qed.

Lemma elem_of_refs (o : obj) (l : nat) :
  l ∈ refs o <-> exists k, (k, VRef l) ∈ obj_attrs o.
Proof.
  unfold refs. rewrite list_elem_of_omap. split.
  - intros ([k v] & Hin & Hv). cbn [snd] in Hv. destruct v; [discriminate |].
    injection Hv as ->. exists k. exact Hin.
  - intros (k & Hin). exists (k, VRef l). split; [exact Hin | reflexivity].
Qed.

Lemma extends_refl (h : gmap nat obj) : extends h h.
Proof.
  split; [reflexivity |]. intros x o Hx Hnew. exfalso.
  apply Hnew, elem_of_dom. eauto.
Qed.

Lemma extends_trans (h1 h2 h3 : gmap nat obj) :
  extends h1 h2 -> extends h2 h3 -> extends h1 h3.
Proof.
  intros [Hs12 Hn12] [Hs23 Hn23].
  split; [etransitivity; eassumption |].
  intros x o Hx Hnew.
  destruct (h2 !! x) as [o2|] eqn:E2.
  - pose proof (lookup_weaken _ _ _ _ E2 Hs23) as Hx'.
    rewrite Hx in Hx'. injection Hx' as ->. eapply Hn12; eassumption.
  - eapply Forall_impl; [apply (Hn23 x o Hx) |].
    + apply not_elem_of_dom. exact E2.
    + intros l Hl Hin. apply Hl. eapply subseteq_dom; eassumption.
Qed.

(** Copying members: when every member can be read, the copy is made,
    the members of the copy are new and read as the members did. *)
Lemma copy_attrs_spec (n : nat) :
  (forall h v t, read n h v = Some t ->
     exists h' v',
       deepcopy n h v = Some (h', v')
       /\ extends h h' /\ new_in h v' /\ (forall a, v = VAtom a -> v' = v)
       /\ (forall l, v = VRef l -> exists l', v' = VRef l')
       /\ read n h' v' = Some t) ->
  forall attrs h ts,
    Forall2 (fun kv kt => read_attr n h kv = Some kt) attrs ts ->
    exists h' attrs',
      copy_attrs (deepcopy n) h attrs = Some (h', attrs')
      /\ extends h h'
      /\ Forall (fun kv => new_in h (snd kv)) attrs'
      /\ Forall2 (fun kv kt => read_attr n h' kv = Some kt) attrs' ts.
Proof.
  intros Hcopy attrs. induction attrs as [|[k v] attrs IH]; intros h ts Hts.
  - apply Forall2_nil_inv_l in Hts as ->.
    exists h, []. split; [reflexivity |]. split; [apply extends_refl |].
    split; constructor.
  - apply Forall2_cons_inv_l in Hts as (kt & ts' & Hkt & Hts' & ->).
    unfold read_attr in Hkt. cbn [fst snd] in Hkt.
    destruct (read n h v) as [t|] eqn:Hv; [| discriminate].
    injection Hkt as <-.
    destruct (Hcopy h v t Hv) as (h1 & v' & Hrun & Hext1 & Hnew & _ & _ & Hread).
    destruct (IH h1 ts') as (h2 & attrs' & Hrun2 & Hext2 & Hnew2 & Hread2).
    { eapply Forall2_impl; [exact Hts' |].
      intros [k2 v2] kt2. unfold read_attr. cbn [fst snd].
      destruct (read n h v2) as [t2|] eqn:E; [| discriminate].
      rewrite (read_weaken n h h1 v2 t2 (proj1 Hext1) E). trivial. }
    exists h2, ((k, v') :: attrs').
    split; [cbn [copy_attrs]; rewrite Hrun, Hrun2; reflexivity |].
    split; [eapply extends_trans; eassumption |].
    split.
    + constructor; [exact Hnew |].
      eapply Forall_impl; [exact Hnew2 |].
      intros [k2 [a | l2]]; cbn; [trivial |].
      intros Hl2 Hin. apply Hl2. eapply subseteq_dom; [apply Hext1 | exact Hin].
    + constructor; [| exact Hread2].
      unfold read_attr. cbn [fst snd].
      rewrite (read_weaken n h1 h2 v' t (proj1 Hext2) Hread). reflexivity.
Qed.

(** A deep copy of a value that can be read is made; it reads as the
    original does, and it is new: the heap is only extended. *)
Lemma deepcopy_spec (n : nat) (h : gmap nat obj) (v : val) (t : tree) :
  read n h v = Some t ->
  exists h' v',
    deepcopy n h v = Some (h', v')
    /\ extends h h' /\ new_in h v' /\ (forall a, v = VAtom a -> v' = v)
    /\ (forall l, v = VRef l -> exists l', v' = VRef l')
    /\ read n h' v' = Some t.
Proof.
  revert h v t. induction n as [|n IH]; intros h [a | l] t Hread.
  - exists h, (VAtom a). repeat split; try apply extends_refl; try exact Hread; eauto; discriminate.
  - discriminate.
  - exists h, (VAtom a). repeat split; try apply extends_refl; try exact Hread; eauto; discriminate.
  - apply read_ref in Hread as (o & ts & Hl & Hts & ->).
    destruct (copy_attrs_spec n IH (obj_attrs o) h ts Hts)
      as (h1 & attrs' & Hrun & [Hsub Hnewobj] & Hnew & Hread).
    set (l' := fresh (dom h1)).
    assert (l' ∉ dom h1) as Hfresh by apply is_fresh.
    assert (h1 !! l' = None) as Hnone by (apply not_elem_of_dom; exact Hfresh).
    exists (<[l' := mkObj (obj_cls o) attrs']> h1), (VRef l').
    split; [cbn [deepcopy]; rewrite Hl, Hrun; reflexivity |].
    split; [split |].
    + etransitivity; [exact Hsub | apply insert_subseteq; exact Hnone].
    + intros x o' Hx Hxnew. destruct (decide (x = l')) as [-> | Hne].
      * rewrite lookup_insert_eq in Hx. injection Hx as <-.
        apply Forall_forall. intros l2 Hl2.
        apply elem_of_refs in Hl2 as (k & Hin). cbn [obj_attrs] in Hin.
        rewrite Forall_forall in Hnew. exact (Hnew _ Hin).
      * rewrite lookup_insert_ne in Hx by congruence. eapply Hnewobj; eassumption.
    + split; [| split; [discriminate | split; [eauto |]]].
      * cbn. intros Hin. apply Hfresh. eapply subseteq_dom; eassumption.
      * apply read_ref. exists (mkObj (obj_cls o) attrs'), ts.
        split; [apply lookup_insert_eq |]. split; [| reflexivity].
        cbn [obj_attrs].
        eapply Forall2_impl; [exact Hread |].
        intros [k v] kt. unfold read_attr. cbn [fst snd].
        destruct (read n h1 v) as [t'|] eqn:E; [| discriminate].
        rewrite (read_weaken n h1 _ v t' (insert_subseteq _ _ _ Hnone) E). trivial.
Qed.

(** ** Mutations of a copy *)

(** Everything met from a new object, in a heap that extends [h0], is
    new. *)
Lemma reach_new (h0 h : gmap nat obj) (v : val) (l : nat) :
  extends h0 h -> reach h v l -> new_in h0 v -> l ∉ dom h0.
Proof.
  intros [_ Hnewobj]. induction 1 as [l | l o k v l' Hl Hin _ IH]; intros Hv.
  - exact Hv.
  - apply IH. destruct v as [a | r]; [exact I |]. cbn.
    specialize (Hnewobj l o Hl Hv). rewrite Forall_forall in Hnewobj.
    apply Hnewobj, elem_of_refs. exists k. apply list_elem_of_In. exact Hin.
Qed.

Lemma store_extends (h0 h : gmap nat obj) (l : nat) (o' : obj) :
  extends h0 h -> l ∉ dom h0 ->
  Forall (fun l2 => l2 ∉ dom h0) (refs o') ->
  extends h0 (<[l := o']> h).
Proof.
  intros [Hsub Hnewobj] Hl Ho'. split.
  - apply insert_subseteq_r; [apply not_elem_of_dom; exact Hl | exact Hsub].
  - intros x o Hx Hxnew. destruct (decide (x = l)) as [-> | Hne].
    + rewrite lookup_insert_eq in Hx. injection Hx as <-. exact Ho'.
    + rewrite lookup_insert_ne in Hx by congruence. eapply Hnewobj; eassumption.
Qed.

(** A mutation of a new descriptor keeps the objects that were there
    before it was made. *)
Lemma mutation_extends (h0 h h' : gmap nat obj) (root : nat) :
  extends h0 h -> root ∉ dom h0 ->
  mutation (dom h0) root h h' -> extends h0 h'.
Proof.
  intros Hext Hroot Hmut.
  destruct Hmut as [h l name v Hreach Hv | h l o' Hreach Ho'].
  - pose proof (reach_new h0 h _ _ Hext Hreach Hroot) as Hl.
    unfold setattr. destruct (h !! l) as [o|] eqn:Hlook; [| exact Hext].
    apply store_extends; [exact Hext | exact Hl |].
    apply Forall_forall. intros l2 Hl2.
    apply elem_of_refs in Hl2 as (k & Hin). cbn [obj_attrs] in Hin.
    apply list_elem_of_In, in_map_iff in Hin as ([k0 v0] & Heq & Hin0).
    cbn [fst] in Heq. destruct (String.eqb k0 name).
    + injection Heq as _ ->. apply Hv. reflexivity.
    + injection Heq as -> ->.
      pose proof (proj2 Hext l o Hlook Hl) as Hrefs.
      rewrite Forall_forall in Hrefs. apply Hrefs, elem_of_refs.
      exists k. apply list_elem_of_In. exact Hin0.
  - pose proof (reach_new h0 h _ _ Hext Hreach Hroot) as Hl.
    apply store_extends; assumption.
Qed.

Lemma mutations_extends (h0 h h' : gmap nat obj) (root : nat) :
  extends h0 h -> root ∉ dom h0 ->
  mutations (dom h0) root h h' -> extends h0 h'.
Proof.
  intros Hext Hroot Hmuts. induction Hmuts as [h | h1 h2 h3 Hmut _ IH].
  - exact Hext.
  - apply IH. eapply mutation_extends; eassumption.
Qed.

(** ** [get_spec] *)

(** [get_spec] of a registered standard whose descriptor can be read:
    the descriptor is copied into new objects and the copy handed out. *)
Lemma get_spec_run (spec_type : SegyStandard) (st : state) (l : nat) (t : tree) :
  registry st !! spec_type = Some l ->
  read depth_limit (heap st) (VRef l) = Some t ->
  exists l' h',
    get_spec spec_type st = (Ok l', {| heap := h'; registry := registry st |})
    /\ extends (heap st) h'
    /\ (l' ∉ dom (heap st))
    /\ read depth_limit h' (VRef l') = Some t.
Proof.
  intros Hreg Hread.
  destruct (deepcopy_spec depth_limit (heap st) (VRef l) t Hread)
    as (h' & v' & Hrun & Hext & Hnew & _ & Href & Hread').
  destruct (Href l eq_refl) as (l' & ->).
  exists l', h'. unfold get_spec. rewrite Hreg, Hrun.
  repeat split; try assumption; apply Hext.
Qed.

(** C9: [get_spec] of a registered standard returns a deep copy of the
    stored descriptor: an object of a new identity, distinct from the
    stored one, whose value equals the stored value; the registry and the
    stored descriptor are as before; and whatever the caller then does to
    the descriptor it was handed, the stored descriptor keeps its value
    and the next [get_spec] returns, again in a new object, the value
    that was registered. *)
Theorem get_spec_deep_copy (spec_type : SegyStandard) (st : state)
    (l : nat) (t : tree) :
  registry st !! spec_type = Some l ->
  read depth_limit (heap st) (VRef l) = Some t ->
  exists l' st',
    get_spec spec_type st = (Ok l', st')
    /\ l' <> l
    /\ (l' ∉ dom (heap st))
    /\ registry st' = registry st
    /\ read depth_limit (heap st') (VRef l') = Some t
    /\ forall h'',
         mutations (dom (heap st)) l' (heap st') h'' ->
         read depth_limit h'' (VRef l) = Some t
         /\ exists l2 st2,
              get_spec spec_type {| heap := h''; registry := registry st' |}
              = (Ok l2, st2)
              /\ l2 <> l /\ (l2 ∉ dom h'')
              /\ read depth_limit (heap st2) (VRef l2) = Some t.
Proof.
  intros Hreg Hread.
  assert (l ∈ dom (heap st)) as Hl.
  { unfold depth_limit in Hread. apply read_ref in Hread as (o & _ & Ho & _).
    apply elem_of_dom. eauto. }
  destruct (get_spec_run spec_type st l t Hreg Hread)
    as (l' & h' & Hrun & Hext & Hnew & Hread').
  exists l', {| heap := h'; registry := registry st |}.
  split; [exact Hrun |].
  split; [intros ->; contradiction |].
  split; [exact Hnew |].
  split; [reflexivity |].
  split; [exact Hread' |].
  cbn [heap registry]. intros h'' Hmuts.
  pose proof (mutations_extends (heap st) h' h'' l' Hext Hnew Hmuts) as [Hsub _].
  pose proof (read_weaken _ _ _ _ _ Hsub Hread) as Hkept.
  split; [exact Hkept |].
  destruct (get_spec_run spec_type {| heap := h''; registry := registry st |} l t
              Hreg Hkept)
    as (l2 & h2 & Hrun2 & _ & Hnew2 & Hread2).
  cbn [heap registry] in *.
  exists l2, {| heap := h2; registry := registry st |}.
  split; [exact Hrun2 |].
  split; [| split; [exact Hnew2 | exact Hread2]].
  intros ->. apply Hnew2. eapply subseteq_dom; eassumption.
Qed.

(** C9 on the registry of the package and the Rev0 standard: the copy is
    a new object that reads as the Rev0 descriptor, and after the caller
    sets its [segy_standard] to custom, the stored descriptor and the
    next copy read as the Rev0 descriptor still. *)
Lemma get_spec_deep_copy_witness :
  exists l' st',
    get_spec REV0 rev0_registered = (Ok l', st')
    /\ l' <> 105%nat
    /\ read depth_limit (heap st') (VRef l') = Some rev0_segy
    /\ let h'' := setattr l' "segy_standard"
                    (VAtom (AEnum "SegyStandard.CUSTOM")) (heap st') in
       read depth_limit h'' (VRef 105%nat) = Some rev0_segy
       /\ exists l2 st2,
            get_spec REV0 {| heap := h''; registry := registry st' |} = (Ok l2, st2)
            /\ read depth_limit (heap st2) (VRef l2) = Some rev0_segy.
Proof.
  destruct (get_spec_deep_copy REV0 rev0_registered 105%nat rev0_segy)
    as (l' & st' & Hrun & Hne & _ & _ & Hread & Hmut).
  - vm_compute. reflexivity.
  - vm_compute. reflexivity.
  - exists l', st'. split; [exact Hrun |]. split; [exact Hne |].
    split; [exact Hread |].
    intros h''.
    destruct (Hmut h'') as (Hkept & l2 & st2 & Hrun2 & _ & _ & Hread2).
    + eapply mutations_cons; [| apply mutations_nil].
      apply mutation_setattr; [apply reach_here | intros l2 Heq; discriminate Heq].
    + split; [exact Hkept |]. exists l2, st2. split; [exact Hrun2 | exact Hread2].
Defined.

(** Were the stored object itself handed out, as [get_spec_shared] does,
    the same assignment would change the registered descriptor. *)
Lemma get_spec_shared_aliases :
  exists l,
    get_spec_shared REV0 rev0_registered = (Ok l, rev0_registered)
    /\ read depth_limit
         (setattr l "segy_standard" (VAtom (AEnum "SegyStandard.CUSTOM"))
            (heap rev0_registered))
         (VRef 105%nat)
       <> Some rev0_segy.
Proof.
  exists 105%nat. split; [vm_compute; reflexivity |].
  vm_compute. discriminate.
Qed.

End RegistryFacts.

(** * Properties of indexing with any list or slice *)

Section SelectionFacts.
Import Schema Ibm Py Fsspec Indexing Examples Selection.

(** ** Sorting the ranges of arbitrary index lists *)

Lemma range_of_bytes (self : AbstractIndexer) (i : Z) :
  range_of self i = (url self, first_byte self i, end_byte self i).
Proof. reflexivity. Qed.

Lemma tuple_leb_range_of (self : AbstractIndexer) (i j : Z) :
  0 < stride self ->
  tuple_leb (range_of self i) (range_of self j) = (i <=? j).
Proof.
  intros Hst. rewrite !range_of_bytes. unfold tuple_leb, end_byte, first_byte.
  rewrite string_compare_refl.
  destruct (Z.leb_spec i j) as [Hle | Hgt].
  - destruct (Z.eq_dec i j) as [-> | Hne].
    + rewrite Z.eqb_refl, Z.leb_refl, orb_true_r. reflexivity.
    + replace (_ <? _) with true by (symmetry; apply Z.ltb_lt; nia). reflexivity.
  - replace (_ <? _) with false by (symmetry; apply Z.ltb_ge; nia).
    replace (_ =? _) with false by (symmetry; apply Z.eqb_neq; nia).
    reflexivity.
Qed.

Lemma insert_sorted_range_of (self : AbstractIndexer) (i : Z) (l : list Z) :
  0 < stride self ->
  insert_sorted (range_of self i) (List.map (range_of self) l)
  = List.map (range_of self) (insert_index i l).
Proof.
  intros Hst. induction l as [|j l IH]; [reflexivity |].
  cbn [List.map insert_sorted insert_index].
  rewrite tuple_leb_range_of by exact Hst.
  destruct (i <=? j); [reflexivity |].
  cbn [List.map]. rewrite IH. reflexivity.
Qed.

(** Sorting the ranges of a list of indices gives the ranges of the
    indices in ascending order. *)
Lemma sorted_range_of (self : AbstractIndexer) (l : list Z) :
  0 < stride self ->
  sorted (List.map (range_of self) l) = List.map (range_of self) (ascending l).
Proof.
  intros Hst. unfold sorted, ascending.
  induction l as [|i l IH]; [reflexivity |].
  cbn [List.map List.fold_right]. rewrite IH.
  apply insert_sorted_range_of. exact Hst.
Qed.

Lemma insert_index_Forall (P : Z -> Prop) (i : Z) (l : list Z) :
  P i -> Forall P l -> Forall P (insert_index i l).
Proof.
  intros Hi. induction 1 as [|j l Hj Hl IH]; simpl.
  - repeat constructor. exact Hi.
  - destruct (i <=? j); repeat constructor; assumption.
Qed.

Lemma ascending_Forall (P : Z -> Prop) (l : list Z) :
  Forall P l -> Forall P (ascending l).
Proof.
  unfold ascending. induction 1 as [|i l Hi Hl IH]; simpl; [constructor |].
  apply insert_index_Forall; assumption.
Qed.

Lemma insert_index_ascending (prev i : Z) (l : list Z) :
  prev <= i -> ascending_from prev l -> ascending_from prev (insert_index i l).
Proof.
  revert prev. induction l as [|j l IH]; intros prev Hi Hl; simpl.
  - split; [exact Hi | exact I].
  - destruct Hl as [Hj Hl]. destruct (Z.leb_spec i j) as [Hle | Hgt].
    + split; [exact Hi |]. split; [exact Hle | exact Hl].
    + split; [exact Hj |]. apply IH; [lia | exact Hl].
Qed.

Lemma ascending_from_weaken (prev prev' : Z) (l : list Z) :
  prev' <= prev -> ascending_from prev l -> ascending_from prev' l.
Proof. destruct l as [|i l]; [trivial |]. intros Hle [Hi Hl]. split; [lia | exact Hl]. Qed.

Lemma ascending_ascending (l : list Z) :
  match ascending l with
  | [] => True
  | i :: rest => ascending_from i rest
  end.
Proof.
  unfold ascending. induction l as [|i l IH]; [exact I |].
  cbn [List.fold_right].
  destruct (List.fold_right insert_index [] l) as [|j rest]; [exact I |].
  cbn [insert_index]. destruct (Z.leb_spec i j) as [Hle | Hgt].
  - split; [exact Hle | exact IH].
  - apply insert_index_ascending; [lia | exact IH].
Qed.

Lemma length_insert_index (i : Z) (l : list Z) :
  length (insert_index i l) = S (length l).
Proof.
  induction l as [|j l IH]; [reflexivity |]. simpl.
  destruct (i <=? j); simpl; [| rewrite IH]; reflexivity.
Qed.

Lemma length_ascending (l : list Z) : length (ascending l) = length l.
Proof.
  unfold ascending. induction l as [|i l IH]; [reflexivity |].
  cbn [List.fold_right]. rewrite length_insert_index, IH. reflexivity.
Qed.

Lemma distinct_from_Forall (P : Z -> Prop) (prev : Z) (l : list Z) :
  Forall P l -> Forall P (distinct_from prev l).
Proof.
  intros H. revert prev. induction H as [|i l Hi Hl IH]; intros prev; simpl; [constructor |].
  destruct (i =? prev); [apply IH | constructor; [exact Hi | apply IH]].
Qed.

Lemma selected_Forall (P : Z -> Prop) (l : list Z) :
  Forall P l -> Forall P (selected l).
Proof.
  intros H. apply ascending_Forall in H. unfold selected, distinct.
  destruct H as [|i rest Hi Hrest]; constructor; [exact Hi |].
  apply distinct_from_Forall. exact Hrest.
Qed.

(** ** Merging the ranges of ascending indices *)

Lemma trace_bytes_cat_file (self : AbstractIndexer) (content : list byte) (i : Z) :
  trace_bytes self content i
  = cat_file content (first_byte self i) (end_byte self i).
Proof. reflexivity. Qed.

(** The blocks fetched for the ranges of ascending indices, repeats among
    them, join to the regions of the indices, each once: a range that
    repeats the one before it is merged into the block that ends with
    it. *)
Lemma merge_loop_ascending (self : AbstractIndexer) (content : list byte)
    (block : Z) (J : list Z) (out : list (string * Z * Z))
    (joined : list byte) (cs j : Z) :
  holds_traces self content ->
  itemsize (record_dtype self) <= block ->
  0 <= cs <= first_byte self j ->
  end_byte self j - cs <= block ->
  ascending_from j J ->
  join (cat_ranges (fs self) out) = Ok joined ->
  join (cat_ranges (fs self)
          (merge_loop 0 (Some block) (url self) (List.map (range_of self) J) out
             (url self, cs, end_byte self j)))
  = Ok (joined ++ cat_file content cs (end_byte self j)
        ++ concat (List.map (trace_bytes self content) (distinct_from j J))).
Proof.
  intros Hfile Hblock.
  destruct (region_sizes self content Hfile) as (Hsz & Hrs & Hfit).
  pose proof Hfile as (Hfs & _).
  revert out joined cs j.
  induction J as [|i J IH]; intros out joined cs j Hcs Hcur Hasc Hout.
  - cbn [List.map merge_loop distinct_from concat]. unfold join in *.
    rewrite (join_cat_ranges_snoc _ _ content out 0 joined cs _ Hfs Hout).
    rewrite app_nil_r. reflexivity.
  - destruct Hasc as [Hji Hasc].
    cbn [List.map merge_loop]. rewrite range_of_bytes.
    rewrite String.eqb_refl. cbn [negb orb].
    cbn [distinct_from].
    destruct (Z.eqb_spec i j) as [-> | Hne].
    + replace (first_byte self j - end_byte self j >? 0) with false
        by (symmetry; rewrite Z.gtb_ltb; apply Z.ltb_ge; unfold end_byte; lia).
      replace (end_byte self j - cs >? block) with false
        by (symmetry; rewrite Z.gtb_ltb; apply Z.ltb_ge; lia).
      cbn [orb]. apply IH; assumption.
    + assert (end_byte self j <= first_byte self i) as Hgap
        by (unfold end_byte, first_byte; nia).
      destruct ((first_byte self i - end_byte self j >? 0)
                || (end_byte self i - cs >? block)) eqn:Hcond.
      * rewrite (IH (out ++ [(url self, cs, end_byte self j)])
                   (joined ++ cat_file content cs (end_byte self j))
                   (first_byte self i) i);
          [| unfold first_byte in *; nia | unfold end_byte; lia | exact Hasc
           | apply join_cat_ranges_snoc; assumption].
        cbn [List.map concat]. rewrite trace_bytes_cat_file, <- !app_assoc.
        reflexivity.
      * apply orb_false_iff in Hcond as [Hg Hb].
        rewrite Z.gtb_ltb in Hg, Hb. apply Z.ltb_ge in Hg, Hb.
        assert (first_byte self i = end_byte self j) as Heq by lia.
        rewrite (IH out joined cs i);
          [| unfold end_byte in *; lia | lia | exact Hasc | exact Hout].
        cbn [List.map concat]. rewrite trace_bytes_cat_file.
        rewrite (cat_file_split content cs (end_byte self j) (end_byte self i))
          by (unfold end_byte in *; lia).
        rewrite Heq, <- !app_assoc. reflexivity.
Qed.

Lemma range_of_paths (self : AbstractIndexer) (l : list Z) :
  Forall (fun t => fst (fst t) = url self) (List.map (range_of self) l).
Proof. induction l; constructor; [reflexivity | assumption]. Qed.

(** [merge_cat_file] on the ranges of any list of indices of traces the
    file holds: the new buffer holds the regions of the selected traces,
    each once, in the order of the file. *)
Lemma merge_cat_file_selected (self : AbstractIndexer) (content : list byte)
    (indices : list Z) (st : state) :
  holds_traces self content ->
  itemsize (record_dtype self) <= default_block_size ->
  Forall (in_bounds self) indices ->
  exists paths starts ends,
    merge_cat_file (fs self) (url self)
      (List.map (fun t => snd (fst t)) (List.map (range_of self) indices))
      (List.map snd (List.map (range_of self) indices)) default_block_size st
    = (Ok (fresh (dom (bufs st))),
       {| bufs := <[fresh (dom (bufs st))
                    := concat (List.map (trace_bytes self content) (selected indices))]>
                    (bufs st);
          log := log st ++ [EvCatRanges paths starts ends] |}).
Proof.
  intros Hfile Hblock Hin.
  destruct (region_sizes self content Hfile) as (Hsz & Hrs & Hfit).
  pose proof Hfile as (Hfs & Hoff & _).
  unfold merge_cat_file, merge_offset_ranges.
  rewrite repeat_length, !length_map, !Nat.eqb_refl. cbn [negb orb].
  destruct indices as [|i1 [|i2 rest]].
  - simpl. do 3 eexists. run_M. simpl. reflexivity.
  - simpl. do 3 eexists. run_M. simpl. rewrite Hfs. cbn. rewrite !app_nil_r. reflexivity.
  - replace (length (i1 :: i2 :: rest) <=? 1)%nat with false by reflexivity.
    cbv iota.
    rewrite <- (length_map (range_of self) (i1 :: i2 :: rest)).
    rewrite <- (length_map (fun t : string * Z * Z => snd (fst t))
                  (List.map (range_of self) (i1 :: i2 :: rest))).
    rewrite (combine_repeat_ranges (url self) _ (range_of_paths self _)).
    rewrite sorted_range_of by lia.
    pose proof (ascending_ascending (i1 :: i2 :: rest)) as Hasc.
    pose proof (ascending_Forall _ _ Hin) as Hin'.
    unfold selected.
    destruct (ascending (i1 :: i2 :: rest)) as [|j J] eqn:EJ.
    { apply (f_equal (@length Z)) in EJ. rewrite length_ascending in EJ. discriminate. }
    apply Forall_cons in Hin' as [Hj _]. unfold in_bounds in Hj.
    cbn [List.map fst]. rewrite range_of_bytes. cbn [fst].
    assert (join (cat_ranges (fs self)
              (merge_loop 0 (Some default_block_size) (url self)
                 (List.map (range_of self) J) []
                 (url self, first_byte self j, end_byte self j)))
            = Ok ([] ++ cat_file content (first_byte self j) (end_byte self j)
                  ++ concat (List.map (trace_bytes self content) (distinct_from j J))))
      as Hrun.
    { apply (merge_loop_ascending self content default_block_size J [] []
               (first_byte self j) j Hfile Hblock);
        [unfold first_byte; nia | unfold end_byte; lia | exact Hasc | reflexivity]. }
    do 3 eexists. run_M. rewrite combine_split3, Hrun.
    cbn [distinct List.map concat app].
    rewrite trace_bytes_cat_file. reflexivity.
Qed.

(** ** Fetching any list of indices *)

(** [fetch] of any list of indices of traces the file holds: the ranges
    are planned, one buffer is fetched and decoded, and the array holds
    the decoded records of the selected traces, each once, in the order
    of the file. *)
Lemma fetch_run (self : AbstractIndexer) (content : list byte)
    (indices : list Z) (st : state) :
  holds_traces self content ->
  itemsize (record_dtype self) <= default_block_size ->
  Forall (in_bounds self) indices ->
  exists a st' paths starts ends,
    fetch self indices st = (Ok a, st')
    /\ records st' a = List.map (record_of self content) (selected indices)
    /\ arr_shape a = squeezed_shape (length (selected indices))
    /\ log st' = log st ++ [EvByteRanges (fst (indices_to_byte_ranges self indices))
                                         (snd (indices_to_byte_ranges self indices));
                            EvCatRanges paths starts ends].
Proof.
  intros Hfile Hblock Hin.
  pose proof Hfile as (Hfs & Hoff & Hh & Hs & Hlen).
  set (st1 := {| bufs := bufs st;
                 log := log st ++ [EvByteRanges
                   (List.map (fun t => snd (fst t)) (List.map (range_of self) indices))
                   (List.map snd (List.map (range_of self) indices))] |}).
  destruct (merge_cat_file_selected self content indices st1 Hfile Hblock Hin)
    as (paths & starts & ends & Hmerge).
  set (b := fresh (dom (bufs st1))) in *.
  set (st2 := {| bufs := <[b := concat (List.map (trace_bytes self content)
                                          (selected indices))]> (bufs st1);
                 log := log st1 ++ [EvCatRanges paths starts ends] |}) in *.
  destruct (decode_run self (List.map (trace_bytes self content) (selected indices))
              b st2 Hh Hs)
    as (a & st3 & Hdec & Hrec & Hshape & Hlog).
  { apply lookup_insert_eq. }
  { apply Forall_forall. intros r Hr.
    apply list_elem_of_In, in_map_iff in Hr as (i & <- & Hi).
    apply (length_trace_bytes self content i Hfile).
    pose proof (selected_Forall _ _ Hin) as Hsel.
    rewrite Forall_forall in Hsel. apply Hsel, list_elem_of_In, Hi. }
  exists (squeeze a), st3, paths, starts, ends.
  split.
  { unfold fetch. rewrite indices_to_byte_ranges_range_of. run_M.
    fold st1. rewrite Hmerge. cbn beta iota. rewrite Hdec. reflexivity. }
  split.
  { rewrite List.map_map in Hrec. exact Hrec. }
  split.
  { unfold squeeze, squeezed_shape. cbn [arr_shape].
    rewrite Hshape, length_map. cbn [List.filter].
    destruct (length (selected indices)) as [|[|n]] eqn:E; try reflexivity.
    replace (Z.of_nat (S (S n)) =? 1) with false by (symmetry; apply Z.eqb_neq; lia).
    reflexivity. }
  rewrite Hlog. subst st2 st1. cbn [log].
  rewrite indices_to_byte_ranges_range_of. cbn [fst snd].
  rewrite <- app_assoc. reflexivity.
Qed.

(** ** The selected indices *)

Lemma elem_of_insert_index (x i : Z) (l : list Z) :
  x ∈ insert_index i l <-> x = i \/ x ∈ l.
Proof.
  induction l as [|j l IH]; simpl.
  - rewrite list_elem_of_singleton. split; [auto | intros [H | H]; [exact H | inversion H]].
  - destruct (i <=? j).
    + rewrite elem_of_cons. reflexivity.
    + rewrite !elem_of_cons, IH. tauto.
Qed.

Lemma elem_of_ascending (x : Z) (l : list Z) : x ∈ ascending l <-> x ∈ l.
Proof.
  unfold ascending. induction l as [|i l IH]; simpl; [reflexivity |].
  rewrite elem_of_insert_index, elem_of_cons, IH. reflexivity.
Qed.

Lemma elem_of_distinct_from (x prev : Z) (l : list Z) :
  x = prev \/ x ∈ distinct_from prev l <-> x = prev \/ x ∈ l.
Proof.
  revert prev. induction l as [|i l IH]; intros prev; simpl; [reflexivity |].
  destruct (Z.eqb_spec i prev) as [-> | Hne].
  - rewrite IH, elem_of_cons. tauto.
  - rewrite !elem_of_cons. specialize (IH i). tauto.
Qed.

(** The selected indices are the indices of the list. *)
Lemma elem_of_selected (x : Z) (l : list Z) : x ∈ selected l <-> x ∈ l.
Proof.
  unfold selected, distinct. rewrite <- (elem_of_ascending x l).
  destruct (ascending l) as [|j J]; [reflexivity |].
  rewrite !elem_of_cons. apply elem_of_distinct_from.
Qed.

Lemma distinct_from_increasing (prev : Z) (l : list Z) :
  ascending_from prev l -> increasing (prev :: distinct_from prev l).
Proof.
  revert prev. induction l as [|i l IH]; intros prev Hl; [exact I |].
  destruct Hl as [Hle Hl]. cbn [distinct_from].
  destruct (Z.eqb_spec i prev) as [-> | Hne].
  - apply IH. exact Hl.
  - specialize (IH i Hl). cbn [increasing] in *. split; [lia | exact IH].
Qed.

(** The selected indices are in strictly increasing order. *)
Lemma selected_increasing (l : list Z) : increasing (selected l).
Proof.
  unfold selected, distinct. pose proof (ascending_ascending l) as H.
  destruct (ascending l) as [|j J]; [exact I |].
  apply distinct_from_increasing. exact H.
Qed.

Lemma increasing_tail (i : Z) (l : list Z) : increasing (i :: l) -> increasing l.
Proof. destruct l as [|j l]; [trivial |]. intros [_ H]. exact H. Qed.

Lemma ascending_increasing (l : list Z) : increasing l -> ascending l = l.
Proof.
  unfold ascending. induction l as [|i l IH]; intros Hl; [reflexivity |].
  cbn [List.fold_right]. rewrite (IH (increasing_tail _ _ Hl)).
  destruct l as [|j l]; [reflexivity |]. destruct Hl as [Hij _]. simpl.
  replace (i <=? j) with true by (symmetry; apply Z.leb_le; lia). reflexivity.
Qed.

Lemma distinct_from_increasing_id (prev : Z) (l : list Z) :
  increasing (prev :: l) -> distinct_from prev l = l.
Proof.
  revert prev. induction l as [|i l IH]; intros prev Hl; [reflexivity |].
  destruct Hl as [Hlt Hl]. cbn [distinct_from].
  replace (i =? prev) with false by (symmetry; apply Z.eqb_neq; lia).
  rewrite (IH i Hl). reflexivity.
Qed.

(** Indices in strictly increasing order select themselves. *)
Lemma selected_increasing_id (l : list Z) : increasing l -> selected l = l.
Proof.
  intros Hl. unfold selected. rewrite (ascending_increasing l Hl).
  destruct l as [|i l]; [reflexivity |]. unfold distinct.
  rewrite (distinct_from_increasing_id i l Hl). reflexivity.
Qed.

(** ** The indices of a slice *)

Lemma range_members (a b c i : Z) :
  c <> 0 -> i ∈ range a b c ->
  if 0 <? c then a <= i < b else b < i <= a.
Proof.
  intros Hc Hi. unfold range in Hi.
  apply list_elem_of_In, in_map_iff in Hi as (k & <- & Hk).
  apply in_seq in Hk as [_ Hk]. cbn [Nat.add] in Hk.
  destruct (Z.ltb_spec 0 c) as [Hpos | Hneg].
  - pose proof (Z.mul_div_le (b - a + c - 1) c Hpos).
    assert (Z.of_nat k < (b - a + c - 1) / c) by lia. nia.
  - assert (0 < - c) as Hpos by lia.
    pose proof (Z.mul_div_le (a - b - c - 1) (- c) Hpos).
    assert (Z.of_nat k < (a - b - c - 1) / (- c)) by lia. nia.
Qed.

Lemma seq_map_increasing (a c : Z) (start n : nat) :
  0 < c ->
  increasing (List.map (fun k => a + Z.of_nat k * c) (seq start n)).
Proof.
  intros Hc. revert start. induction n as [|n IH]; intros start; [exact I |].
  cbn [seq List.map]. specialize (IH (S start)).
  destruct n as [|n]; [exact I |].
  cbn [seq List.map] in *. split; [nia | exact IH].
Qed.

(** The indices of a slice with a positive step are in increasing
    order. *)
Lemma range_increasing (a b c : Z) : 0 < c -> increasing (range a b c).
Proof. intros Hc. unfold range. apply seq_map_increasing. exact Hc. Qed.

(** The indices [slice.indices] gives for a length are indices below the
    length, none negative. *)
Lemma slice_indices_in_bounds (item : slice) (len a b c : Z) :
  slice_indices item len = Ok (a, b, c) ->
  c <> 0 /\ Forall (fun i => 0 <= i < len) (range a b c).
Proof.
  unfold slice_indices.
  set (stp := match step item with Some v => v | None => 1 end).
  destruct (Z.eqb_spec stp 0) as [| Hstp]; [discriminate |].
  destruct (Z.ltb_spec len 0) as [| Hlen]; [discriminate |].
  intros [= <- <- <-]. split; [exact Hstp |].
  apply Forall_forall. intros i Hi.
  apply range_members in Hi; [| exact Hstp].
  destruct (Z.ltb_spec 0 stp) as [Hpos | Hneg].
  - replace (stp <? 0) with false in Hi by (symmetry; apply Z.ltb_ge; lia).
    destruct (start item) as [s|], (stop item) as [e|];
      repeat match goal with
             | H : context [if ?v <? 0 then _ else _] |- _ => destruct (Z.ltb_spec v 0)
             end; lia.
  - replace (stp <? 0) with true in Hi by (symmetry; apply Z.ltb_lt; lia).
    destruct (start item) as [s|], (stop item) as [e|];
      repeat match goal with
             | H : context [if ?v <? 0 then _ else _] |- _ => destruct (Z.ltb_spec v 0)
             end; lia.
Qed.

(** ** Fetching distinct indices *)

Lemma NoDup_insert_index (i : Z) (l : list Z) :
  i ∉ l -> NoDup l -> NoDup (insert_index i l).
Proof.
  induction l as [|j l IH]; intros Hi Hl; simpl.
  - apply NoDup_singleton.
  - destruct (i <=? j); [apply NoDup_cons; split; assumption |].
    apply NoDup_cons in Hl as [Hj Hl]. apply not_elem_of_cons in Hi as [Hij Hi].
    apply NoDup_cons. split; [| apply IH; assumption].
    rewrite elem_of_insert_index. intros [-> | Hin]; [congruence | contradiction].
Qed.

Lemma NoDup_ascending (l : list Z) : NoDup l -> NoDup (ascending l).
Proof.
  unfold ascending. induction 1 as [|i l Hi Hl IH]; [constructor |].
  cbn [List.fold_right]. apply NoDup_insert_index; [| exact IH].
  fold (ascending l). rewrite elem_of_ascending. exact Hi.
Qed.

Lemma ascending_from_increasing (j : Z) (J : list Z) :
  ascending_from j J -> NoDup (j :: J) -> increasing (j :: J).
Proof.
  revert j. induction J as [|i J IH]; intros j Hasc Hnd; [exact I |].
  destruct Hasc as [Hji Hasc].
  apply NoDup_cons in Hnd as [Hj Hnd]. apply not_elem_of_cons in Hj as [Hne _].
  split; [lia | apply IH; assumption].
Qed.

(** Distinct indices in ascending order are in increasing order. *)
Lemma ascending_distinct_increasing (l : list Z) :
  NoDup l -> increasing (ascending l).
Proof.
  intros Hl. pose proof (ascending_ascending l) as Hasc.
  pose proof (NoDup_ascending l Hl) as Hnd.
  destruct (ascending l) as [|j J]; [exact I |].
  apply ascending_from_increasing; assumption.
Qed.

(** [merge_cat_file] on the ranges of distinct indices of traces the
    file holds, in any order and with any block size: the new buffer
    holds the regions of the traces in the order of the file. *)
Lemma merge_cat_file_distinct (self : AbstractIndexer) (content : list byte)
    (indices : list Z) (block_size : Z) (st : state) :
  holds_traces self content ->
  Forall (in_bounds self) indices ->
  NoDup indices ->
  exists paths starts ends,
    merge_cat_file (fs self) (url self)
      (List.map (fun t => snd (fst t)) (List.map (range_of self) indices))
      (List.map snd (List.map (range_of self) indices)) block_size st
    = (Ok (fresh (dom (bufs st))),
       {| bufs := <[fresh (dom (bufs st))
                    := concat (List.map (trace_bytes self content) (ascending indices))]>
                    (bufs st);
          log := log st ++ [EvCatRanges paths starts ends] |}).
Proof.
  intros Hfile Hin Hnd.
  destruct (region_sizes self content Hfile) as (Hsz & Hrs & Hfit).
  pose proof Hfile as (Hfs & Hoff & _).
  unfold merge_cat_file, merge_offset_ranges.
  rewrite repeat_length, !length_map, !Nat.eqb_refl. cbn [negb orb].
  destruct indices as [|i1 [|i2 rest]].
  - simpl. do 3 eexists. run_M. simpl. reflexivity.
  - simpl. do 3 eexists. run_M. simpl. rewrite Hfs. cbn. rewrite !app_nil_r. reflexivity.
  - replace (length (i1 :: i2 :: rest) <=? 1)%nat with false by reflexivity.
    cbv iota.
    rewrite <- (length_map (range_of self) (i1 :: i2 :: rest)).
    rewrite <- (length_map (fun t : string * Z * Z => snd (fst t))
                  (List.map (range_of self) (i1 :: i2 :: rest))).
    rewrite (combine_repeat_ranges (url self) _ (range_of_paths self _)).
    rewrite sorted_range_of by lia.
    pose proof (ascending_distinct_increasing _ Hnd) as Hinc.
    pose proof (ascending_Forall _ _ Hin) as Hin'.
    destruct (ascending (i1 :: i2 :: rest)) as [|j J] eqn:EJ.
    { apply (f_equal (@length Z)) in EJ. rewrite length_ascending in EJ. discriminate. }
    apply Forall_cons in Hin' as [Hj _]. unfold in_bounds in Hj.
    cbn [List.map fst]. rewrite range_of_bytes. cbn [fst].
    assert (chain (url self) (end_byte self j) (List.map (range_of self) J)) as Hchain.
    { apply (range_of_chain self content); [exact Hfile | |].
      - apply (increasing_tail j). exact Hinc.
      - destruct J as [|i J]; [exact I |]. destruct Hinc as [Hji _].
        unfold end_byte, first_byte. nia. }
    pose proof (merge_loop_bytes (fs self) (url self) content (Some block_size)
                  (List.map (range_of self) J) [] [] (first_byte self j)
                  (end_byte self j) Hfs) as Hrun.
    rewrite bytes_of_range_of in Hrun.
    do 3 eexists. run_M. rewrite combine_split3, Hrun;
      [| unfold end_byte, first_byte; nia | exact Hchain | reflexivity].
    cbn [List.map concat app]. rewrite trace_bytes_cat_file. reflexivity.
Qed.

(** [fetch] of distinct indices of traces the file holds, in any order:
    the array holds the decoded records of the traces in the order of
    the file. *)
Lemma fetch_distinct (self : AbstractIndexer) (content : list byte)
    (indices : list Z) (st : state) :
  holds_traces self content ->
  Forall (in_bounds self) indices ->
  NoDup indices ->
  exists a st',
    fetch self indices st = (Ok a, st')
    /\ records st' a = List.map (record_of self content) (ascending indices)
    /\ arr_shape a = squeezed_shape (length indices).
Proof.
  intros Hfile Hin Hnd.
  pose proof Hfile as (Hfs & Hoff & Hh & Hs & Hlen).
  set (st1 := {| bufs := bufs st;
                 log := log st ++ [EvByteRanges
                   (List.map (fun t => snd (fst t)) (List.map (range_of self) indices))
                   (List.map snd (List.map (range_of self) indices))] |}).
  destruct (merge_cat_file_distinct self content indices default_block_size st1
              Hfile Hin Hnd)
    as (paths & starts & ends & Hmerge).
  set (b := fresh (dom (bufs st1))) in *.
  set (st2 := {| bufs := <[b := concat (List.map (trace_bytes self content)
                                          (ascending indices))]> (bufs st1);
                 log := log st1 ++ [EvCatRanges paths starts ends] |}) in *.
  destruct (decode_run self (List.map (trace_bytes self content) (ascending indices))
              b st2 Hh Hs)
    as (a & st3 & Hdec & Hrec & Hshape & _).
  { apply lookup_insert_eq. }
  { apply Forall_forall. intros r Hr.
    apply list_elem_of_In, in_map_iff in Hr as (i & <- & Hi).
    apply (length_trace_bytes self content i Hfile).
    pose proof (ascending_Forall _ _ Hin) as Hasc.
    rewrite Forall_forall in Hasc. apply Hasc, list_elem_of_In, Hi. }
  exists (squeeze a), st3.
  split.
  { unfold fetch. rewrite indices_to_byte_ranges_range_of. run_M.
    fold st1. rewrite Hmerge. cbn beta iota. rewrite Hdec. reflexivity. }
  split.
  { rewrite List.map_map in Hrec. exact Hrec. }
  unfold squeeze, squeezed_shape. cbn [arr_shape].
  rewrite Hshape, length_map, length_ascending. cbn [List.filter].
  destruct (length indices) as [|[|n]] eqn:E; try reflexivity.
  replace (Z.of_nat (S (S n)) =? 1) with false by (symmetry; apply Z.eqb_neq; lia).
  reflexivity.
Qed.

(** The bounds check passes on indices within bounds, and [__getitem__]
    goes on to fetch them. *)
Lemma getitem_list_run (self : AbstractIndexer) (indices : list Z) (st : state) :
  Forall (in_bounds self) indices ->
  __getitem__ self (IList indices) st
  = (data ← fetch self indices; post_process self data) st.
Proof.
  intros Hin. unfold __getitem__. run_M.
  replace (bounds_check indices (max_value self) (kind self)) with (Ok tt)
    by (symmetry; apply bounds_check_ok_iff; exact Hin).
  reflexivity.
Qed.

(** ** Indexing *)

(** [fetch] of one index: the record of the trace, squeezed to no axis,
    whatever the size of the record. *)
Lemma fetch_one (self : AbstractIndexer) (content : list byte) (i : Z)
    (st : state) :
  holds_traces self content ->
  in_bounds self i ->
  exists a st',
    fetch self [i] st = (Ok a, st')
    /\ records st' a = [record_of self content i]
    /\ arr_shape a = [].
Proof.
  intros Hfile Hi.
  destruct (region_sizes self content Hfile) as (Hsz & Hrs & Hfit).
  pose proof Hfile as (Hfs & Hoff & Hh & Hs & Hlen).
  assert (chain (url self) 0 (List.map (range_of self) [i])) as Hchain.
  { apply (range_of_chain self content); [exact Hfile | exact I |].
    unfold in_bounds in Hi. assert (0 <= stride self) by lia. nia. }
  set (st1 := {| bufs := bufs st;
                 log := log st ++ [EvByteRanges
                   (List.map (fun t => snd (fst t)) (List.map (range_of self) [i]))
                   (List.map snd (List.map (range_of self) [i]))] |}).
  destruct (merge_cat_file_chain (fs self) (url self) content
              (List.map (range_of self) [i]) default_block_size st1 Hfs Hchain)
    as (ev & Hmerge).
  rewrite bytes_of_range_of in Hmerge.
  set (b := fresh (dom (bufs st1))) in *.
  set (st2 := {| bufs := <[b := concat (List.map (trace_bytes self content) [i])]> (bufs st1);
                 log := log st1 ++ [ev] |}) in *.
  destruct (decode_run self (List.map (trace_bytes self content) [i]) b st2 Hh Hs)
    as (a & st3 & Hdec & Hrec & Hshape & _).
  { apply lookup_insert_eq. }
  { repeat constructor. apply (length_trace_bytes self content i Hfile Hi). }
  exists (squeeze a), st3. split.
  { unfold fetch. rewrite indices_to_byte_ranges_range_of. run_M.
    fold st1. rewrite Hmerge. cbn beta iota. rewrite Hdec. reflexivity. }
  split; [exact Hrec |].
  unfold squeeze. cbn [arr_shape]. rewrite Hshape. reflexivity.
Qed.

(** Indexing with a list of indices of traces the file holds, whose
    records fit a block: the result is the post-processed array of the
    decoded records of the selected traces, which are the indices of the
    list, each once, in increasing order; one record by itself has no
    axis. *)
Theorem getitem_list_selected (self : AbstractIndexer) (content : list byte)
    (indices : list Z) (st : state) :
  holds_traces self content ->
  itemsize (record_dtype self) <= default_block_size ->
  indices <> [] ->
  Forall (in_bounds self) indices ->
  exists a st',
    __getitem__ self (IList indices) st = post_process self a st'
    /\ records st' a = List.map (record_of self content) (selected indices)
    /\ arr_shape a = squeezed_shape (length (selected indices))
    /\ increasing (selected indices)
    /\ (forall i, i ∈ selected indices <-> i ∈ indices).
Proof.
  intros Hfile Hblock _ Hin.
  destruct (fetch_run self content indices st Hfile Hblock Hin)
    as (a & st' & _ & _ & _ & Hfetch & Hrec & Hshape & _).
  exists a, st'. split.
  { unfold __getitem__. run_M.
    replace (bounds_check indices (max_value self) (kind self)) with (Ok tt).
    - cbn beta iota. rewrite Hfetch. reflexivity.
    - symmetry. apply bounds_check_ok_iff. exact Hin. }
  split; [exact Hrec |]. split; [exact Hshape |].
  split; [apply selected_increasing |].
  intros i. apply elem_of_selected.
Qed.

(** The list [[2, 0, 2, 1]] on the small file: traces 0, 1, 2. *)
Lemma getitem_list_selected_witness :
  exists a st',
    __getitem__ (small_indexer TraceIndexer) (IList [2; 0; 2; 1]) empty_state
    = (Ok (OutArray a), st')
    /\ records st' a
       = [[x01; x00; x00; x00; x80; x3f];
          [x02; x00; x00; x00; x00; x41];
          [x03; x00; x00; x00; x00; xc1]]
    /\ arr_shape a = [3].
Proof.
  destruct (getitem_list_selected (small_indexer TraceIndexer) small_file
              [2; 0; 2; 1] empty_state)
    as (a & st' & Hget & Hrec & Hshape & _).
  - repeat split; (reflexivity || (vm_compute; discriminate)).
  - vm_compute; discriminate.
  - discriminate.
  - repeat constructor; vm_compute; discriminate.
  - exists a, st'. split; [exact Hget |]. split; [exact Hrec | exact Hshape].
Defined.

(** Indexing with a list of distinct indices of traces the file holds,
    in any order: the result is the post-processed array of the decoded
    records of those traces in increasing order of index, not in the
    order of the list; one record by itself has no axis. *)
Theorem getitem_list_sorted (self : AbstractIndexer) (content : list byte)
    (indices : list Z) (st : state) :
  holds_traces self content ->
  indices <> [] ->
  Forall (in_bounds self) indices ->
  NoDup indices ->
  exists a st',
    __getitem__ self (IList indices) st = post_process self a st'
    /\ records st' a = List.map (record_of self content) (ascending indices)
    /\ arr_shape a = squeezed_shape (length indices)
    /\ increasing (ascending indices)
    /\ (forall i, i ∈ ascending indices <-> i ∈ indices).
Proof.
  intros Hfile _ Hin Hnd.
  destruct (fetch_distinct self content indices st Hfile Hin Hnd)
    as (a & st' & Hfetch & Hrec & Hshape).
  exists a, st'. split.
  { rewrite (getitem_list_run self indices st Hin). run_M.
    rewrite Hfetch. reflexivity. }
  split; [exact Hrec |]. split; [exact Hshape |].
  split; [apply ascending_distinct_increasing; exact Hnd |].
  intros i. apply elem_of_ascending.
Qed.

(** The list [[2, 0, 1]] on the small file: traces 0, 1, 2. *)
Lemma getitem_list_sorted_witness :
  exists a st',
    __getitem__ (small_indexer TraceIndexer) (IList [2; 0; 1]) empty_state
    = (Ok (OutArray a), st')
    /\ records st' a
       = [[x01; x00; x00; x00; x80; x3f];
          [x02; x00; x00; x00; x00; x41];
          [x03; x00; x00; x00; x00; xc1]]
    /\ arr_shape a = [3].
Proof.
  destruct (getitem_list_sorted (small_indexer TraceIndexer) small_file
              [2; 0; 1] empty_state)
    as (a & st' & Hget & Hrec & Hshape & _).
  - repeat split; (reflexivity || (vm_compute; discriminate)).
  - discriminate.
  - repeat constructor; vm_compute; discriminate.
  - apply (bool_decide_unpack _). vm_compute. exact I.
  - exists a, st'. split; [exact Hget |]. split; [exact Hrec | exact Hshape].
Defined.

(** Indexing with an integer within bounds: the decoded record of that
    trace, as an array with no axis. *)
Theorem getitem_int (self : AbstractIndexer) (content : list byte) (i : Z)
    (st : state) :
  holds_traces self content ->
  in_bounds self i ->
  exists a st',
    __getitem__ self (IInt i) st = post_process self a st'
    /\ records st' a = [record_of self content i]
    /\ arr_shape a = [].
Proof.
  intros Hfile Hi.
  destruct (fetch_one self content i st Hfile Hi) as (a & st' & Hfetch & Hrec & Hshape).
  exists a, st'. split; [| split; [exact Hrec | exact Hshape]].
  unfold __getitem__. run_M.
  replace (bounds_check [i] (max_value self) (kind self)) with (Ok tt).
  - cbn beta iota. rewrite Hfetch. reflexivity.
  - symmetry. apply bounds_check_ok_iff. repeat constructor; apply Hi.
Qed.

(** The samples of trace 1 of the small file: 8.0. *)
Lemma getitem_int_witness :
  exists a st',
    __getitem__ (small_indexer DataIndexer) (IInt 1) empty_state
    = (Ok (OutArray a), st')
    /\ records st' a = [[x00; x00; x00; x41]]
    /\ arr_shape a = [].
Proof.
  destruct (getitem_int (small_indexer DataIndexer) small_file 1 empty_state)
    as (a & st' & Hget & Hrec & Hshape).
  - repeat split; (reflexivity || (vm_compute; discriminate)).
  - unfold in_bounds. simpl. lia.
  - exists a, st'. split; [exact Hget |]. split; [exact Hrec | exact Hshape].
Defined.

(** Indexing with an index out of bounds, by itself or in a list, raises
    [IndexError] before anything is planned or fetched: negative indices
    do not count from the end. *)
Theorem getitem_out_of_bounds (self : AbstractIndexer) (indices : list Z)
    (st : state) :
  Exists (fun i => i < 0 \/ max_value self <= i) indices ->
  exists msg,
    __getitem__ self (IList indices) st = (Raise (IndexError msg), st)
    /\ (forall i, indices = [i] ->
        __getitem__ self (IInt i) st = (Raise (IndexError msg), st)).
Proof.
  intros Hex.
  destruct (bounds_check indices (max_value self) (kind self)) as [[] | e] eqn:E.
  - apply bounds_check_ok_iff in E. exfalso.
    apply Exists_exists in Hex as (i & Hi & Hout).
    rewrite Forall_forall in E. specialize (E i Hi). lia.
  - assert (exists msg, e = IndexError msg) as [msg ->].
    { unfold bounds_check in E. destruct (_ ++ _) in E; [discriminate |].
      inversion E. eauto. }
    exists msg. split.
    + unfold __getitem__. run_M. rewrite E. reflexivity.
    + intros i ->. unfold __getitem__. run_M. rewrite E. reflexivity.
Qed.

(** The index -1 on the three traces of the small file. *)
Lemma getitem_out_of_bounds_witness :
  exists msg,
    __getitem__ (small_indexer TraceIndexer) (IList [-1]) empty_state
    = (Raise (IndexError msg), empty_state)
    /\ (forall i, [-1] = [i] ->
        __getitem__ (small_indexer TraceIndexer) (IInt i) empty_state
        = (Raise (IndexError msg), empty_state)).
Proof.
  apply (getitem_out_of_bounds (small_indexer TraceIndexer) [-1] empty_state).
  constructor. left. lia.
Defined.

(** An indexer built without [postprocess_kwargs]: the indexers of
    traces and of headers fetch and decode the traces and then raise
    [AttributeError], the indexer of data returns its array. *)
Theorem getitem_without_postprocess_kwargs (self : AbstractIndexer)
    (content : list byte) (indices : list Z) (st : state) :
  holds_traces self content ->
  indices <> [] ->
  Forall (in_bounds self) indices ->
  NoDup indices ->
  postprocess_kwargs self = None ->
  exists a st',
    fetch self indices st = (Ok a, st')
    /\ __getitem__ self (IList indices) st
       = match cls self with
         | DataIndexer => (Ok (OutArray a), st')
         | TraceIndexer | HeaderIndexer =>
             (Raise (AttributeError "'NoneType' object has no attribute 'get'"), st')
         end.
Proof.
  intros Hfile _ Hin Hnd Hnone.
  destruct (fetch_distinct self content indices st Hfile Hin Hnd)
    as (a & st' & Hfetch & _).
  exists a, st'. split; [exact Hfetch |].
  rewrite (getitem_list_run self indices st Hin). run_M. rewrite Hfetch.
  cbn beta iota. unfold post_process, using_pandas. rewrite Hnone.
  destruct (cls self); reflexivity.
Qed.

(** The small file read by an indexer of headers built without
    [postprocess_kwargs]. *)
Lemma getitem_without_postprocess_kwargs_witness :
  exists a st',
    fetch (mkIndexer HeaderIndexer {["file.segy" := small_file]} "file.segy"
             small_spec 3 "header" None) [0; 1] empty_state
    = (Ok a, st')
    /\ __getitem__ (mkIndexer HeaderIndexer {["file.segy" := small_file]} "file.segy"
                      small_spec 3 "header" None) (IList [0; 1]) empty_state
       = (Raise (AttributeError "'NoneType' object has no attribute 'get'"), st').
Proof.
  apply (getitem_without_postprocess_kwargs
           (mkIndexer HeaderIndexer {["file.segy" := small_file]} "file.segy"
              small_spec 3 "header" None) small_file [0; 1] empty_state).
  - repeat split; (reflexivity || (vm_compute; discriminate)).
  - discriminate.
  - repeat constructor; vm_compute; discriminate.
  - apply (bool_decide_unpack _). vm_compute. exact I.
  - reflexivity.
Defined.

(** ** Slices *)

Lemma insert_index_last (i : Z) (l : list Z) :
  Forall (fun j => j < i) l -> insert_index i l = l ++ [i].
Proof.
  induction 1 as [|j l Hj _ IH]; [reflexivity |]. simpl.
  replace (i <=? j) with false by (symmetry; apply Z.leb_gt; lia).
  rewrite IH. reflexivity.
Qed.

Lemma increasing_snoc (l : list Z) (i : Z) :
  increasing l -> Forall (fun j => j < i) l -> increasing (l ++ [i]).
Proof.
  induction l as [|j l IH]; intros Hl Hlt; [exact I |].
  apply Forall_cons in Hlt as [Hj Hlt].
  specialize (IH (increasing_tail _ _ Hl) Hlt).
  destruct l as [|k l]; simpl in *; [split; [exact Hj | exact I] |].
  destruct Hl as [Hjk _]. split; [exact Hjk | exact IH].
Qed.

Lemma seq_map_descending (a c : Z) (start n : nat) :
  c < 0 ->
  let l := List.map (fun k => a + Z.of_nat k * c) (seq start n) in
  ascending l = rev l /\ increasing (rev l)
  /\ Forall (fun j => j <= a + Z.of_nat start * c) l.
Proof.
  intros Hc. revert start. induction n as [|n IH]; intros start.
  - repeat split. constructor.
  - specialize (IH (S start)). cbv zeta in IH. destruct IH as (Hasc & Hinc & Hle).
    cbn [seq List.map rev]. cbv zeta.
    set (tl := List.map (fun k => a + Z.of_nat k * c) (seq (S start) n)) in *.
    assert (Forall (fun j => j < a + Z.of_nat start * c) (rev tl)) as Hlt.
    { apply Forall_forall. intros j Hj. apply list_elem_of_In, in_rev, list_elem_of_In in Hj.
      rewrite Forall_forall in Hle. specialize (Hle j Hj). simpl in Hle. nia. }
    split; [| split].
    + change (ascending (a + Z.of_nat start * c :: tl))
        with (insert_index (a + Z.of_nat start * c) (ascending tl)).
      rewrite Hasc. apply insert_index_last. exact Hlt.
    + apply increasing_snoc; assumption.
    + constructor; [lia |]. eapply Forall_impl; [exact Hle |].
      intros j Hj. simpl in *. nia.
Qed.

Lemma increasing_above (i : Z) (l : list Z) :
  increasing (i :: l) -> Forall (fun j => i < j) l.
Proof.
  revert i. induction l as [|j l IH]; intros i Hl; [constructor |].
  destruct Hl as [Hij Hl]. constructor; [exact Hij |].
  eapply Forall_impl; [apply (IH j Hl) |]. intros k Hk. simpl in *. lia.
Qed.

Lemma increasing_NoDup (l : list Z) : increasing l -> NoDup l.
Proof.
  induction l as [|i l IH]; intros Hl; [constructor |].
  apply NoDup_cons. split; [| apply IH, (increasing_tail i), Hl].
  intros Hin. pose proof (increasing_above i l Hl) as Habove.
  rewrite Forall_forall in Habove. specialize (Habove i Hin). lia.
Qed.

(** The indices of a slice are distinct, and in ascending order they are
    the slice itself or, for a negative step, its reverse. *)
Lemma range_distinct (a b c : Z) :
  c <> 0 ->
  NoDup (range a b c)
  /\ ascending (range a b c) = (if 0 <? c then range a b c else rev (range a b c)).
Proof.
  intros Hc. destruct (Z.ltb_spec 0 c) as [Hpos | Hneg].
  - pose proof (range_increasing a b c Hpos) as Hinc.
    split; [apply increasing_NoDup; exact Hinc | apply ascending_increasing; exact Hinc].
  - unfold range.
    destruct (seq_map_descending a c 0 (Z.to_nat ((a - b - c - 1) / - c)) ltac:(lia))
      as (Hasc & Hinc & _).
    replace (if 0 <? c then (b - a + c - 1) / c else (a - b - c - 1) / - c)
      with ((a - b - c - 1) / - c)
      by (replace (0 <? c) with false by (symmetry; apply Z.ltb_ge; lia); reflexivity).
    split; [| exact Hasc].
    apply increasing_NoDup in Hinc. rewrite <- Permutation_rev in Hinc.
    exact Hinc.
Qed.

(** Indexing with a slice of a non-zero step that passes the bounds
    check, over a file that holds the traces: the indices of the slice
    are within bounds and, when there are any, the result is the
    post-processed array of the decoded records of those traces in the
    order of the file: the order of the slice for a positive step, its
    reverse for a negative one. *)
Theorem getitem_slice_file_order (self : AbstractIndexer) (content : list byte)
    (item : slice) (st : state) :
  holds_traces self content ->
  step item <> Some 0 ->
  bounds_check [or_default (start item) 0;
                or_default (stop item) (max_value self) - 1]
    (max_value self) (kind self) = Ok tt ->
  exists a b c,
    slice_indices item (max_value self) = Ok (a, b, c)
    /\ Forall (in_bounds self) (range a b c)
    /\ (range a b c <> [] ->
        exists arr st',
          __getitem__ self (ISlice item) st = post_process self arr st'
          /\ records st' arr
             = List.map (record_of self content)
                 (if 0 <? c then range a b c else rev (range a b c))
          /\ arr_shape arr = squeezed_shape (length (range a b c))).
Proof.
  intros Hfile Hstep Hok.
  assert (0 <= max_value self) as Hmax.
  { apply bounds_check_ok_iff in Hok. apply Forall_cons in Hok as [H _]. lia. }
  destruct (slice_indices item (max_value self)) as [[[a b] c] | e] eqn:Hsl.
  2: { exfalso. unfold slice_indices in Hsl.
       destruct (step item) as [v|] eqn:Hv.
       - destruct (Z.eqb_spec v 0) as [-> | _]; [congruence |].
         destruct (Z.ltb_spec (max_value self) 0); [lia | discriminate].
       - simpl in Hsl. destruct (Z.ltb_spec (max_value self) 0); [lia | discriminate]. }
  destruct (slice_indices_in_bounds item (max_value self) a b c Hsl) as [Hc Hin].
  exists a, b, c. split; [reflexivity |]. split; [exact Hin |].
  intros _.
  destruct (range_distinct a b c Hc) as [Hnd Hasc].
  destruct (fetch_distinct self content (range a b c) st Hfile Hin Hnd)
    as (arr & st' & Hfetch & Hrec & Hshape).
  exists arr, st'. split; [| split; [| exact Hshape]].
  - unfold __getitem__.
    destruct (decide (step item = Some 0)) as [|_]; [contradiction |].
    run_M. rewrite Hok. cbn beta iota. rewrite Hsl. cbn beta iota.
    rewrite Hfetch. reflexivity.
  - rewrite Hrec, Hasc. reflexivity.
Qed.

(** The slice [[::-1]] of the small file: its headers in the order of
    the file. *)
Lemma getitem_slice_file_order_witness :
  exists arr st',
    __getitem__ (small_indexer HeaderIndexer) (ISlice (mkSlice None None (Some (-1))))
      empty_state
    = (Ok (OutArray arr), st')
    /\ records st' arr = [[x01; x00]; [x02; x00]; [x03; x00]]
    /\ arr_shape arr = [3].
Proof.
  destruct (getitem_slice_file_order (small_indexer HeaderIndexer) small_file
              (mkSlice None None (Some (-1))) empty_state)
    as (a & b & c & Hsl & _ & Hget).
  - repeat split; (reflexivity || (vm_compute; discriminate)).
  - discriminate.
  - reflexivity.
  - injection Hsl as <- <- <-.
    destruct Hget as (arr & st' & Hget & Hrec & Hshape); [discriminate |].
    exists arr, st'. split; [exact Hget |]. split; [exact Hrec | exact Hshape].
Defined.

End SelectionFacts.

(** * Properties of the records returned and of the requests made *)

Section RecordsFacts.
Import Schema Ibm Py Fsspec Indexing Examples Selection Records.

(** ** The three indexers of one file *)

Lemma holds_traces_with_cls (c : IndexerClass) (self : AbstractIndexer)
    (content : list byte) :
  holds_traces self content -> holds_traces (with_cls c self) content.
Proof. intros H. exact H. Qed.

(** The decoded record of a whole trace is the decoded header followed
    by the decoded samples. *)
Lemma record_of_trace_split (self : AbstractIndexer) (content : list byte) (i : Z) :
  holds_traces self content -> in_bounds self i ->
  record_of (with_cls TraceIndexer self) content i
  = record_of (with_cls HeaderIndexer self) content i
    ++ record_of (with_cls DataIndexer self) content i.
Proof.
  intros Hfile Hi.
  pose proof (length_trace_bytes _ content i
                (holds_traces_with_cls HeaderIndexer self content Hfile) Hi) as Hlh.
  pose proof (length_trace_bytes _ content i
                (holds_traces_with_cls DataIndexer self content Hfile) Hi) as Hld.
  destruct (region_sizes _ content (holds_traces_with_cls DataIndexer self content Hfile))
    as (Hdsz & _ & _).
  destruct Hfile as (_ & Hoff & Hh & Hs & Hlen).
  unfold in_bounds in Hi.
  cbn [record_dtype with_cls cls spec itemsize] in Hdsz.
  set (h := header_descriptor (spec self)) in *.
  set (d := data_descriptor_dtype (data_descriptor (spec self))) in *.
  pose proof (width_pos (base d)) as Hw.
  assert (stride self = item_size h + data_itemsize d) as Hstride by reflexivity.
  unfold record_of.
  remember (trace_bytes (with_cls HeaderIndexer self) content i) as rh eqn:Erh.
  remember (trace_bytes (with_cls DataIndexer self) content i) as rd eqn:Erd.
  assert (trace_bytes (with_cls TraceIndexer self) content i = rh ++ rd) as ->.
  { subst rh rd. unfold trace_bytes, region_start, record_dtype.
    cbn [cls with_cls spec itemsize]. unfold trace_dtype. cbn [itemsize].
    change (stride (with_cls TraceIndexer self)) with (stride self).
    change (stride (with_cls HeaderIndexer self)) with (stride self).
    change (stride (with_cls DataIndexer self)) with (stride self).
    fold h d.
    rewrite (cat_file_split content _
               (trace_offset (spec self) + 0 + i * stride self + item_size h)).
    - f_equal. f_equal; lia.
    - nia.
    - lia. }
  cbn [record_dtype with_cls cls spec itemsize] in Hlh, Hld. fold h d in Hlh, Hld.
  unfold decode_record. cbn [record_dtype with_cls cls spec]. unfold trace_dtype.
  fold h d. cbn [byteswap_record].
  rewrite take_app_length' by (symmetry; exact Hlh).
  rewrite drop_app_length' by (symmetry; exact Hlh).
  assert (0 < shape d) as Hshape by exact Hs.
  assert (length rd = (Z.to_nat (shape d) * Z.to_nat (width (base d)))%nat) as Hld'.
  { rewrite Hld. unfold data_itemsize. nia. }
  destruct (decide (data_format (data_descriptor (spec self)) = IBM32)) as [Hibm |];
    [| reflexivity].
  pose proof (length_swap_fields h rh) as Hsh.
  pose proof (length_swap_elements d (Z.to_nat (shape d)) rd ltac:(lia) Hld') as Hsd.
  destruct (ibm_record_frame h d (swap_fields h rh ++ swap_elements d rd)
              (Z.to_nat (item_size h)) (Z.to_nat (width (base d)))
              eq_refl eq_refl ltac:(lia)) as (Hlen' & Htake & Hdrop).
  { rewrite length_app, Hsh, Hsd, Hlh, Hld'. reflexivity. }
  rewrite <- (take_drop (Z.to_nat (item_size h))
                (set_data h d _ _)).
  rewrite Htake, Hdrop.
  rewrite take_app_length' by (rewrite Hsh; symmetry; exact Hlh).
  rewrite drop_app_length' by (rewrite Hsh; symmetry; exact Hlh).
  f_equal.
  replace (Z.to_nat (width (base d))) with 4%nat; [reflexivity |].
  unfold d. cbn [base data_descriptor_dtype]. rewrite Hibm. reflexivity.
Qed.

Lemma zip_with_app_map (f g : Z -> list byte) (l : list Z) :
  zip_with app (List.map f l) (List.map g l) = List.map (fun i => f i ++ g i) l.
Proof. induction l as [|i l IH]; simpl; [| rewrite IH]; reflexivity. Qed.

(** The three indexers of one file agree: for any list of distinct
    indices, every record the indexer of traces returns is the record
    the indexer of headers returns followed by the record the indexer of
    data returns. *)
Theorem trace_is_header_and_data (self : AbstractIndexer) (content : list byte)
    (indices : list Z) (st : state) :
  holds_traces self content ->
  indices <> [] ->
  Forall (in_bounds self) indices ->
  NoDup indices ->
  exists t st_t h st_h d st_d,
    fetch (with_cls TraceIndexer self) indices st = (Ok t, st_t)
    /\ fetch (with_cls HeaderIndexer self) indices st = (Ok h, st_h)
    /\ fetch (with_cls DataIndexer self) indices st = (Ok d, st_d)
    /\ records st_t t = zip_with app (records st_h h) (records st_d d)
    /\ length (records st_h h) = length (records st_t t)
    /\ length (records st_d d) = length (records st_t t).
Proof.
  intros Hfile _ Hin Hnd.
  destruct (fetch_distinct (with_cls TraceIndexer self) content indices st)
    as (t & st_t & Hft & Hrt & _); [exact Hfile | exact Hin | exact Hnd |].
  destruct (fetch_distinct (with_cls HeaderIndexer self) content indices st)
    as (h & st_h & Hfh & Hrh & _); [exact Hfile | exact Hin | exact Hnd |].
  destruct (fetch_distinct (with_cls DataIndexer self) content indices st)
    as (d & st_d & Hfd & Hrd & _); [exact Hfile | exact Hin | exact Hnd |].
  exists t, st_t, h, st_h, d, st_d.
  split; [exact Hft |]. split; [exact Hfh |]. split; [exact Hfd |].
  rewrite Hrt, Hrh, Hrd, zip_with_app_map, !length_map.
  split; [| split; reflexivity].
  apply Forall_fmap_ext_1.
  pose proof (ascending_Forall _ _ Hin) as Hasc.
  eapply Forall_impl; [exact Hasc |].
  intros i Hi. apply record_of_trace_split; assumption.
Qed.

(** The traces 2 and 0 of the small file. *)
Lemma trace_is_header_and_data_witness :
  exists t st_t h st_h d st_d,
    fetch (small_indexer TraceIndexer) [2; 0] empty_state = (Ok t, st_t)
    /\ fetch (small_indexer HeaderIndexer) [2; 0] empty_state = (Ok h, st_h)
    /\ fetch (small_indexer DataIndexer) [2; 0] empty_state = (Ok d, st_d)
    /\ records st_t t = zip_with app (records st_h h) (records st_d d)
    /\ length (records st_h h) = length (records st_t t)
    /\ length (records st_d d) = length (records st_t t).
Proof.
  apply (trace_is_header_and_data (small_indexer TraceIndexer) small_file [2; 0]
           empty_state).
  - repeat split; (reflexivity || (vm_compute; discriminate)).
  - discriminate.
  - repeat constructor; vm_compute; discriminate.
  - apply (bool_decide_unpack _). vm_compute. exact I.
Defined.

(** ** The fields of a header after the byte swap *)

Lemma take_drop_app_l (n m : nat) (l x : list byte) :
  (n + m <= length l)%nat -> take m (drop n (l ++ x)) = take m (drop n l).
Proof.
  intros H. rewrite drop_app_le by lia.
  rewrite take_app_le by (rewrite length_drop; lia). reflexivity.
Qed.

Lemma swap_at_split (off w : nat) (bs : list byte) :
  bs = take off bs ++ take w (drop off bs) ++ drop (off + w) bs.
Proof.
  rewrite <- (take_drop off bs) at 1. f_equal.
  rewrite <- (take_drop w (drop off bs)) at 1. f_equal.
  rewrite drop_drop. reflexivity.
Qed.

Lemma swap_at_here (off w : nat) (bs : list byte) :
  (off + w <= length bs)%nat ->
  take w (drop off (swap_at off w bs)) = rev (take w (drop off bs)).
Proof.
  intros H. unfold swap_at.
  rewrite drop_app_length' by (rewrite length_take; lia).
  rewrite take_app_length' by (rewrite length_rev, length_take, length_drop; lia).
  reflexivity.
Qed.

Lemma swap_at_elsewhere (off w off2 w2 : nat) (bs : list byte) :
  (off + w <= length bs)%nat ->
  (off2 + w2 <= off \/ off + w <= off2)%nat ->
  take w2 (drop off2 (swap_at off w bs)) = take w2 (drop off2 bs).
Proof.
  intros H [Hb | Ha].
  - rewrite (swap_at_split off w bs) at 2. unfold swap_at.
    rewrite !take_drop_app_l by (rewrite length_take; lia). reflexivity.
  - f_equal. rewrite (swap_at_split off w bs) at 2. unfold swap_at.
    rewrite !(app_assoc (take off bs)).
    rewrite !drop_app_ge
      by (rewrite length_app, ?length_rev, !length_take, length_drop; lia).
    rewrite !length_app, length_rev. reflexivity.
Qed.

Lemma swap_fields_regions (h : StructuredDataTypeDescriptor) (bs : list byte) :
  well_formed h = true ->
  length bs = Z.to_nat (item_size h) ->
  forall f, f ∈ fields h -> field_bytes f (swap_fields h bs) = rev (field_bytes f bs).
Proof.
  unfold well_formed, swap_fields, field_bytes.
  generalize (fields h) as fl. intros fl Hwf Hlen.
  apply andb_true_iff in Hwf as [Hin Hap].
  revert bs Hlen.
  assert (forall (fl : list StructuredFieldDescriptor) (bs : list byte) g,
            forallb (within h) fl = true -> within h g = true ->
            forallb (apart g) fl = true ->
            length bs = Z.to_nat (item_size h) ->
            take (Z.to_nat (width (format g)))
              (drop (Z.to_nat (offset g))
                 (fold_left (fun acc f => swap_at (Z.to_nat (offset f))
                                            (Z.to_nat (width (format f))) acc) fl bs))
            = take (Z.to_nat (width (format g))) (drop (Z.to_nat (offset g)) bs))
    as Hframe.
  { clear. induction fl as [|f fl IH]; intros bs g Hin Hg Hap Hlen; [reflexivity |].
    cbn [forallb fold_left] in *.
    apply andb_true_iff in Hin as [Hf Hin]. apply andb_true_iff in Hap as [Hgf Hap].
    rewrite IH by (try assumption; rewrite length_swap_at; exact Hlen).
    unfold within in Hf, Hg. unfold apart in Hgf.
    apply andb_true_iff in Hf as [Hf0 Hf1]. apply andb_true_iff in Hg as [Hg0 Hg1].
    apply Z.leb_le in Hf0, Hf1, Hg0, Hg1.
    pose proof (width_pos (format f)). pose proof (width_pos (format g)).
    apply swap_at_elsewhere; [lia |].
    apply orb_true_iff in Hgf as [H1 | H1]; apply Z.leb_le in H1; lia. }
  induction fl as [|f fl IH]; intros bs Hlen g Hg; [inversion Hg |].
  cbn [forallb pairwise_apart fold_left] in *.
  apply andb_true_iff in Hin as [Hf Hin]. apply andb_true_iff in Hap as [Hfa Hap].
  apply elem_of_cons in Hg as [-> | Hg].
  - rewrite Hframe by (try assumption; rewrite length_swap_at; exact Hlen).
    unfold within in Hf. apply andb_true_iff in Hf as [Hf0 Hf1].
    apply Z.leb_le in Hf0, Hf1. pose proof (width_pos (format f)).
    apply swap_at_here. lia.
  - rewrite (IH Hin Hap) by (try assumption; rewrite length_swap_at; exact Hlen).
    f_equal.
    assert (within h g = true) as Hgw.
    { rewrite forallb_forall in Hin. apply Hin, list_elem_of_In, Hg. }
    assert (apart f g = true) as Hfg.
    { rewrite forallb_forall in Hfa. apply Hfa, list_elem_of_In, Hg. }
    unfold within in Hf, Hgw. unfold apart in Hfg.
    apply andb_true_iff in Hf as [Hf0 Hf1]. apply andb_true_iff in Hgw as [Hg0 Hg1].
    apply Z.leb_le in Hf0, Hf1, Hg0, Hg1.
    pose proof (width_pos (format f)). pose proof (width_pos (format g)).
    apply swap_at_elsewhere; [lia |].
    apply orb_true_iff in Hfg as [H1 | H1]; apply Z.leb_le in H1; lia.
Qed.

(** ** Fields and samples of the records returned *)

Lemma cat_file_sub (content : list byte) (s e a n : Z) :
  0 <= s -> 0 <= a -> 0 <= n -> a + n <= e - s ->
  take (Z.to_nat n) (drop (Z.to_nat a) (cat_file content s e))
  = cat_file content (s + a) (s + a + n).
Proof.
  intros Hs Ha Hn Hfit. unfold cat_file.
  rewrite (take_drop_commute (take (Z.to_nat (e - s)) (drop (Z.to_nat s) content))).
  rewrite take_take.
  replace ((Z.to_nat a + Z.to_nat n) `min` Z.to_nat (e - s))%nat
    with (Z.to_nat a + Z.to_nat n)%nat by lia.
  rewrite <- take_drop_commute, drop_drop.
  replace (s + a + n - (s + a)) with n by lia.
  replace (Z.to_nat s + Z.to_nat a)%nat with (Z.to_nat (s + a)) by lia.
  reflexivity.
Qed.

Lemma getitem_one (self : AbstractIndexer) (content : list byte) (i : Z)
    (st : state) :
  holds_traces self content ->
  in_bounds self i ->
  exists a st',
    __getitem__ self (IInt i) st = post_process self a st'
    /\ records st' a = [record_of self content i]
    /\ arr_shape a = [].
Proof.
  intros Hfile Hi.
  destruct (fetch_one self content i st Hfile Hi) as (a & st' & Hfetch & Hrec & Hshape).
  exists a, st'. split; [| split; [exact Hrec | exact Hshape]].
  unfold __getitem__. run_M.
  replace (bounds_check [i] (max_value self) (kind self)) with (Ok tt).
  - cbn beta iota. rewrite Hfetch. reflexivity.
  - symmetry. apply bounds_check_ok_iff. repeat constructor; apply Hi.
Qed.

(** The header part of a record of the indexers of traces and of
    headers. *)
Lemma record_of_header_part (self : AbstractIndexer) (content : list byte) (i : Z) :
  holds_traces self content -> in_bounds self i ->
  cls self <> DataIndexer ->
  take (Z.to_nat (item_size (header_descriptor (spec self))))
    (record_of self content i)
  = swap_fields (header_descriptor (spec self))
      (trace_bytes (with_cls HeaderIndexer self) content i).
Proof.
  intros Hfile Hi Hcls.
  assert (length (swap_fields (header_descriptor (spec self))
                    (trace_bytes (with_cls HeaderIndexer self) content i))
          = Z.to_nat (item_size (header_descriptor (spec self)))) as Hlen.
  { rewrite length_swap_fields.
    apply (length_trace_bytes (with_cls HeaderIndexer self) content i Hfile Hi). }
  destruct (cls self) eqn:Ecls; [| | contradiction].
  - replace self with (with_cls TraceIndexer self) at 2
      by (destruct self; cbn in *; subst; reflexivity).
    rewrite (record_of_trace_split self content i Hfile Hi).
    unfold record_of at 1, decode_record at 1.
    cbn [record_dtype with_cls cls spec byteswap_record].
    destruct (decide _); rewrite take_app_length' by (symmetry; exact Hlen);
      reflexivity.
  - replace self with (with_cls HeaderIndexer self) at 2
      by (destruct self; cbn in *; subst; reflexivity).
    unfold record_of, decode_record.
    cbn [record_dtype with_cls cls spec byteswap_record].
    destruct (decide _); rewrite <- Hlen at 1; apply firstn_all.
Qed.

(** Every field of the header of a record returned by the indexers of
    traces and of headers holds the bytes the field has in the file, in
    reverse order. *)
Theorem header_fields_reversed (self : AbstractIndexer) (content : list byte)
    (i : Z) (f : StructuredFieldDescriptor) (st : state) :
  holds_traces self content ->
  in_bounds self i ->
  cls self <> DataIndexer ->
  well_formed (header_descriptor (spec self)) = true ->
  f ∈ fields (header_descriptor (spec self)) ->
  exists a st' r,
    __getitem__ self (IInt i) st = post_process self a st'
    /\ records st' a = [r]
    /\ field_bytes f r = rev (file_field self content i f).
Proof.
  intros Hfile Hi Hcls Hwf Hf.
  destruct (getitem_one self content i st Hfile Hi) as (a & st' & Hget & Hrec & _).
  exists a, st', (record_of self content i).
  split; [exact Hget |]. split; [exact Hrec |].
  pose proof (length_trace_bytes (with_cls HeaderIndexer self) content i Hfile Hi)
    as Hlen.
  cbn [record_dtype with_cls cls spec itemsize] in Hlen.
  pose proof Hwf as Hwf'. unfold well_formed in Hwf'.
  apply andb_true_iff in Hwf' as [Hin _].
  rewrite forallb_forall in Hin. specialize (Hin f (proj1 (list_elem_of_In _ _) Hf)).
  unfold within in Hin. apply andb_true_iff in Hin as [H0 H1].
  apply Z.leb_le in H0, H1. pose proof (width_pos (format f)) as Hw.
  transitivity (field_bytes f (take (Z.to_nat (item_size (header_descriptor (spec self))))
                                 (record_of self content i))).
  { unfold field_bytes. rewrite (take_drop_commute (take _ _)), take_take.
    replace ((Z.to_nat (offset f) + Z.to_nat (width (format f)))
             `min` Z.to_nat (item_size (header_descriptor (spec self))))%nat
      with (Z.to_nat (offset f) + Z.to_nat (width (format f)))%nat by lia.
    rewrite <- take_drop_commute. reflexivity. }
  rewrite (record_of_header_part self content i Hfile Hi Hcls).
  rewrite (swap_fields_regions _ _ Hwf Hlen f Hf). f_equal.
  destruct (region_sizes (with_cls HeaderIndexer self) content Hfile)
    as (_ & _ & Hstride).
  destruct Hfile as (_ & Hoff & _ & _ & Hfit). unfold in_bounds in Hi.
  unfold field_bytes, trace_bytes, file_field, trace_start.
  cbn [region_start record_dtype with_cls cls spec itemsize] in *.
  change (stride (with_cls HeaderIndexer self)) with (stride self) in *.
  rewrite cat_file_sub by nia.
  f_equal; lia.
Qed.

Lemma concat_region (w k : nat) (ls : list (list byte)) (r : list byte) :
  Forall (fun r => length r = w) ls -> ls !! k = Some r ->
  take w (drop (k * w) (concat ls)) = r.
Proof.
  intros Hls. revert k. induction Hls as [|r0 ls Hr0 _ IH]; intros k Hk;
    [discriminate |].
  destruct k as [|k]; cbn [concat].
  - injection Hk as <-. apply take_app_length'. symmetry. exact Hr0.
  - cbn [Nat.mul]. rewrite <- drop_drop.
    rewrite drop_app_length' by (symmetry; exact Hr0). apply IH. exact Hk.
Qed.

Lemma chunks_n_lookup (n w k : nat) (l : list byte) :
  (k < n)%nat -> chunks_n n w l !! k = Some (take w (drop (k * w) l)).
Proof.
  revert k l. induction n as [|n IH]; intros k l Hk; [lia |].
  destruct k as [|k]; cbn [chunks_n]; [reflexivity |].
  cbn [lookup list_lookup]. rewrite IH by lia. cbn [Nat.mul].
  rewrite drop_drop. reflexivity.
Qed.

(** The part of a record of the indexers of traces and of data that
    holds the samples. *)
Lemma record_of_data_part (self : AbstractIndexer) (content : list byte) (i : Z) :
  holds_traces self content -> in_bounds self i ->
  cls self <> HeaderIndexer ->
  drop (Z.to_nat (data_start self)) (record_of self content i)
  = record_of (with_cls DataIndexer self) content i.
Proof.
  intros Hfile Hi Hcls. unfold data_start.
  destruct (cls self) eqn:Ecls; [| contradiction |].
  - replace self with (with_cls TraceIndexer self) at 2
      by (destruct self; cbn in *; subst; reflexivity).
    rewrite (record_of_trace_split self content i Hfile Hi).
    apply drop_app_length'.
    unfold record_of, decode_record.
    cbn [record_dtype with_cls cls spec byteswap_record].
    pose proof (length_trace_bytes (with_cls HeaderIndexer self) content i Hfile Hi)
      as Hlen.
    destruct (decide _); rewrite length_swap_fields; symmetry; exact Hlen.
  - replace (with_cls DataIndexer self) with self
      by (destruct self; cbn in *; subst; reflexivity).
    reflexivity.
Qed.

(** The decoded record of the indexer of data, sample by sample. *)
Lemma record_of_data_samples (self : AbstractIndexer) (content : list byte) (i : Z) :
  holds_traces self content -> in_bounds self i ->
  record_of (with_cls DataIndexer self) content i
  = concat (List.map
              (fun c => if decide (data_format (data_descriptor (spec self)) = IBM32)
                        then le_encode 4 (ibm2ieee (le_decode (rev c)))
                        else rev c)
              (chunks (Z.to_nat (sample_width self))
                 (trace_bytes (with_cls DataIndexer self) content i))).
Proof.
  intros Hfile Hi.
  pose proof (length_trace_bytes (with_cls DataIndexer self) content i Hfile Hi)
    as Hlen.
  destruct Hfile as (_ & _ & _ & Hs & _).
  cbn [record_dtype with_cls cls spec itemsize] in Hlen.
  unfold data_itemsize in Hlen. cbn [base shape data_descriptor_dtype] in Hlen.
  fold (sample_width self) in Hlen.
  pose proof (width_pos (storage (data_format (data_descriptor (spec self))))) as Hw.
  fold (sample_width self) in Hw.
  destruct (chunks_exact (Z.to_nat (samples (data_descriptor (spec self))))
              (Z.to_nat (sample_width self))
              (trace_bytes (with_cls DataIndexer self) content i))
    as (Hk & Hu & Hcat); [lia | rewrite Hlen; nia |].
  unfold record_of, decode_record.
  cbn [record_dtype with_cls cls spec byteswap_record].
  unfold swap_elements. cbn [base data_descriptor_dtype].
  fold (sample_width self).
  destruct (decide (data_format (data_descriptor (spec self)) = IBM32)) as [Hibm |];
    [| reflexivity].
  assert (Z.to_nat (sample_width self) = 4%nat) as Hw4
    by (unfold sample_width; rewrite Hibm; reflexivity).
  rewrite Hw4 in *.
  unfold of_words, words. rewrite chunks_concat; [| lia |].
  - rewrite !List.map_map. reflexivity.
  - apply Forall_forall. intros r Hr.
    apply list_elem_of_In, in_map_iff in Hr as (c & <- & Hc).
    rewrite length_rev. rewrite Forall_forall in Hu. apply Hu, list_elem_of_In, Hc.
Qed.

(** Every sample of a record returned by the indexers of traces and of
    data holds the bytes the sample has in the file in reverse order, or,
    for IBM data, the conversion of the big-endian word they are. *)
Theorem samples_converted (self : AbstractIndexer) (content : list byte)
    (i k : Z) (st : state) :
  holds_traces self content ->
  in_bounds self i ->
  cls self <> HeaderIndexer ->
  0 <= k < samples (data_descriptor (spec self)) ->
  exists a st' r,
    __getitem__ self (IInt i) st = post_process self a st'
    /\ records st' a = [r]
    /\ sample_bytes self k r
       = if decide (data_format (data_descriptor (spec self)) = IBM32)
         then le_encode 4 (ibm2ieee (le_decode (rev (file_sample self content i k))))
         else rev (file_sample self content i k).
Proof.
  intros Hfile Hi Hcls Hk.
  destruct (getitem_one self content i st Hfile Hi) as (a & st' & Hget & Hrec & _).
  exists a, st', (record_of self content i).
  split; [exact Hget |]. split; [exact Hrec |].
  pose proof (width_pos (storage (data_format (data_descriptor (spec self))))) as Hw.
  fold (sample_width self) in Hw.
  assert (0 <= data_start self) as Hds.
  { unfold data_start. destruct Hfile as (_ & _ & Hh & _). destruct (cls self); lia. }
  unfold sample_bytes.
  replace (Z.to_nat (data_start self + k * sample_width self))
    with (Z.to_nat (data_start self) + Z.to_nat k * Z.to_nat (sample_width self))%nat
    by nia.
  rewrite <- drop_drop.
  rewrite (record_of_data_part self content i Hfile Hi Hcls).
  rewrite (record_of_data_samples self content i Hfile Hi).
  pose proof (length_trace_bytes (with_cls DataIndexer self) content i Hfile Hi)
    as Hlen.
  cbn [record_dtype with_cls cls spec itemsize] in Hlen.
  unfold data_itemsize in Hlen. cbn [base shape data_descriptor_dtype] in Hlen.
  fold (sample_width self) in Hlen.
  destruct (chunks_exact (Z.to_nat (samples (data_descriptor (spec self))))
              (Z.to_nat (sample_width self))
              (trace_bytes (with_cls DataIndexer self) content i))
    as (Hn & Hu & _); [lia | rewrite Hlen; nia |].
  assert (take (Z.to_nat (sample_width self))
            (drop (Z.to_nat k * Z.to_nat (sample_width self))
               (trace_bytes (with_cls DataIndexer self) content i))
          = file_sample self content i k) as Hword.
  { destruct (region_sizes (with_cls DataIndexer self) content Hfile)
      as (_ & _ & Hstride).
    destruct Hfile as (_ & Hoff & Hh & _ & Hfit). unfold in_bounds in Hi.
    unfold trace_bytes, file_sample, trace_start.
    cbn [region_start record_dtype with_cls cls spec itemsize] in *.
    change (stride (with_cls DataIndexer self)) with (stride self) in *.
    unfold data_itemsize in *. cbn [base shape data_descriptor_dtype] in *.
    fold (sample_width self) in *.
    replace (Z.to_nat k * Z.to_nat (sample_width self))%nat
      with (Z.to_nat (k * sample_width self)) by nia.
    rewrite cat_file_sub by nia.
    f_equal; lia. }
  rewrite (concat_region _ _ _
             (if decide (data_format (data_descriptor (spec self)) = IBM32)
              then le_encode 4 (ibm2ieee (le_decode (rev (file_sample self content i k))))
              else rev (file_sample self content i k))); [reflexivity | |].
  - apply Forall_forall. intros r Hr.
    apply list_elem_of_In, in_map_iff in Hr as (c & <- & Hc).
    assert (length c = Z.to_nat (sample_width self)) as Hc'
      by (rewrite Forall_forall in Hu; apply Hu, list_elem_of_In, Hc).
    destruct (decide _) as [Hibm |]; [| rewrite length_rev; exact Hc'].
    rewrite length_le_encode. unfold sample_width. rewrite Hibm. reflexivity.
  - rewrite list_lookup_fmap. unfold chunks.
    rewrite chunks_n_lookup.
    + cbn [fmap option_fmap option_map]. rewrite Hword. reflexivity.
    + unfold chunks in Hn. rewrite chunks_n_length in Hn. lia.
Qed.

(** The field [src_x] of the trace of the Rev0 file. *)
Lemma header_fields_reversed_witness :
  exists a st' r,
    __getitem__ (rev0_indexer HeaderIndexer) (IInt 0) empty_state
    = (Ok (OutArray a), st')
    /\ records st' a = [r]
    /\ field_bytes (mkField "src_x" 72 INT32 BIG "Source X coordinate") r
       = [x02; x01; x00; x00].
Proof.
  destruct (header_fields_reversed (rev0_indexer HeaderIndexer) rev0_file 0
              (mkField "src_x" 72 INT32 BIG "Source X coordinate") empty_state)
    as (a & st' & r & Hget & Hrec & Hfield).
  - repeat split; (reflexivity || (vm_compute; discriminate)).
  - unfold in_bounds. simpl. lia.
  - discriminate.
  - vm_compute. reflexivity.
  - apply list_elem_of_In. vm_compute. tauto.
  - exists a, st', r. split; [exact Hget |]. split; [exact Hrec | exact Hfield].
Defined.

(** The sample of trace 1 of the small file: 8.0. *)
Lemma samples_converted_witness :
  exists a st' r,
    __getitem__ (small_indexer TraceIndexer) (IInt 1) empty_state
    = (Ok (OutArray a), st')
    /\ records st' a = [r]
    /\ sample_bytes (small_indexer TraceIndexer) 0 r = [x00; x00; x00; x41].
Proof.
  destruct (samples_converted (small_indexer TraceIndexer) small_file 1 0 empty_state)
    as (a & st' & r & Hget & Hrec & Hsample).
  - repeat split; (reflexivity || (vm_compute; discriminate)).
  - unfold in_bounds. simpl. lia.
  - discriminate.
  - simpl. lia.
  - exists a, st', r. split; [exact Hget |]. split; [exact Hrec | exact Hsample].
Defined.

(** ** The requests made to the file system *)

(** Decoding logs nothing. *)
Lemma decode_log (self : AbstractIndexer) (b : nat) (st : state) :
  log (snd (decode self b st)) = log st.
Proof.
  unfold decode, TraceIndexer_decode, HeaderIndexer_decode, DataIndexer_decode,
    frombuffer, byteswap_inplace, map_records, trace_ibm2ieee_inplace, view,
    ibm2ieee_array.
  destruct (cls self); run_M;
    repeat match goal with
           | |- context [if ?c then _ else _] => destruct c
           | |- context [match ?d with DHeader _ => _ | _ => _ end] => destruct d
           end; run_M; try reflexivity;
    repeat match goal with
           | |- context [if ?c then _ else _] => destruct c; run_M
           end; reflexivity.
Qed.

Lemma merge_offset_ranges_requests (self : AbstractIndexer) (indices : list Z) :
  0 < stride self ->
  merge_offset_ranges (repeat (url self) (length indices))
    (List.map (fun t => snd (fst t)) (List.map (range_of self) indices))
    (List.map snd (List.map (range_of self) indices))
    0 (Some default_block_size) true
  = Ok (List.map (fun t => fst (fst t)) (requests self indices),
        List.map (fun t => snd (fst t)) (requests self indices),
        List.map snd (requests self indices)).
Proof.
  intros Hst. unfold merge_offset_ranges, requests.
  rewrite repeat_length, !length_map, !Nat.eqb_refl. cbn [negb orb].
  destruct indices as [|i1 [|i2 rest]]; [reflexivity | reflexivity |].
  replace (length (i1 :: i2 :: rest) <=? 1)%nat with false by reflexivity.
  cbv iota.
  rewrite <- (length_map (range_of self) (i1 :: i2 :: rest)).
  rewrite <- (length_map (fun t : string * Z * Z => snd (fst t))
                (List.map (range_of self) (i1 :: i2 :: rest))).
  rewrite (combine_repeat_ranges (url self) _ (range_of_paths self _)).
  rewrite sorted_range_of by exact Hst.
  destruct (ascending (i1 :: i2 :: rest)) as [|j J] eqn:EJ.
  { apply (f_equal (@length Z)) in EJ. rewrite length_ascending in EJ. discriminate. }
  reflexivity.
Qed.

(** What [fetch] logs when it returns: the ranges it planned and the
    blocks it asked for. *)
Lemma fetch_log (self : AbstractIndexer) (indices : list Z) (st st' : state)
    (a : ndarray) :
  0 < stride self ->
  fetch self indices st = (Ok a, st') ->
  log st' = log st ++ [EvByteRanges (fst (indices_to_byte_ranges self indices))
                                    (snd (indices_to_byte_ranges self indices));
                       EvRequests (requests self indices)].
Proof.
  intros Hst. unfold fetch, merge_cat_file.
  rewrite indices_to_byte_ranges_range_of. cbn [fst snd].
  rewrite !length_map, (merge_offset_ranges_requests self indices Hst).
  run_M.
  destruct (join _) as [joined | e]; [| discriminate].
  match goal with
  | |- context [decode self ?b ?s] =>
      pose proof (decode_log self b s) as Hlog;
      destruct (decode self b s) as [[d | e] st2]
  end; [| discriminate].
  intros [= _ <-]. cbn [snd log] in Hlog. rewrite Hlog, <- app_assoc. reflexivity.
Qed.

(** The blocks of the ranges of indices in increasing order when regions
    of different traces do not touch: one block for each trace, whatever
    the block size. *)
Lemma merge_loop_separate (self : AbstractIndexer) (block : Z) (J : list Z)
    (out : list (string * Z * Z)) (j : Z) :
  0 < itemsize (record_dtype self) < stride self ->
  increasing (j :: J) ->
  merge_loop 0 (Some block) (url self) (List.map (range_of self) J) out
    (range_of self j)
  = out ++ List.map (range_of self) (j :: J).
Proof.
  intros Hsz. revert out j.
  induction J as [|i J IH]; intros out j Hinc; [reflexivity |].
  destruct Hinc as [Hji Hinc].
  cbn [List.map merge_loop]. rewrite !range_of_bytes.
  rewrite String.eqb_refl. cbn [negb orb].
  replace (first_byte self i - end_byte self j >? 0) with true
    by (symmetry; rewrite Z.gtb_ltb; apply Z.ltb_lt;
        unfold end_byte, first_byte; nia).
  cbn [orb]. rewrite <- !range_of_bytes. rewrite IH by exact Hinc.
  cbn [List.map]. rewrite <- app_assoc. reflexivity.
Qed.

(** The blocks of the ranges of consecutive whole traces that fit a
    block together: one block. *)
Lemma merge_loop_run (self : AbstractIndexer) (block : Z) (a cs : Z)
    (s n : nat) (out : list (string * Z * Z)) :
  region_start self = 0 ->
  itemsize (record_dtype self) = stride self ->
  0 < stride self ->
  end_byte self (a + Z.of_nat s + Z.of_nat n) - cs <= block ->
  merge_loop 0 (Some block) (url self)
    (List.map (range_of self) (List.map (fun k => a + Z.of_nat k) (seq (S s) n)))
    out (url self, cs, end_byte self (a + Z.of_nat s))
  = out ++ [(url self, cs, end_byte self (a + Z.of_nat s + Z.of_nat n))].
Proof.
  intros Hrs Hsz Hst. revert s.
  induction n as [|n IH]; intros s Hfit.
  - cbn [seq List.map merge_loop]. rewrite Z.add_0_r. reflexivity.
  - cbn [seq List.map merge_loop]. rewrite range_of_bytes.
    rewrite String.eqb_refl. cbn [negb orb].
    assert (first_byte self (a + Z.of_nat (S s)) = end_byte self (a + Z.of_nat s)) as Hnext
      by (unfold end_byte, first_byte; lia).
    assert (end_byte self (a + Z.of_nat (S s))
            <= end_byte self (a + Z.of_nat s + Z.of_nat (S n))) as Hmono.
    { unfold end_byte, first_byte.
      assert (0 <= Z.of_nat n * stride self) by nia. lia. }
    replace (first_byte self (a + Z.of_nat (S s)) - end_byte self (a + Z.of_nat s) >? 0)
      with false
      by (symmetry; rewrite Z.gtb_ltb; apply Z.ltb_ge; lia).
    replace (end_byte self (a + Z.of_nat (S s)) - cs >? block) with false
      by (symmetry; rewrite Z.gtb_ltb; apply Z.ltb_ge; lia).
    cbn [orb]. rewrite IH.
    + replace (a + Z.of_nat (S s) + Z.of_nat n) with (a + Z.of_nat s + Z.of_nat (S n))
        by lia. reflexivity.
    + replace (a + Z.of_nat (S s) + Z.of_nat n) with (a + Z.of_nat s + Z.of_nat (S n))
        by lia. exact Hfit.
Qed.

Lemma range_step_one (a b : Z) :
  range a b 1 = List.map (fun k => a + Z.of_nat k) (seq 0 (Z.to_nat (b - a))).
Proof.
  unfold range. cbn [Z.ltb Z.compare].
  rewrite Z.div_1_r. replace (b - a + 1 - 1) with (b - a) by lia.
  apply List.map_ext. intros k. lia.
Qed.

(** One request for each trace: the indexers of headers and of data ask
    the file system for the region of every trace by itself, in
    increasing order of index. *)
Theorem getitem_one_request_per_trace (self : AbstractIndexer)
    (content : list byte) (indices : list Z) (st : state) :
  holds_traces self content ->
  cls self <> TraceIndexer ->
  indices <> [] ->
  Forall (in_bounds self) indices ->
  NoDup indices ->
  exists a st',
    __getitem__ self (IList indices) st = post_process self a st'
    /\ log st'
       = log st ++ [EvByteRanges (fst (indices_to_byte_ranges self indices))
                                 (snd (indices_to_byte_ranges self indices));
                    EvRequests (List.map (range_of self) (ascending indices))].
Proof.
  intros Hfile Hcls Hne Hin Hnd.
  destruct (region_sizes self content Hfile) as (Hsz & Hrs & Hfit).
  assert (itemsize (record_dtype self) < stride self) as Hgap.
  { destruct Hfile as (_ & _ & Hh & Hs & _).
    pose proof (width_pos (storage (data_format (data_descriptor (spec self))))).
    unfold record_dtype, stride, trace_dtype in *.
    destruct (cls self); [contradiction | |]; cbn [itemsize] in *;
      unfold data_itemsize; cbn [base shape data_descriptor_dtype]; nia. }
  destruct (fetch_distinct self content indices st Hfile Hin Hnd)
    as (a & st' & Hfetch & _).
  exists a, st'. split.
  { rewrite (getitem_list_run self indices st Hin). run_M.
    rewrite Hfetch. reflexivity. }
  rewrite (fetch_log self indices st st' a ltac:(lia) Hfetch).
  do 3 f_equal. unfold requests.
  pose proof (ascending_distinct_increasing indices Hnd) as Hinc.
  destruct (ascending indices) as [|j J]; [reflexivity |].
  rewrite (merge_loop_separate self default_block_size J [] j); auto with lia.
Qed.

(** One request for a run of whole traces: the slice [[a:b]] of an
    indexer of traces whose traces fit a block together is asked of the
    file system as one range. *)
Theorem getitem_slice_one_request (self : AbstractIndexer)
    (content : list byte) (a b : Z) (st : state) :
  holds_traces self content ->
  cls self = TraceIndexer ->
  0 <= a < b -> b <= max_value self ->
  (b - a) * stride self <= default_block_size ->
  exists arr st',
    __getitem__ self (ISlice (mkSlice (Some a) (Some b) None)) st
    = post_process self arr st'
    /\ log st'
       = log st ++ [EvByteRanges (fst (indices_to_byte_ranges self (range a b 1)))
                                 (snd (indices_to_byte_ranges self (range a b 1)));
                    EvCatRanges [url self]
                                [trace_offset (spec self) + a * stride self]
                                [trace_offset (spec self) + b * stride self]].
Proof.
  intros Hfile Hcls Hab Hb Hfit.
  destruct (region_sizes self content Hfile) as (Hsz & _ & _).
  assert (region_start self = 0) as Hrs by (unfold region_start; rewrite Hcls; reflexivity).
  assert (itemsize (record_dtype self) = stride self) as Hrec
    by (unfold record_dtype, stride; rewrite Hcls; reflexivity).
  assert (Forall (in_bounds self) (range a b 1)) as Hin.
  { apply Forall_forall. intros i Hi.
    pose proof (range_members a b 1 i ltac:(lia) Hi) as H. cbn in H.
    unfold in_bounds. lia. }
  destruct (fetch_distinct self content (range a b 1) st Hfile Hin
              (proj1 (range_distinct a b 1 ltac:(lia))))
    as (arr & st' & Hfetch & _).
  exists arr, st'. split.
  { unfold __getitem__. cbn [step start stop].
    destruct (decide (None = Some 0)) as [|_]; [discriminate |].
    run_M.
    replace (bounds_check _ (max_value self) (kind self)) with (Ok tt).
    - cbn beta iota.
      replace (slice_indices (mkSlice (Some a) (Some b) None) (max_value self))
        with (Ok (a, b, 1)).
      + cbn beta iota. rewrite Hfetch. reflexivity.
      + unfold slice_indices. cbn [step start stop Z.eqb Z.ltb Z.compare].
        replace (max_value self <? 0) with false by (symmetry; apply Z.ltb_ge; lia).
        replace (a <? 0) with false by (symmetry; apply Z.ltb_ge; lia).
        replace (b <? 0) with false by (symmetry; apply Z.ltb_ge; lia).
        repeat f_equal; lia.
    - symmetry. apply bounds_check_ok_iff.
      unfold or_default.
      replace (a =? 0) with (a =? 0) by reflexivity.
      destruct (Z.eqb_spec a 0), (Z.eqb_spec b 0); repeat constructor; lia. }
  rewrite (fetch_log self (range a b 1) st st' arr ltac:(lia) Hfetch).
  do 3 f_equal. unfold requests.
  rewrite (ascending_increasing _ (range_increasing a b 1 ltac:(lia))).
  rewrite range_step_one.
  destruct (Z.to_nat (b - a)) as [|n] eqn:En; [lia |].
  cbn [seq List.map]. rewrite range_of_bytes.
  replace (a + Z.of_nat 0) with (a + Z.of_nat 0 + 0) by lia.
  pose proof (merge_loop_run self default_block_size a (first_byte self (a + Z.of_nat 0 + 0))
                0 n [] Hrs Hrec ltac:(lia)) as Hrun.
  replace (a + Z.of_nat 0 + 0) with (a + Z.of_nat 0) in * by lia.
  rewrite Hrun.
  - unfold EvRequests. cbn [List.map app fst snd]. f_equal.
    + unfold first_byte. rewrite Hrs. f_equal. lia.
    + unfold end_byte, first_byte. rewrite Hrs, Hrec. f_equal. nia.
  - unfold end_byte, first_byte. rewrite Hrs, Hrec. nia.
Qed.

(** The headers of traces 2, 0 and 1 of the small file: three
    requests. *)
Lemma getitem_one_request_per_trace_witness :
  exists a st',
    __getitem__ (small_indexer HeaderIndexer) (IList [2; 0; 1]) empty_state
    = (Ok (OutArray a), st')
    /\ log st'
       = [EvByteRanges [13; 1; 7] [15; 3; 9];
          EvCatRanges ["file.segy"; "file.segy"; "file.segy"] [1; 7; 13] [3; 9; 15]].
Proof.
  apply (getitem_one_request_per_trace (small_indexer HeaderIndexer) small_file
           [2; 0; 1] empty_state).
  - repeat split; (reflexivity || (vm_compute; discriminate)).
  - discriminate.
  - discriminate.
  - repeat constructor; vm_compute; discriminate.
  - apply (bool_decide_unpack _). vm_compute. exact I.
Defined.

(** The three traces of the small file: one request. *)
Lemma getitem_slice_one_request_witness :
  exists arr st',
    __getitem__ (small_indexer TraceIndexer) (ISlice (mkSlice (Some 0) (Some 3) None))
      empty_state
    = (Ok (OutArray arr), st')
    /\ log st'
       = [EvByteRanges [1; 7; 13] [7; 13; 19];
          EvCatRanges ["file.segy"] [1] [19]].
Proof.
  apply (getitem_slice_one_request (small_indexer TraceIndexer) small_file 0 3
           empty_state).
  - repeat split; (reflexivity || (vm_compute; discriminate)).
  - reflexivity.
  - lia.
  - simpl. lia.
  - vm_compute; discriminate.
Defined.

(** ** Post-processing *)

(** Indexing two traces or more with [postprocess_kwargs] given: the
    array fetched comes back as it is unless ["pandas_headers"] is set,
    in which case the indexer of headers wraps it in a frame and the
    indexer of traces in a dictionary of a frame of the headers and the
    data; the indexer of data returns the array whatever the option. *)
Theorem getitem_pandas_headers (self : AbstractIndexer) (content : list byte)
    (indices : list Z) (kwargs : gmap string bool) (st : state) :
  holds_traces self content ->
  (1 < length indices)%nat ->
  Forall (in_bounds self) indices ->
  NoDup indices ->
  postprocess_kwargs self = Some kwargs ->
  exists a st',
    fetch self indices st = (Ok a, st')
    /\ __getitem__ self (IList indices) st
       = (Ok (match kwargs !! "pandas_headers", cls self with
              | Some true, TraceIndexer => OutHeaderFrameAndData a
              | Some true, HeaderIndexer => OutDataFrame a
              | _, _ => OutArray a
              end), st').
Proof.
  intros Hfile _ Hin Hnd Hkw.
  destruct (fetch_distinct self content indices st Hfile Hin Hnd)
    as (a & st' & Hfetch & _).
  exists a, st'. split; [exact Hfetch |].
  rewrite (getitem_list_run self indices st Hin). run_M.
  rewrite Hfetch. cbn beta iota.
  unfold post_process, using_pandas. rewrite Hkw.
  destruct (cls self); run_M; destruct (kwargs !! "pandas_headers") as [[] |];
    reflexivity.
Qed.

(** The headers of the small file as a frame. *)
Lemma getitem_pandas_headers_witness :
  exists a st',
    fetch (mkIndexer HeaderIndexer {["file.segy" := small_file]} "file.segy"
             small_spec 3 "header" (Some {["pandas_headers" := true]}))
      [0; 1] empty_state = (Ok a, st')
    /\ __getitem__ (mkIndexer HeaderIndexer {["file.segy" := small_file]} "file.segy"
                      small_spec 3 "header" (Some {["pandas_headers" := true]}))
         (IList [0; 1]) empty_state
       = (Ok (OutDataFrame a), st').
Proof.
  destruct (getitem_pandas_headers
              (mkIndexer HeaderIndexer {["file.segy" := small_file]} "file.segy"
                 small_spec 3 "header" (Some {["pandas_headers" := true]}))
              small_file [0; 1] {["pandas_headers" := true]} empty_state)
    as (a & st' & Hfetch & Hget).
  - repeat split; (reflexivity || (vm_compute; discriminate)).
  - simpl. lia.
  - repeat constructor; vm_compute; discriminate.
  - apply (bool_decide_unpack _). vm_compute. exact I.
  - reflexivity.
  - exists a, st'. split; [exact Hfetch |]. rewrite Hget. reflexivity.
Defined.

(** ** [merge_cat_file] by itself *)

(** [merge_cat_file] on ranges of a file given in ascending order, none
    reaching into the next: a new buffer is returned that holds the
    bytes of the ranges one after the other, whatever the block size;
    the buffers there were are left as they are. *)
Theorem merge_cat_file_bytes (fs : AbstractFileSystem) (url : string)
    (content : list byte) (ranges : list (string * Z * Z)) (block_size : Z)
    (st : state) :
  fs !! url = Some content ->
  chain url 0 ranges ->
  exists b st',
    merge_cat_file fs url (List.map (fun t => snd (fst t)) ranges)
      (List.map snd ranges) block_size st = (Ok b, st')
    /\ (b ∉ dom (bufs st))
    /\ bufs st' !! b = Some (bytes_of content ranges)
    /\ forall b', b' <> b -> bufs st' !! b' = bufs st !! b'.
Proof.
  intros Hfs Hchain.
  destruct (merge_cat_file_chain fs url content ranges block_size st Hfs Hchain)
    as (ev & Hrun).
  eexists. eexists. split; [exact Hrun |]. cbn [bufs].
  split; [apply is_fresh |].
  split; [apply lookup_insert_eq |].
  intros b' Hb'. apply lookup_insert_ne. congruence.
Qed.

(** Bytes 1-3 and 13-15 of the small file, with a block size of one
    byte. *)
Lemma merge_cat_file_bytes_witness :
  exists b st',
    merge_cat_file {["file.segy" := small_file]} "file.segy" [1; 13] [3; 15] 1
      empty_state = (Ok b, st')
    /\ bufs st' !! b = Some [x00; x01; x00; x03].
Proof.
  destruct (merge_cat_file_bytes {["file.segy" := small_file]} "file.segy" small_file
              [("file.segy", 1, 3); ("file.segy", 13, 15)] 1 empty_state)
    as (b & st' & Hrun & _ & Hb & _).
  - reflexivity.
  - cbn. repeat split; lia.
  - exists b, st'. split; [exact Hrun | exact Hb].
Defined.

(** ** The Rev0 headers *)

(** The headers of the Rev0 standard are well formed: in each, the names
    of the fields are distinct, every field is big-endian and lies
    within the record, and no two fields share a byte. *)
Theorem rev0_headers_well_formed :
  well_formed Rev0.rev0_binary_file_header = true
  /\ well_formed Rev0.rev0_trace_header = true
  /\ NoDup (List.map name (fields Rev0.rev0_binary_file_header))
  /\ NoDup (List.map name (fields Rev0.rev0_trace_header))
  /\ Forall (fun f => endianness f = BIG)
       (fields Rev0.rev0_binary_file_header ++ fields Rev0.rev0_trace_header).
Proof.
  split; [vm_compute; reflexivity |]. split; [vm_compute; reflexivity |].
  split; [apply (bool_decide_unpack _); vm_compute; exact I |].
  split; [apply (bool_decide_unpack _); vm_compute; exact I |].
  apply (bool_decide_unpack _). vm_compute. exact I.
Qed.

End RecordsFacts.

(** * Properties of indexing files that are missing or short *)

Section FileFacts.
Import Schema Ibm Py Fsspec Indexing Examples Selection Records.

(** The first block [merge_offset_ranges] makes is of the file of the
    first range. *)
Lemma merge_loop_head (max_gap : Z) (max_block : option Z) (prev : string)
    (rest out : list (string * Z * Z)) (cur : string * Z * Z) :
  exists x tail,
    merge_loop max_gap max_block prev rest out cur = x :: tail
    /\ fst (fst x) = fst (fst (hd cur out)).
Proof.
  revert prev out cur. induction rest as [|[[p s] e] rest IH]; intros prev out cur.
  - cbn [merge_loop]. destruct out as [|o out]; cbn; eauto.
  - cbn [merge_loop]. destruct cur as [[cp cs] ce].
    destruct (_ || _).
    + destruct (IH p (out ++ [(cp, cs, ce)]) (p, s, e)) as (x & tail & -> & Hx).
      exists x, tail. split; [reflexivity |]. rewrite Hx.
      destruct out; reflexivity.
    + destruct (IH p out (cp, cs, e)) as (x & tail & -> & Hx).
      exists x, tail. split; [reflexivity |]. rewrite Hx.
      destruct out; reflexivity.
Qed.

(** Indexing distinct traces of a file that the file system does not
    have: the ranges are planned and asked for, the file system hands back its error in place
    of the bytes, and joining the parts raises [TypeError]; no buffer is
    made. *)
Theorem getitem_missing_file (self : AbstractIndexer) (indices : list Z)
    (st : state) :
  fs self !! url self = None ->
  0 < stride self ->
  indices <> [] ->
  Forall (in_bounds self) indices ->
  NoDup indices ->
  exists msg st',
    __getitem__ self (IList indices) st = (Raise (TypeError msg), st')
    /\ bufs st' = bufs st
    /\ log st'
       = log st ++ [EvByteRanges (fst (indices_to_byte_ranges self indices))
                                 (snd (indices_to_byte_ranges self indices));
                    EvRequests (requests self indices)].
Proof.
  intros Hfs Hst Hne Hin _.
  assert (exists x tail, requests self indices = x :: tail /\ fst (fst x) = url self)
    as (x & tail & Hreq & Hx).
  { unfold requests. destruct (ascending indices) as [|j J] eqn:EJ.
    - apply (f_equal (@length Z)) in EJ. rewrite length_ascending in EJ.
      destruct indices; [contradiction | discriminate].
    - destruct (merge_loop_head 0 (Some default_block_size) (url self)
                  (List.map (range_of self) J) [] (range_of self j))
        as (x & tail & Hrun & Hx).
      exists x, tail. split; [exact Hrun | exact Hx]. }
  unfold __getitem__. run_M.
  replace (bounds_check indices (max_value self) (kind self)) with (Ok tt)
    by (symmetry; apply bounds_check_ok_iff; exact Hin).
  cbn beta iota. unfold fetch, merge_cat_file.
  rewrite indices_to_byte_ranges_range_of. cbn [fst snd].
  rewrite !length_map, (merge_offset_ranges_requests self indices Hst).
  run_M. rewrite combine_split3, Hreq.
  destruct x as [[p s] e]. cbn [fst] in Hx. subst p.
  cbn [cat_ranges]. rewrite Hfs. unfold join. cbn [join_from].
  eexists. eexists. split; [reflexivity |]. split; [reflexivity |].
  cbn [log]. rewrite <- app_assoc. rewrite <- Hreq. reflexivity.
Qed.

(** The small specification over a file system with no file. *)
Lemma getitem_missing_file_witness :
  exists msg st',
    __getitem__ (mkIndexer TraceIndexer ∅ "file.segy" small_spec 3 "trace" (Some ∅))
      (IList [0; 1]) empty_state
    = (Raise (TypeError msg), st')
    /\ bufs st' = ∅
    /\ log st' = [EvByteRanges [1; 7] [7; 13]; EvCatRanges ["file.segy"] [1] [13]].
Proof.
  apply (getitem_missing_file
           (mkIndexer TraceIndexer ∅ "file.segy" small_spec 3 "trace" (Some ∅))
           [0; 1] empty_state).
  - reflexivity.
  - reflexivity.
  - discriminate.
  - repeat constructor; vm_compute; discriminate.
  - apply (bool_decide_unpack _). vm_compute. exact I.
Defined.

(** A buffer that is not made of whole records is not decoded. *)
Lemma decode_short (self : AbstractIndexer) (b : nat) (content : list byte)
    (st : state) :
  bufs st !! b = Some content ->
  0 < itemsize (record_dtype self) ->
  Z.of_nat (length content) mod itemsize (record_dtype self) <> 0 ->
  decode self b st
  = (Raise (ValueError "buffer size must be a multiple of element size"), st).
Proof.
  intros Hb Hsz Hmod.
  unfold decode, TraceIndexer_decode, HeaderIndexer_decode, DataIndexer_decode,
    frombuffer.
  unfold record_dtype in *.
  destruct (cls self); run_M; rewrite Hb; cbn [from_option id];
    (replace (_ <=? 0) with false by (symmetry; apply Z.leb_gt; exact Hsz));
    (replace (_ mod _ =? 0) with false by (symmetry; apply Z.eqb_neq; exact Hmod));
    reflexivity.
Qed.

(** Indexing a trace that the file holds only the beginning of: the read
    is short, and decoding the buffer raises [ValueError]. *)
Theorem getitem_short_file (self : AbstractIndexer) (content : list byte)
    (i : Z) (st : state) :
  fs self !! url self = Some content ->
  0 <= trace_offset (spec self) ->
  0 < item_size (header_descriptor (spec self)) ->
  0 < samples (data_descriptor (spec self)) ->
  in_bounds self i ->
  first_byte self i < Z.of_nat (length content) < end_byte self i ->
  exists msg st',
    __getitem__ self (IInt i) st = (Raise (ValueError msg), st').
Proof.
  intros Hfs Hoff Hh Hs Hi Hshort.
  assert (0 < itemsize (record_dtype self)) as Hsz.
  { pose proof (width_pos (storage (data_format (data_descriptor (spec self))))).
    unfold record_dtype, trace_dtype. destruct (cls self); cbn [itemsize];
      unfold data_itemsize; cbn [base shape data_descriptor_dtype]; nia. }
  assert (0 <= first_byte self i) as Hfb.
  { unfold first_byte, region_start, stride, trace_dtype, in_bounds in *.
    pose proof (width_pos (storage (data_format (data_descriptor (spec self))))).
    cbn [itemsize]. unfold data_itemsize. cbn [base shape data_descriptor_dtype].
    destruct (cls self); nia. }
  unfold __getitem__. run_M.
  replace (bounds_check [i] (max_value self) (kind self)) with (Ok tt)
    by (symmetry; apply bounds_check_ok_iff; repeat constructor; apply Hi).
  cbn beta iota. unfold fetch, merge_cat_file.
  rewrite indices_to_byte_ranges_range_of. cbn [fst snd List.map length repeat].
  unfold merge_offset_ranges. cbn [length Nat.eqb Nat.leb negb orb].
  run_M. cbn [combine cat_ranges]. rewrite range_of_bytes. cbn [fst snd].
  rewrite Hfs. unfold join. cbn [join_from]. rewrite app_nil_r. run_M.
  erewrite decode_short; [eexists; eexists; reflexivity | apply lookup_insert_eq
                          | exact Hsz |].
  unfold cat_file. rewrite length_take, length_drop.
  unfold end_byte in *.
  replace (Z.of_nat (Z.to_nat (first_byte self i + itemsize (record_dtype self)
                               - first_byte self i)
                     `min` (length content - Z.to_nat (first_byte self i))))
    with (Z.of_nat (length content) - first_byte self i) by lia.
  rewrite Z.mod_small by lia. lia.
Qed.

(** The small file without its last byte: trace 2 is short. *)
Lemma getitem_short_file_witness :
  exists msg st',
    __getitem__ (mkIndexer TraceIndexer {["file.segy" := take 18 small_file]}
                   "file.segy" small_spec 3 "trace" (Some ∅))
      (IInt 2) empty_state
    = (Raise (ValueError msg), st').
Proof.
  apply (getitem_short_file
           (mkIndexer TraceIndexer {["file.segy" := take 18 small_file]}
              "file.segy" small_spec 3 "trace" (Some ∅))
           (take 18 small_file) 2 empty_state).
  - reflexivity.
  - vm_compute; discriminate.
  - reflexivity.
  - reflexivity.
  - unfold in_bounds. simpl. lia.
  - vm_compute. split; reflexivity.
Defined.

End FileFacts.

(** * Properties of registering and of customizing descriptors *)

Section CustomizeFacts.
Import Schema Py Registry Customize.

(** ** Registering and looking up *)

(** [register_spec] followed by [get_spec] of the same standard: whatever
    was registered for it before, a new object is handed out that reads
    as the descriptor just registered, which is itself left as it is;
    and registering one standard changes nothing for the others. *)
Theorem register_spec_then_get_spec (spec_type : SegyStandard) (spec : nat)
    (st : state) (t : tree) :
  read depth_limit (heap st) (VRef spec) = Some t ->
  (exists l' st',
     get_spec spec_type (register_spec spec_type spec st) = (Ok l', st')
     /\ l' <> spec
     /\ (l' ∉ dom (heap st))
     /\ read depth_limit (heap st') (VRef l') = Some t
     /\ read depth_limit (heap st') (VRef spec) = Some t
     /\ registry st' = <[spec_type := spec]> (registry st))
  /\ forall other,
       other <> spec_type ->
       get_spec other (register_spec spec_type spec st)
       = (fst (get_spec other st),
          register_spec spec_type spec (snd (get_spec other st))).
Proof.
  intros Hread. split.
  - destruct (get_spec_run spec_type (register_spec spec_type spec st) spec t)
      as (l' & h' & Hrun & Hext & Hnew & Hread').
    { apply lookup_insert_eq. }
    { exact Hread. }
    cbn [heap registry register_spec] in *.
    exists l', {| heap := h'; registry := <[spec_type := spec]> (registry st) |}.
    split; [exact Hrun |].
    assert (spec ∈ dom (heap st)) as Hspec.
    { unfold depth_limit in Hread. apply read_ref in Hread as (o & _ & Ho & _).
      apply elem_of_dom. eauto. }
    split; [intros ->; contradiction |].
    split; [exact Hnew |].
    split; [exact Hread' |].
    split; [| reflexivity].
    cbn [heap]. apply (read_weaken _ (heap st)); [apply Hext | exact Hread].
  - intros other Hother. unfold get_spec, register_spec. cbn [heap registry].
    rewrite lookup_insert_ne by congruence.
    destruct (registry st !! other) as [l |]; [| reflexivity].
    destruct (deepcopy depth_limit (heap st) (VRef l)) as [[h' [a | l']] |];
      reflexivity.
Qed.

(** A second descriptor registered as Rev0 in place of the first. *)
Lemma register_spec_then_get_spec_witness :
  exists l' st',
    get_spec REV0 (register_spec REV0 104%nat rev0_registered) = (Ok l', st')
    /\ l' <> 104%nat
    /\ read depth_limit (heap st') (VRef l') = Some rev0_trace
    /\ registry st' !! REV0 = Some 104%nat.
Proof.
  destruct (register_spec_then_get_spec REV0 104%nat rev0_registered rev0_trace)
    as [(l' & st' & Hrun & Hne & _ & Hread & _ & Hreg) _].
  - vm_compute. reflexivity.
  - exists l', st'. split; [exact Hrun |]. split; [exact Hne |].
    split; [exact Hread |]. rewrite Hreg. apply lookup_insert_eq.
Defined.

(** [get_spec] raises [NotImplementedError] exactly for a standard that
    is not registered, and then changes nothing. *)
Theorem get_spec_unregistered (spec_type : SegyStandard) (st : state) :
  (exists msg, get_spec spec_type st = (Raise (NotImplementedError msg), st))
  <-> registry st !! spec_type = None.
Proof.
  unfold get_spec. split.
  - intros (msg & H).
    destruct (registry st !! spec_type) as [l |]; [| reflexivity].
    destruct (deepcopy depth_limit (heap st) (VRef l)) as [[h' [a | l']] |];
      discriminate.
  - intros ->. eexists. reflexivity.
Qed.

(** ** Members *)

Lemma member_setattr_same {A} (name : string) (v v0 : A) (attrs : list (string * A)) :
  member name attrs = Some v0 ->
  member name (List.map (fun kv => if String.eqb (fst kv) name
                                   then (fst kv, v) else kv) attrs) = Some v.
Proof.
  induction attrs as [|[k w] attrs IH]; [discriminate |].
  cbn [member List.map fst].
  destruct (String.eqb k name) eqn:E; cbn [member]; rewrite E; [reflexivity | exact IH].
Qed.

Lemma member_setattr_other {A} (name other : string) (v : A)
    (attrs : list (string * A)) :
  other <> name ->
  member other (List.map (fun kv => if String.eqb (fst kv) name
                                    then (fst kv, v) else kv) attrs)
  = member other attrs.
Proof.
  intros Hne. induction attrs as [|[k w] attrs IH]; [reflexivity |].
  cbn [member List.map fst].
  destruct (String.eqb k name) eqn:E; cbn [member].
  - apply String.eqb_eq in E as ->.
    replace (String.eqb name other) with false
      by (symmetry; apply String.eqb_neq; congruence).
    exact IH.
  - rewrite IH. reflexivity.
Qed.

(** The members of an object and of the value read for it go by the
    same names. *)
Lemma member_read (n : nat) (h : gmap nat obj) (name : string)
    (attrs : list (string * val)) (ts : list (string * tree)) :
  Forall2 (fun kv kt => read_attr n h kv = Some kt) attrs ts ->
  match member name ts with
  | Some t => exists v, member name attrs = Some v /\ read n h v = Some t
  | None => member name attrs = None
  end.
Proof.
  induction 1 as [|[k v] [k' t] attrs ts Hkt _ IH]; [reflexivity |].
  unfold read_attr in Hkt. cbn [fst snd] in Hkt.
  destruct (read n h v) as [t0 |] eqn:Hv; [| discriminate].
  injection Hkt as <- <-. cbn [member].
  destruct (String.eqb k name); [| exact IH].
  exists v. split; [reflexivity | exact Hv].
Qed.

(** ** Copying an object *)

Lemma deepcopy_object (n : nat) (h : gmap nat obj) (l : nat) (c : string)
    (ts : list (string * tree)) :
  read (S n) h (VRef l) = Some (TObj c ts) ->
  exists h1 attrs,
    deepcopy (S n) h (VRef l)
    = Some (<[fresh (dom h1) := mkObj c attrs]> h1, VRef (fresh (dom h1)))
    /\ extends h h1
    /\ Forall (fun kv => new_in h (snd kv)) attrs
    /\ Forall2 (fun kv kt => read_attr n h1 kv = Some kt) attrs ts.
Proof.
  intros Hread. apply read_ref in Hread as (o & ts' & Hl & Hts & [= -> ->]).
  destruct (copy_attrs_spec n (deepcopy_spec n) (obj_attrs o) h ts' Hts)
    as (h1 & attrs & Hrun & Hext & Hnew & Hread).
  exists h1, attrs. cbn [deepcopy]. rewrite Hl, Hrun.
  split; [reflexivity |]. split; [exact Hext |]. split; [exact Hnew | exact Hread].
Qed.

(** ** [customize] *)

Lemma truthy_weaken (h h' : gmap nat obj) (v : val) :
  h ⊆ h' -> falsy h v -> truthy v h' = (Ok false, h').
Proof.
  intros Hsub. unfold falsy, truthy. cbn [fst]. intros [= Hv]. f_equal. f_equal.
  destruct v as [a | l]; [exact Hv |].
  destruct (h !! l) as [o |] eqn:Hl; [| discriminate].
  rewrite (lookup_weaken _ _ _ _ Hl Hsub). exact Hv.
Qed.

(** The copy [customize] starts from, with its standard set to custom:
    the objects there were are kept, the copy is a new object, and its
    members are those of the copy made. *)
Lemma customize_start (self : nat) (h : gmap nat obj) (c : string)
    (ts : list (string * tree)) :
  read depth_limit h (VRef self) = Some (TObj c ts) ->
  member "segy_standard" ts <> None ->
  exists h1 attrs,
    model_copy_deep self h
    = (Ok (VRef (fresh (dom h1))), <[fresh (dom h1) := mkObj c attrs]> h1)
    /\ assign (VRef (fresh (dom h1))) "segy_standard"
         (VAtom (AEnum "SegyStandard.CUSTOM")) (<[fresh (dom h1) := mkObj c attrs]> h1)
       = (Ok tt,
          <[fresh (dom h1)
            := mkObj c (List.map (fun kv => if String.eqb (fst kv) "segy_standard"
                                            then (fst kv, VAtom (AEnum "SegyStandard.CUSTOM"))
                                            else kv) attrs)]> h1)
    /\ extends h h1
    /\ Forall (fun kv => new_in h (snd kv)) attrs
    /\ Forall2 (fun kv kt => read_attr 999 h1 kv = Some kt) attrs ts.
Proof.
  intros Hread Hstd.
  destruct (deepcopy_object 999 h self c ts Hread)
    as (h1 & attrs & Hcopy & Hext & Hnew & Hattrs).
  exists h1, attrs.
  split; [| split; [| split; [exact Hext | split; [exact Hnew | exact Hattrs]]]].
  - change (S 999) with depth_limit in Hcopy.
    unfold model_copy_deep. rewrite Hcopy. reflexivity.
  - unfold assign. rewrite lookup_insert_eq. cbn [obj_attrs].
    pose proof (member_read 999 h1 "segy_standard" attrs ts Hattrs) as Hm.
    destruct (member "segy_standard" ts) as [t |]; [| contradiction].
    destruct Hm as (v & -> & _).
    unfold setattr. rewrite lookup_insert_eq. cbn [obj_cls obj_attrs].
    rewrite insert_insert_eq. reflexivity.
Qed.

Lemma read_attrs_with_value (n : nat) (h : gmap nat obj) (name : string)
    (v : val) (t : tree) (attrs : list (string * val)) (ts : list (string * tree)) :
  read n h v = Some t ->
  Forall2 (fun kv kt => read_attr n h kv = Some kt) attrs ts ->
  Forall2 (fun kv kt => read_attr n h kv = Some kt)
    (List.map (fun kv => if String.eqb (fst kv) name then (fst kv, v) else kv) attrs)
    (with_member name t ts).
Proof.
  intros Hv. induction 1 as [|[k w] [k' t'] attrs ts Hkt _ IH]; [constructor |].
  cbn [List.map with_member fst]. constructor; [| exact IH].
  assert (k' = k) as ->.
  { unfold read_attr in Hkt. cbn [fst snd] in Hkt.
    destruct (read n h w); [| discriminate]. injection Hkt as <- _. reflexivity. }
  destruct (String.eqb k name); [| exact Hkt].
  unfold read_attr. cbn [fst snd]. rewrite Hv. reflexivity.
Qed.

(** [customize] with no override, or with overrides that are [None] or
    empty lists: a new object is returned that reads as [self] does but
    for its standard, which is custom; the objects there were are left
    as they are. *)
Theorem customize_without_overrides (self : nat) (h : gmap nat obj) (c : string)
    (ts : list (string * tree))
    (text_header_spec binary_header_fields extended_text_spec
     trace_header_fields trace_data_spec : val) :
  read depth_limit h (VRef self) = Some (TObj c ts) ->
  member "segy_standard" ts <> None ->
  falsy h text_header_spec ->
  falsy h binary_header_fields ->
  falsy h extended_text_spec ->
  falsy h trace_header_fields ->
  falsy h trace_data_spec ->
  exists l' h',
    customize self text_header_spec binary_header_fields extended_text_spec
      trace_header_fields trace_data_spec h
    = (Ok (VRef l'), h')
    /\ (l' ∉ dom h)
    /\ h ⊆ h'
    /\ read depth_limit h' (VRef l')
       = Some (TObj c (with_member "segy_standard"
                         (TAtom (AEnum "SegyStandard.CUSTOM")) ts)).
Proof.
  intros Hread Hstd H1 H2 H3 H4 H5.
  destruct (customize_start self h c ts Hread Hstd)
    as (h1 & attrs & Hcopy & Hassign & Hext & Hnew & Hattrs).
  set (l' := fresh (dom h1)) in *.
  assert (l' ∉ dom h1) as Hl' by apply is_fresh.
  set (h3 := <[l' := mkObj c (List.map _ attrs)]> h1) in Hassign.
  assert (h1 ⊆ h3) as Hsub13.
  { apply insert_subseteq. apply not_elem_of_dom. exact Hl'. }
  assert (h ⊆ h3) as Hsub by (etransitivity; [apply Hext | exact Hsub13]).
  exists l', h3. split; [| split; [| split; [exact Hsub |]]].
  - unfold customize, mbind, HeapM_bind, mret, HeapM_ret. rewrite Hcopy, Hassign.
    repeat (rewrite (truthy_weaken h h3) by assumption; cbn beta iota).
    reflexivity.
  - intros Hin. apply Hl'. eapply subseteq_dom; [apply Hext | exact Hin].
  - change depth_limit with (S 999). apply read_ref.
    eexists. eexists. split; [apply lookup_insert_eq |]. split; [| reflexivity].
    cbn [obj_attrs]. apply read_attrs_with_value; [reflexivity |].
    eapply Forall2_impl; [exact Hattrs |].
    intros [k v] kt. unfold read_attr. cbn [fst snd].
    destruct (read 999 h1 v) as [t |] eqn:E; [| discriminate].
    rewrite (read_weaken 999 h1 h3 v t Hsub13 E). trivial.
Qed.

(** The Rev0 descriptor of the registry customized with nothing. *)
Lemma customize_without_overrides_witness :
  exists l' h',
    customize 105%nat (VAtom ANone) (VAtom ANone) (VAtom ANone) (VAtom ANone)
      (VAtom ANone) (heap rev0_registered)
    = (Ok (VRef l'), h')
    /\ (l' ∉ dom (heap rev0_registered))
    /\ read depth_limit h' (VRef 105%nat) = Some rev0_segy
    /\ read depth_limit h' (VRef l')
       = Some (TObj "SegyDescriptor"
                 [("segy_standard", TAtom (AEnum "SegyStandard.CUSTOM"));
                  ("text_file_header", rev0_textual_file_header);
                  ("binary_file_header", tree_of_struct Rev0.rev0_binary_file_header);
                  ("trace", rev0_trace)]).
Proof.
  destruct (customize_without_overrides 105%nat (heap rev0_registered)
              "SegyDescriptor"
              [("segy_standard", TAtom (AEnum "SegyStandard.REV0"));
               ("text_file_header", rev0_textual_file_header);
               ("binary_file_header", tree_of_struct Rev0.rev0_binary_file_header);
               ("trace", rev0_trace)]
              (VAtom ANone) (VAtom ANone) (VAtom ANone) (VAtom ANone) (VAtom ANone))
    as (l' & h' & Hrun & Hnew & Hsub & Hread).
  - vm_compute. reflexivity.
  - discriminate.
  - reflexivity.
  - reflexivity.
  - reflexivity.
  - reflexivity.
  - reflexivity.
  - exists l', h'. split; [exact Hrun |]. split; [exact Hnew |].
    split; [| exact Hread].
    apply (read_weaken _ (heap rev0_registered)); [exact Hsub |].
    vm_compute. reflexivity.
Defined.

(** ** What [customize] leaves alone *)

Lemma member_In {A} (name : string) (v : A) (attrs : list (string * A)) :
  member name attrs = Some v -> exists k, In (k, v) attrs.
Proof.
  induction attrs as [|[k w] attrs IH]; [discriminate |]. cbn [member].
  destruct (String.eqb k name).
  - intros [= ->]. exists k. left. reflexivity.
  - intros H. destruct (IH H) as (k' & Hin). exists k'. right. exact Hin.
Qed.

Lemma preserves_ret {A} (h : gmap nat obj) (a : A) (Q : A -> Prop) :
  Q a -> preserves h (mret a) Q.
Proof. intros Ha hc Hk. split; [exact Hk |]. intros a' [= <-]. exact Ha. Qed.

Lemma preserves_bind {A B} (h : gmap nat obj) (m : HeapM A) (f : A -> HeapM B)
    (Q : A -> Prop) (R : B -> Prop) :
  preserves h m Q -> (forall a, Q a -> preserves h (f a) R) ->
  preserves h (m ≫= f) R.
Proof.
  intros Hm Hf hc Hk. unfold mbind, HeapM_bind.
  destruct (Hm hc Hk) as [Hk1 Hq].
  destruct (m hc) as [[a | e] h1]; cbn [fst snd] in *.
  - apply (Hf a (Hq a eq_refl) h1 Hk1).
  - split; [exact Hk1 | discriminate].
Qed.

Lemma preserves_if {A} (h : gmap nat obj) (c : bool) (m1 m2 : HeapM A)
    (Q : A -> Prop) :
  preserves h m1 Q -> preserves h m2 Q ->
  preserves h (if c then m1 else m2) Q.
Proof. destruct c; trivial. Qed.

Lemma preserves_truthy (h : gmap nat obj) (v : val) :
  preserves h (truthy v) (fun _ => True).
Proof. intros hc Hk. split; [exact Hk | trivial]. Qed.

Lemma preserves_getattr (h : gmap nat obj) (target : val) (name : string) :
  new_in h target -> navigated name = true ->
  preserves h (getattr target name) (new_in h).
Proof.
  intros Hnew Hnav hc Hk. unfold getattr.
  destruct target as [a | l]; [split; [exact Hk | discriminate] |].
  destruct (hc !! l) as [o |] eqn:Hl; [| split; [exact Hk | discriminate]].
  destruct (member name (obj_attrs o)) as [v |] eqn:Hv;
    [| split; [exact Hk | discriminate]].
  split; [exact Hk |]. intros a [= <-].
  apply (proj2 Hk l o name v Hl Hnew Hnav Hv).
Qed.

Lemma preserves_assign (h : gmap nat obj) (target : val) (name : string) (v : val) :
  new_in h target -> navigated name = false ->
  preserves h (assign target name v) (fun _ => True).
Proof.
  intros Hnew Hnav hc Hk. unfold assign.
  destruct target as [a | l]; [split; [exact Hk | trivial] |].
  destruct (hc !! l) as [o |] eqn:Hl; [| split; [exact Hk | trivial]].
  destruct (member name (obj_attrs o)) as [v0 |] eqn:Hv0;
    [| split; [exact Hk | trivial]].
  split; [| trivial]. cbn [snd]. unfold setattr. rewrite Hl.
  destruct Hk as [Hsub Hmem]. split.
  - apply insert_subseteq_r; [apply not_elem_of_dom; exact Hnew | exact Hsub].
  - intros x o' name' v' Hx Hxnew Hnav' Hv'.
    destruct (decide (x = l)) as [-> | Hne].
    + rewrite lookup_insert_eq in Hx. injection Hx as <-. cbn [obj_attrs] in Hv'.
      rewrite member_setattr_other in Hv' by (intros ->; congruence).
      apply (Hmem l o name' v' Hl Hxnew Hnav' Hv').
    + rewrite lookup_insert_ne in Hx by congruence.
      apply (Hmem x o' name' v' Hx Hxnew Hnav' Hv').
Qed.

Lemma preserves_model_copy_deep (h : gmap nat obj) (self : nat) (t : tree) :
  read depth_limit h (VRef self) = Some t ->
  preserves h (model_copy_deep self) (fun v => exists l', v = VRef l' /\ l' ∉ dom h).
Proof.
  intros Hread hc Hk. destruct Hk as [Hsub Hmem].
  pose proof (read_weaken _ _ _ _ _ Hsub Hread) as Hread'.
  assert (exists c ts, t = TObj c ts) as (c & ts & ->).
  { unfold depth_limit in Hread. apply read_ref in Hread as (o & ts & _ & _ & ->).
    eauto. }
  destruct (deepcopy_object 999 hc self c ts Hread')
    as (h1 & attrs & Hcopy & Hext & Hnew & _).
  change (S 999) with depth_limit in Hcopy.
  unfold model_copy_deep. rewrite Hcopy. cbn [fst snd].
  assert (fresh (dom h1) ∉ dom h1) as Hl' by apply is_fresh.
  assert (forall v, new_in hc v -> new_in h v) as Hweak.
  { intros [a | l]; cbn; [trivial |]. intros Hl Hin. apply Hl.
    eapply subseteq_dom; eassumption. }
  split; [split |].
  - etransitivity; [exact Hsub |]. etransitivity; [apply Hext |].
    apply insert_subseteq. apply not_elem_of_dom. exact Hl'.
  - intros x o name v Hx Hxnew Hnav Hv.
    destruct (decide (x = fresh (dom h1))) as [-> | Hne].
    + rewrite lookup_insert_eq in Hx. injection Hx as <-. cbn [obj_attrs] in Hv.
      apply member_In in Hv as (k & Hin). apply Hweak.
      rewrite Forall_forall in Hnew.
      apply (Hnew (k, v)), list_elem_of_In, Hin.
    + rewrite lookup_insert_ne in Hx by congruence.
      destruct (hc !! x) as [o0 |] eqn:Hx0.
      * pose proof (lookup_weaken _ _ _ _ Hx0 (proj1 Hext)) as Hx1.
        rewrite Hx in Hx1. injection Hx1 as ->.
        apply (Hmem x o0 name v Hx0 Hxnew Hnav Hv).
      * apply Hweak. destruct v as [a | l]; cbn; [trivial |].
        pose proof (proj2 Hext x o Hx ltac:(apply not_elem_of_dom; exact Hx0)) as Hrefs.
        rewrite Forall_forall in Hrefs. apply Hrefs, elem_of_refs.
        apply member_In in Hv as (k & Hin). exists k. apply list_elem_of_In, Hin.
  - intros a [= <-]. eexists. split; [reflexivity |]. intros Hin. apply Hl'.
    eapply subseteq_dom; [| exact Hin].
    etransitivity; [exact Hsub | apply Hext].
Qed.

Lemma kept_refl (h : gmap nat obj) : kept h h.
Proof.
  split; [reflexivity |]. intros x o name v Hx Hnew. exfalso.
  apply Hnew, elem_of_dom. eauto.
Qed.

(** [customize] assigns to nothing that was there: whatever the overrides
    are, and whether it returns or raises, every object is afterwards as
    it was, so every value reads as it did, [self] and the overrides
    among them; and what it returns is a new object. *)
Theorem customize_keeps_objects (self : nat) (h : gmap nat obj) (t : tree)
    (text_header_spec binary_header_fields extended_text_spec
     trace_header_fields trace_data_spec : val) :
  read depth_limit h (VRef self) = Some t ->
  h ⊆ snd (customize self text_header_spec binary_header_fields
             extended_text_spec trace_header_fields trace_data_spec h)
  /\ (forall v t',
        read depth_limit h v = Some t' ->
        read depth_limit
          (snd (customize self text_header_spec binary_header_fields
                  extended_text_spec trace_header_fields trace_data_spec h)) v
        = Some t')
  /\ (forall v,
        fst (customize self text_header_spec binary_header_fields
               extended_text_spec trace_header_fields trace_data_spec h) = Ok v ->
        exists l', v = VRef l' /\ l' ∉ dom h).
Proof.
  intros Hread.
  assert (preserves h (customize self text_header_spec binary_header_fields
                         extended_text_spec trace_header_fields trace_data_spec)
            (fun v => exists l', v = VRef l' /\ l' ∉ dom h)) as Hp.
  { unfold customize.
    eapply preserves_bind; [apply (preserves_model_copy_deep h self t Hread) |].
    intros new_descr (l' & -> & Hnew).
    eapply preserves_bind; [apply preserves_assign; [exact Hnew | reflexivity] |].
    intros _ _.
    eapply preserves_bind; [apply preserves_truthy |]. intros c1 _.
    eapply preserves_bind.
    { apply preserves_if; [apply preserves_assign; [exact Hnew | reflexivity] |].
      apply (preserves_ret h tt (fun _ => True) I). }
    intros _ _.
    eapply preserves_bind; [apply preserves_truthy |]. intros c2 _.
    eapply preserves_bind.
    { apply preserves_if; [| apply (preserves_ret h tt (fun _ => True) I)].
      eapply preserves_bind; [apply preserves_getattr; [exact Hnew | reflexivity] |].
      intros b Hb. apply preserves_assign; [exact Hb | reflexivity]. }
    intros _ _.
    eapply preserves_bind; [apply preserves_truthy |]. intros c3 _.
    eapply preserves_bind.
    { apply preserves_if; [apply preserves_assign; [exact Hnew | reflexivity] |].
      apply (preserves_ret h tt (fun _ => True) I). }
    intros _ _.
    eapply preserves_bind; [apply preserves_truthy |]. intros c4 _.
    eapply preserves_bind.
    { apply preserves_if; [| apply (preserves_ret h tt (fun _ => True) I)].
      eapply preserves_bind; [apply preserves_getattr; [exact Hnew | reflexivity] |].
      intros tr Htr.
      eapply preserves_bind; [apply preserves_getattr; [exact Htr | reflexivity] |].
      intros hd Hhd. apply preserves_assign; [exact Hhd | reflexivity]. }
    intros _ _.
    eapply preserves_bind; [apply preserves_truthy |]. intros c5 _.
    eapply preserves_bind.
    { apply preserves_if; [| apply (preserves_ret h tt (fun _ => True) I)].
      eapply preserves_bind; [apply preserves_getattr; [exact Hnew | reflexivity] |].
      intros tr Htr. apply preserves_assign; [exact Htr | reflexivity]. }
    intros _ _.
    apply preserves_ret. exists l'. split; [reflexivity | exact Hnew]. }
  destruct (Hp h (kept_refl h)) as [[Hsub _] Hres].
  split; [exact Hsub |]. split; [| exact Hres].
  intros v t' Hv. apply (read_weaken _ h); assumption.
Qed.

(** The registered Rev0 descriptor customized with objects it holds
    itself: it reads afterwards as it did. *)
Lemma customize_keeps_objects_witness :
  read depth_limit
    (snd (customize 105%nat (VRef 0%nat) (VRef 28%nat) (VAtom ANone)
            (VRef 101%nat) (VRef 103%nat) (heap rev0_registered)))
    (VRef 105%nat)
  = Some rev0_segy.
Proof.
  destruct (customize_keeps_objects 105%nat (heap rev0_registered) rev0_segy
              (VRef 0%nat) (VRef 28%nat) (VAtom ANone) (VRef 101%nat) (VRef 103%nat))
    as (_ & Hread & _).
  - vm_compute. reflexivity.
  - apply Hread. vm_compute. reflexivity.
Defined.

(** ** What [customize] shares *)

(** [customize] with a list of binary header fields: the list is not
    copied; the binary file header of the new descriptor, itself a new
    object, holds the very list it was given. *)
Theorem customize_shares_binary_header_fields (self : nat) (h : gmap nat obj)
    (c cb : string) (ts bts : list (string * tree)) (fields : nat) :
  read depth_limit h (VRef self) = Some (TObj c ts) ->
  member "segy_standard" ts <> None ->
  member "binary_file_header" ts = Some (TObj cb bts) ->
  member "fields" bts <> None ->
  is_Some (h !! fields) ->
  fst (truthy (VRef fields) h) = Ok true ->
  exists l' lb h',
    customize self (VAtom ANone) (VRef fields) (VAtom ANone) (VAtom ANone)
      (VAtom ANone) h
    = (Ok (VRef l'), h')
    /\ (l' ∉ dom h) /\ (lb ∉ dom h)
    /\ h ⊆ h'
    /\ fst (getattr (VRef l') "binary_file_header" h') = Ok (VRef lb)
    /\ fst (getattr (VRef lb) "fields" h') = Ok (VRef fields).
Proof.
  intros Hread Hstd Hbin Hfields [ofields Hof] Htrue.
  destruct (customize_start self h c ts Hread Hstd)
    as (h1 & attrs & Hcopy & Hassign & Hext & Hnew & Hattrs).
  set (l' := fresh (dom h1)) in *.
  assert (l' ∉ dom h1) as Hl' by apply is_fresh.
  set (attrs3 := List.map _ attrs) in Hassign.
  set (h3 := <[l' := mkObj c attrs3]> h1) in Hassign.
  assert (h1 ⊆ h3) as Hsub13.
  { apply insert_subseteq. apply not_elem_of_dom. exact Hl'. }
  assert (h ⊆ h3) as Hsub by (etransitivity; [apply Hext | exact Hsub13]).
  (* the binary file header of the copy *)
  pose proof (member_read 999 h1 "binary_file_header" attrs ts Hattrs) as Hm.
  rewrite Hbin in Hm. destruct Hm as (vb & Hvb & Hreadb).
  destruct vb as [a | lb]; [destruct a; discriminate |].
  apply (read_ref 998) in Hreadb as (ob & bts' & Hlb & Hbattrs & [= -> ->]).
  assert (lb ∉ dom h) as Hlbnew.
  { apply member_In in Hvb as (k & Hin). rewrite Forall_forall in Hnew.
    apply (Hnew (k, VRef lb)), list_elem_of_In, Hin. }
  assert (lb <> l') as Hne.
  { intros ->. apply Hl', elem_of_dom. eauto. }
  pose proof (member_read 998 h1 "fields" (obj_attrs ob) bts' Hbattrs) as Hmf.
  destruct (member "fields" bts') as [tf |]; [| contradiction].
  destruct Hmf as (vf & Hvf & _).
  assert (member "binary_file_header" attrs3 = Some (VRef lb)) as Hvb3.
  { unfold attrs3. rewrite member_setattr_other by discriminate. exact Hvb. }
  set (h4 := <[lb := mkObj (obj_cls ob)
                       (List.map (fun kv => if String.eqb (fst kv) "fields"
                                            then (fst kv, VRef fields) else kv)
                          (obj_attrs ob))]> h3).
  exists l', lb, h4.
  split; [| split; [| split; [exact Hlbnew | split; [| split]]]].
  - assert (truthy (VRef fields) h3 = (Ok true, h3)) as Htrue3.
    { unfold truthy in *. cbn [fst] in Htrue. injection Htrue as Htrue.
      rewrite (lookup_weaken _ _ _ _ Hof Hsub). rewrite Hof in Htrue.
      rewrite Htrue. reflexivity. }
    assert (forall hc, truthy (VAtom ANone) hc = (Ok false, hc)) as Hnone
      by reflexivity.
    assert (h3 !! l' = Some (mkObj c attrs3)) as Hl3 by apply lookup_insert_eq.
    assert (h3 !! lb = Some ob) as Hlb3
      by (unfold h3; rewrite lookup_insert_ne by congruence; exact Hlb).
    assert (getattr (VRef l') "binary_file_header" h3 = (Ok (VRef lb), h3)) as Hget
      by (unfold getattr; rewrite Hl3; cbn [obj_attrs]; rewrite Hvb3; reflexivity).
    assert (assign (VRef lb) "fields" (VRef fields) h3 = (Ok tt, h4)) as Hasg
      by (unfold assign, setattr; rewrite Hlb3, Hvf; reflexivity).
    unfold customize, mbind, HeapM_bind, mret, HeapM_ret. rewrite Hcopy, Hassign.
    cbn beta iota.
    repeat (first [rewrite Hnone | rewrite Htrue3 | rewrite Hget | rewrite Hasg];
            cbn beta iota).
    reflexivity.
  - intros Hin. apply Hl'. eapply subseteq_dom; [apply Hext | exact Hin].
  - apply insert_subseteq_r; [apply not_elem_of_dom; exact Hlbnew | exact Hsub].
  - unfold getattr, h4, h3. rewrite lookup_insert_ne by congruence.
    rewrite lookup_insert_eq. cbn [obj_attrs]. rewrite Hvb3. reflexivity.
  - unfold getattr, h4. rewrite lookup_insert_eq. cbn [obj_attrs].
    rewrite (member_setattr_same "fields" (VRef fields) vf _ Hvf). reflexivity.
Qed.

(** The registered Rev0 descriptor customized with its own list of
    binary header fields: the new descriptor and the registered one then
    hold the same list. *)
Lemma customize_shares_binary_header_fields_witness :
  exists l' lb h',
    customize 105%nat (VAtom ANone) (VRef 28%nat) (VAtom ANone) (VAtom ANone)
      (VAtom ANone) (heap rev0_registered)
    = (Ok (VRef l'), h')
    /\ (l' ∉ dom (heap rev0_registered))
    /\ fst (getattr (VRef l') "binary_file_header" h') = Ok (VRef lb)
    /\ lb <> 29%nat
    /\ fst (getattr (VRef lb) "fields" h') = Ok (VRef 28%nat)
    /\ fst (getattr (VRef 29%nat) "fields" h') = Ok (VRef 28%nat).
Proof.
  destruct (customize_shares_binary_header_fields 105%nat (heap rev0_registered)
              "SegyDescriptor" "StructuredDataTypeDescriptor"
              [("segy_standard", TAtom (AEnum "SegyStandard.REV0"));
               ("text_file_header", rev0_textual_file_header);
               ("binary_file_header", tree_of_struct Rev0.rev0_binary_file_header);
               ("trace", rev0_trace)]
              [("fields", tree_of_list (List.map tree_of_field
                                           (fields Rev0.rev0_binary_file_header)));
               ("item_size", TAtom (AInt 400));
               ("offset", TAtom (AInt 3200))]
              28%nat)
    as (l' & lb & h' & Hrun & Hnew & Hlb & Hsub & Hb & Hf).
  - vm_compute. reflexivity.
  - discriminate.
  - reflexivity.
  - discriminate.
  - vm_compute. eexists. reflexivity.
  - vm_compute. reflexivity.
  - exists l', lb, h'. split; [exact Hrun |]. split; [exact Hnew |].
    split; [exact Hb |].
    split; [intros ->; apply Hlb; vm_compute; reflexivity |].
    split; [exact Hf |].
    assert (heap rev0_registered !! 29%nat
            = Some (mkObj "StructuredDataTypeDescriptor"
                      [("fields", VRef 28%nat); ("item_size", VAtom (AInt 400));
                       ("offset", VAtom (AInt 3200))])) as H29
      by (vm_compute; reflexivity).
    unfold getattr. rewrite (lookup_weaken _ _ _ _ H29 Hsub). reflexivity.
Defined.



End CustomizeFacts.
